(** * robocluster: the wire codec, group addressing and router, verified

    A shallow embedding of [robocluster/net.py] and [robocluster/router.py].
    Python values are modelled as follows.
    - [bytes] is [list byte].
    - [str] is a list of code points ([list Z]); a well-formed [str] holds
      values in [0, 0x10FFFF], and Unicode text excludes the surrogates.
    - [int] is [Z]; a [dict] with string keys whose order matters (a JSON
      object) is an association list; the router's tables are [gmap]s.
    - An exception is a value of [exn]; fallible code returns [result].
    Floating point values are kept as the literal they were read from. *)

From Stdlib Require Import ZArith Lia String Ascii Decimal DecimalFacts DecimalN DecimalPos.
From Stdlib.Strings Require Import Byte.
From stdpp Require Import gmap list.

Set Warnings "-register-all".

Local Open Scope Z_scope.

(** ** Exceptions and fallible results *)

Inductive exn :=
| ValueError (msg : string)
| TypeError
| KeyError
| UnicodeDecodeError
| UnicodeEncodeError
| JSONDecodeError (msg : string)
| RecursionError
| ConnectionError.

Inductive result (A : Type) :=
| Ok (a : A)
| Raise (e : exn).
Arguments Ok {A} a.
Arguments Raise {A} e.

Definition bind {A B} (r : result A) (k : A -> result B) : result B :=
  match r with
  | Ok a => k a
  | Raise e => Raise e
  end.

Notation "x <- r ;;; k" := (bind r (fun x => k))
  (at level 100, r at next level, right associativity, only parsing).

(** ** Strings and bytes *)

Definition pystr := list Z.

Fixpoint py (s : string) : pystr :=
  match s with
  | EmptyString => []
  | String a s' => Z.of_N (N_of_ascii a) :: py s'
  end.

(** A literal in which the apostrophe stands for the double quote. *)
Definition pyq (s : string) : pystr := map (fun c => if c =? 39 then 34 else c) (py s).

Definition is_surrogate (c : Z) : bool := (0xD800 <=? c) && (c <=? 0xDFFF).

(** What a Python [str] can hold. *)
Definition is_str (s : pystr) : Prop := Forall (fun c => 0 <= c <= 0x10FFFF) s.

(** Unicode text: every code point is a scalar value. *)
Definition is_text (s : pystr) : Prop :=
  Forall (fun c => 0 <= c <= 0x10FFFF /\ is_surrogate c = false) s.

Definition byte_val (b : byte) : Z := Z.of_N (Byte.to_N b).

Definition byte_of_Z (z : Z) : byte :=
  match Byte.of_N (Z.to_N (z mod 256)) with
  | Some b => b
  | None => x00
  end.

Definition bytes_of (s : string) : list byte := map byte_of_Z (pyq s).

Definition pystr_eqb (a b : pystr) : bool := bool_decide (a = b).

(** ** SHA-256 (FIPS 180-4), the digest behind [hashlib.sha256] *)

Module SHA256.

Definition add32 (x y : Z) : Z := (x + y) mod 2 ^ 32.
Definition rotr (n x : Z) : Z :=
  Z.lor (Z.shiftr x n) (Z.shiftl x (32 - n) mod 2 ^ 32).
Definition shr (n x : Z) : Z := Z.shiftr x n.
Definition not32 (x : Z) : Z := Z.lxor x 0xFFFFFFFF.

Definition Ch (x y z : Z) : Z := Z.lxor (Z.land x y) (Z.land (not32 x) z).
Definition Maj (x y z : Z) : Z :=
  Z.lxor (Z.lxor (Z.land x y) (Z.land x z)) (Z.land y z).
Definition Sigma0 (x : Z) : Z := Z.lxor (Z.lxor (rotr 2 x) (rotr 13 x)) (rotr 22 x).
Definition Sigma1 (x : Z) : Z := Z.lxor (Z.lxor (rotr 6 x) (rotr 11 x)) (rotr 25 x).
Definition sigma0 (x : Z) : Z := Z.lxor (Z.lxor (rotr 7 x) (rotr 18 x)) (shr 3 x).
Definition sigma1 (x : Z) : Z := Z.lxor (Z.lxor (rotr 17 x) (rotr 19 x)) (shr 10 x).

(** The round constants are the first 32 bits of the fractional parts of
    the cube roots of the first 64 primes; the initial hash value, of the
    square roots of the first 8 primes. *)
Definition is_prime (n : nat) : bool :=
  forallb (fun d => negb (Nat.eqb (n mod d) 0)) (seq 2 (n - 2)).

Definition primes : list Z := map Z.of_nat (filter (fun n => is_prime n = true) (seq 2 310)).

Fixpoint cube_root_bits (bits : nat) (n r : Z) : Z :=
  match bits with
  | O => r
  | S b =>
      let r' := r + 2 ^ Z.of_nat b in
      cube_root_bits b n (if r' * r' * r' <=? n then r' else r)
  end.

Definition frac_cbrt (p : Z) : Z := cube_root_bits 36 (p * 2 ^ 96) 0 mod 2 ^ 32.
Definition frac_sqrt (p : Z) : Z := Z.sqrt (p * 2 ^ 64) mod 2 ^ 32.

Definition K : list Z := Eval vm_compute in map frac_cbrt primes.

(** The eight working variables, and the hash value between blocks. *)
Definition state : Type := Z * Z * Z * Z * Z * Z * Z * Z.

Definition H0 : state :=
  Eval vm_compute in
    (frac_sqrt 2, frac_sqrt 3, frac_sqrt 5, frac_sqrt 7,
     frac_sqrt 11, frac_sqrt 13, frac_sqrt 17, frac_sqrt 19).

(** Padding: the byte 0x80, zeros up to 56 modulo 64, the bit length on
    eight bytes, big-endian. *)
Definition be_bytes (n : nat) (x : Z) : list Z :=
  map (fun i => Z.shiftr x (8 * Z.of_nat i) mod 256) (rev (seq 0 n)).

Definition pad (msg : list Z) : list Z :=
  let l := Z.of_nat (length msg) in
  let k := (55 - l) mod 64 in
  msg ++ [0x80] ++ replicate (Z.to_nat k) 0 ++ be_bytes 8 (8 * l).

Fixpoint be_int (bs : list Z) (acc : Z) : Z :=
  match bs with
  | [] => acc
  | b :: bs' => be_int bs' (acc * 256 + b)
  end.

Fixpoint words (n : nat) (bs : list Z) : list Z :=
  match n with
  | O => []
  | S n' => be_int (take 4 bs) 0 :: words n' (drop 4 bs)
  end.

Fixpoint blocks (fuel : nat) (bs : list Z) : list (list Z) :=
  match fuel, bs with
  | S f, _ :: _ => words 16 (take 64 bs) :: blocks f (drop 64 bs)
  | _, _ => []
  end.

(** The message schedule, most recent word first. *)
Fixpoint schedule (n : nat) (r : list Z) : list Z :=
  match n with
  | O => r
  | S n' =>
      let w := add32 (add32 (sigma1 (nth 1 r 0)) (nth 6 r 0))
                     (add32 (sigma0 (nth 14 r 0)) (nth 15 r 0)) in
      schedule n' (w :: r)
  end.

Definition round (s : state) (kw : Z * Z) : state :=
  let '(a, b, c, d, e, f, g, h) := s in
  let t1 := add32 (add32 (add32 h (Sigma1 e)) (add32 (Ch e f g) (fst kw))) (snd kw) in
  let t2 := add32 (Sigma0 a) (Maj a b c) in
  (add32 t1 t2, a, b, c, add32 d t1, e, f, g).

Definition compress (s : state) (block : list Z) : state :=
  let w := rev (schedule 48 (rev block)) in
  let '(a, b, c, d, e, f, g, h) := foldl round s (zip K w) in
  let '(sa, sb, sc, sd, se, sf, sg, sh) := s in
  (add32 sa a, add32 sb b, add32 sc c, add32 sd d,
   add32 se e, add32 sf f, add32 sg g, add32 sh h).

Definition word_bytes (x : Z) : list byte := map byte_of_Z (be_bytes 4 x).

Definition digest_of (s : state) : list byte :=
  let '(a, b, c, d, e, f, g, h) := s in
  word_bytes a ++ word_bytes b ++ word_bytes c ++ word_bytes d ++
  word_bytes e ++ word_bytes f ++ word_bytes g ++ word_bytes h.

Definition sha256 (msg : list byte) : list byte :=
  let p := pad (map byte_val msg) in
  digest_of (foldl compress H0 (blocks (length p) p)).

End SHA256.

Definition hex_digit (n : Z) : Z := if n <? 10 then 48 + n else 87 + n.

Definition hexdigest (bs : list byte) : pystr :=
  flat_map (fun b => [hex_digit (byte_val b / 16); hex_digit (byte_val b mod 16)]) bs.

(** ** UTF-8: [str.encode()] and [bytes.decode()] *)

Definition encode_char (c : Z) : result (list Z) :=
  if c <? 0x80 then Ok [c]
  else if c <? 0x800 then Ok [0xC0 + c / 64; 0x80 + c mod 64]
  else if is_surrogate c then Raise UnicodeEncodeError
  else if c <? 0x10000 then
    Ok [0xE0 + c / 4096; 0x80 + c / 64 mod 64; 0x80 + c mod 64]
  else
    Ok [0xF0 + c / 262144; 0x80 + c / 4096 mod 64; 0x80 + c / 64 mod 64;
        0x80 + c mod 64].

Fixpoint utf8_encode (s : pystr) : result (list Z) :=
  match s with
  | [] => Ok []
  | c :: s' =>
      bs <- encode_char c ;;;
      rest <- utf8_encode s' ;;;
      Ok (bs ++ rest)
  end.

Definition str_encode (s : pystr) : result (list byte) :=
  bs <- utf8_encode s ;;; Ok (map byte_of_Z bs).

Definition is_cont (b : Z) : bool := (0x80 <=? b) && (b <=? 0xBF).
Definition in_range (lo hi b : Z) : bool := (lo <=? b) && (b <=? hi).

(** Strict decoding: overlong forms, surrogates, values above 0x10FFFF and
    truncated sequences are errors. *)
Fixpoint utf8_decode (bs : list Z) : result pystr :=
  match bs with
  | [] => Ok []
  | b0 :: t0 =>
      if b0 <? 0x80 then
        rest <- utf8_decode t0 ;;; Ok (b0 :: rest)
      else if in_range 0xC2 0xDF b0 then
        match t0 with
        | b1 :: t1 =>
            if is_cont b1 then
              rest <- utf8_decode t1 ;;;
              Ok (((b0 - 0xC0) * 64 + (b1 - 0x80)) :: rest)
            else Raise UnicodeDecodeError
        | _ => Raise UnicodeDecodeError
        end
      else if in_range 0xE0 0xEF b0 then
        match t0 with
        | b1 :: b2 :: t2 =>
            let lo := if b0 =? 0xE0 then 0xA0 else 0x80 in
            let hi := if b0 =? 0xED then 0x9F else 0xBF in
            if in_range lo hi b1 && is_cont b2 then
              rest <- utf8_decode t2 ;;;
              Ok (((b0 - 0xE0) * 4096 + (b1 - 0x80) * 64 + (b2 - 0x80)) :: rest)
            else Raise UnicodeDecodeError
        | _ => Raise UnicodeDecodeError
        end
      else if in_range 0xF0 0xF4 b0 then
        match t0 with
        | b1 :: b2 :: b3 :: t3 =>
            let lo := if b0 =? 0xF0 then 0x90 else 0x80 in
            let hi := if b0 =? 0xF4 then 0x8F else 0xBF in
            if in_range lo hi b1 && is_cont b2 && is_cont b3 then
              rest <- utf8_decode t3 ;;;
              Ok (((b0 - 0xF0) * 262144 + (b1 - 0x80) * 4096
                   + (b2 - 0x80) * 64 + (b3 - 0x80)) :: rest)
            else Raise UnicodeDecodeError
        | _ => Raise UnicodeDecodeError
        end
      else Raise UnicodeDecodeError
  end.

Definition bytes_decode (bs : list byte) : result pystr :=
  utf8_decode (map byte_val bs).

(** ** Integers and strings: [str(int)], [int.from_bytes], joins *)

Fixpoint uint_codes (u : uint) : pystr :=
  match u with
  | Nil => []
  | D0 u' => 48 :: uint_codes u'
  | D1 u' => 49 :: uint_codes u'
  | D2 u' => 50 :: uint_codes u'
  | D3 u' => 51 :: uint_codes u'
  | D4 u' => 52 :: uint_codes u'
  | D5 u' => 53 :: uint_codes u'
  | D6 u' => 54 :: uint_codes u'
  | D7 u' => 55 :: uint_codes u'
  | D8 u' => 56 :: uint_codes u'
  | D9 u' => 57 :: uint_codes u'
  end.

Definition str_of_int (z : Z) : pystr :=
  if z <? 0 then 45 :: uint_codes (N.to_uint (Z.to_N (- z)))
  else uint_codes (N.to_uint (Z.to_N z)).

Fixpoint int_from_bytes_big (bs : list byte) (acc : Z) : Z :=
  match bs with
  | [] => acc
  | b :: bs' => int_from_bytes_big bs' (acc * 256 + byte_val b)
  end.

Fixpoint int_from_bytes_little (bs : list byte) : Z :=
  match bs with
  | [] => 0
  | b :: bs' => byte_val b + 256 * int_from_bytes_little bs'
  end.

Definition slice {A} (i j : nat) (l : list A) : list A := take (j - i) (drop i l).

Fixpoint join (sep : pystr) (parts : list pystr) : pystr :=
  match parts with
  | [] => []
  | [p] => p
  | p :: ps => p ++ sep ++ join sep ps
  end.

(** ** [ipaddress.ip_address] on packed bytes, and [str] of an address *)

Inductive ip_addr :=
| IPv4Address (ip : Z)
| IPv6Address (ip : Z).

Definition ip_address (packed : list byte) : result ip_addr :=
  if (length packed =? 4)%nat then Ok (IPv4Address (int_from_bytes_big packed 0))
  else if (length packed =? 16)%nat then Ok (IPv6Address (int_from_bytes_big packed 0))
  else Raise (ValueError "does not appear to be an IPv4 or IPv6 address").

(** 224.0.0.0/4 and ff00::/8. *)
Definition is_multicast (a : ip_addr) : bool :=
  match a with
  | IPv4Address ip => Z.shiftr ip 28 =? 0xE
  | IPv6Address ip => Z.shiftr ip 120 =? 0xFF
  end.

Fixpoint strip_zeros (l : pystr) : pystr :=
  match l with
  | 48 :: (_ :: _) as t => strip_zeros t
  | _ => l
  end.

Definition hextet_str (h : Z) : pystr :=
  strip_zeros (map hex_digit [h / 4096 mod 16; h / 256 mod 16; h / 16 mod 16; h mod 16]).

Definition hextets_of (ip : Z) : list pystr :=
  map (fun i => hextet_str (Z.shiftr ip (16 * Z.of_nat i) mod 65536)) (rev (seq 0 8)).

(** The scan of [_compress_hextets]: the longest run of "0" hextets. *)
Record zero_run := ZeroRun {
  best_start : Z; best_len : Z; run_start : Z; run_len : Z
}.

Definition scan_hextet (st : zero_run) (ih : Z * pystr) : zero_run :=
  let '(index, hextet) := ih in
  if pystr_eqb hextet [48] then
    let len := run_len st + 1 in
    let start := if run_start st =? -1 then index else run_start st in
    if best_len st <? len
    then ZeroRun start len start len
    else ZeroRun (best_start st) (best_len st) start len
  else ZeroRun (best_start st) (best_len st) (-1) 0.

Definition enumerate {A} (l : list A) : list (Z * A) :=
  zip (map Z.of_nat (seq 0 (length l))) l.

Definition compress_hextets (hextets : list pystr) : list pystr :=
  let st := foldl scan_hextet (ZeroRun (-1) 0 (-1) 0) (enumerate hextets) in
  if 1 <? best_len st then
    let best_end := best_start st + best_len st in
    let hextets1 :=
      if best_end =? Z.of_nat (length hextets) then hextets ++ [[]] else hextets in
    let hextets2 :=
      take (Z.to_nat (best_start st)) hextets1 ++ [[]]
        ++ drop (Z.to_nat best_end) hextets1 in
    if best_start st =? 0 then [] :: hextets2 else hextets2
  else hextets.

Definition ip_str (a : ip_addr) : pystr :=
  match a with
  | IPv4Address ip =>
      join [46] (map (fun i => str_of_int (Z.shiftr ip (8 * Z.of_nat i) mod 256))
                     (rev (seq 0 4)))
  | IPv6Address ip => join [58] (compress_hextets (hextets_of ip))
  end.

(** ** net.py: [key_to_multicast] *)

Definition key_to_multicast (key family : pystr) : result (pystr * Z) :=
  kb <- str_encode key ;;;
  let digest := SHA256.sha256 kb in
  let port := Z.lor (int_from_bytes_little (slice 0 2 digest)) 0xC000 in
  addr <-
    (if pystr_eqb family (py "ipv4") then
       Ok ([xe0; x00; x00] ++ slice 3 4 digest)
     else if pystr_eqb family (py "ipv6") then
       Ok ([xff; x13; x00; x00] ++ slice 3 15 digest)
     else Raise (ValueError "unknown family")) ;;;
  a <- ip_address addr ;;;
  Ok (ip_str a, port).

(** ** JSON values: what [json.loads] returns and [json.dumps] accepts *)

(** [None], [bool], [int], [float], [str], [list] and [dict] with string
    keys.  A [float] is carried as the literal that denotes it. *)
Inductive json :=
| JNull
| JBool (b : bool)
| JInt (n : Z)
| JFloat (lit : pystr)
| JString (s : pystr)
| JArray (items : list json)
| JObject (pairs : list (pystr * json)).

(** *** [json.dumps] with its defaults: [ensure_ascii], separators ", " and ": " *)

Definition hex4 (n : Z) : pystr :=
  map hex_digit [n / 4096 mod 16; n / 256 mod 16; n / 16 mod 16; n mod 16].

Definition u_escape (n : Z) : pystr := [92; 117] ++ hex4 n.

Definition escape_char (c : Z) : pystr :=
  if c =? 92 then [92; 92]
  else if c =? 34 then [92; 34]
  else if c =? 8 then [92; 98]
  else if c =? 12 then [92; 102]
  else if c =? 10 then [92; 110]
  else if c =? 13 then [92; 114]
  else if c =? 9 then [92; 116]
  else if (32 <=? c) && (c <=? 126) then [c]
  else if c <? 0x10000 then u_escape c
  else
    let n := c - 0x10000 in
    u_escape (Z.lor 0xD800 (Z.land (Z.shiftr n 10) 0x3FF))
      ++ u_escape (Z.lor 0xDC00 (Z.land n 0x3FF)).

Definition encode_basestring_ascii (s : pystr) : pystr :=
  [34] ++ flat_map escape_char s ++ [34].

Fixpoint dumps (v : json) : pystr :=
  match v with
  | JNull => py "null"
  | JBool true => py "true"
  | JBool false => py "false"
  | JInt n => str_of_int n
  | JFloat lit => lit
  | JString s => encode_basestring_ascii s
  | JArray items =>
      [91] ++ join [44; 32] (map dumps items) ++ [93]
  | JObject pairs =>
      [123] ++ join [44; 32]
        (map (fun kv => encode_basestring_ascii (fst kv) ++ [58; 32] ++ dumps (snd kv)) pairs)
      ++ [125]
  end.

(** *** [json.loads]: the scanner of [json.decoder] and [json.scanner] *)

Definition is_ws (c : Z) : bool :=
  (c =? 32) || (c =? 9) || (c =? 10) || (c =? 13).

Fixpoint skip_ws (s : pystr) : pystr :=
  match s with
  | c :: s' => if is_ws c then skip_ws s' else s
  | [] => []
  end.

Definition is_digit (c : Z) : bool := (48 <=? c) && (c <=? 57).

Definition hex_val (c : Z) : option Z :=
  if is_digit c then Some (c - 48)
  else if (97 <=? c) && (c <=? 102) then Some (c - 87)
  else if (65 <=? c) && (c <=? 70) then Some (c - 55)
  else None.

Definition decode_uXXXX (s : pystr) : option (Z * pystr) :=
  match s with
  | h3 :: h2 :: h1 :: h0 :: rest =>
      match hex_val h3, hex_val h2, hex_val h1, hex_val h0 with
      | Some n3, Some n2, Some n1, Some n0 =>
          Some (n3 * 4096 + n2 * 256 + n1 * 16 + n0, rest)
      | _, _, _, _ => None
      end
  | _ => None
  end.

Definition simple_escape (c : Z) : option Z :=
  if c =? 34 then Some 34
  else if c =? 92 then Some 92
  else if c =? 47 then Some 47
  else if c =? 98 then Some 8
  else if c =? 102 then Some 12
  else if c =? 110 then Some 10
  else if c =? 114 then Some 13
  else if c =? 116 then Some 9
  else None.

(** [scanstring], strict, from just after the opening quote: the decoded
    string and the input after the closing quote. *)
Fixpoint scanstring (s : pystr) : result (pystr * pystr) :=
  match s with
  | [] => Raise (JSONDecodeError "Unterminated string starting at")
  | c :: rest =>
      if c =? 34 then Ok ([], rest)
      else if c =? 92 then
        match rest with
        | [] => Raise (JSONDecodeError "Unterminated string starting at")
        | e :: rest1 =>
            if e =? 117 then
              match rest1 with
              | h3 :: h2 :: h1 :: h0 :: rest2 =>
                  match decode_uXXXX [h3; h2; h1; h0] with
                  | None => Raise (JSONDecodeError "Invalid \uXXXX escape")
                  | Some (uni, _) =>
                      let single :=
                        r <- scanstring rest2 ;;; Ok (uni :: fst r, snd r) in
                      if (0xD800 <=? uni) && (uni <=? 0xDBFF) then
                        match rest2 with
                        | b :: u :: l3 :: l2 :: l1 :: l0 :: rest3 =>
                            if (b =? 92) && (u =? 117) then
                              match decode_uXXXX [l3; l2; l1; l0] with
                              | None => Raise (JSONDecodeError "Invalid \uXXXX escape")
                              | Some (uni2, _) =>
                                  if (0xDC00 <=? uni2) && (uni2 <=? 0xDFFF) then
                                    r <- scanstring rest3 ;;;
                                    Ok ((0x10000 + Z.lor (Z.shiftl (uni - 0xD800) 10)
                                                         (uni2 - 0xDC00)) :: fst r, snd r)
                                  else single
                              end
                            else single
                        | _ => single
                        end
                      else single
                  end
              | _ => Raise (JSONDecodeError "Invalid \uXXXX escape")
              end
            else
              match simple_escape e with
              | Some d => r <- scanstring rest1 ;;; Ok (d :: fst r, snd r)
              | None => Raise (JSONDecodeError "Invalid \escape")
              end
        end
      else if c <? 32 then Raise (JSONDecodeError "Invalid control character at")
      else r <- scanstring rest ;;; Ok (c :: fst r, snd r)
  end.

Fixpoint span_digits (s : pystr) : pystr * pystr :=
  match s with
  | c :: s' =>
      if is_digit c then let '(ds, r) := span_digits s' in (c :: ds, r)
      else ([], s)
  | [] => ([], [])
  end.

Fixpoint uint_of_codes (ds : pystr) : uint :=
  match ds with
  | [] => Nil
  | c :: ds' =>
      let u := uint_of_codes ds' in
      if c =? 48 then D0 u else if c =? 49 then D1 u else if c =? 50 then D2 u
      else if c =? 51 then D3 u else if c =? 52 then D4 u else if c =? 53 then D5 u
      else if c =? 54 then D6 u else if c =? 55 then D7 u else if c =? 56 then D8 u
      else D9 u
  end.

(** [int(text)] for an optional minus sign followed by decimal digits. *)
Definition parse_int (text : pystr) : Z :=
  match text with
  | c :: ds =>
      if c =? 45 then - Z.of_N (N.of_uint (uint_of_codes ds))
      else Z.of_N (N.of_uint (uint_of_codes text))
  | [] => 0
  end.

(** An optional minus sign, then a lone 0 or a digit 1..9 followed by
    digits: the integer part and the input after it. *)
Definition match_integer (s : pystr) : option (pystr * pystr) :=
  let '(sign, s1) :=
    match s with
    | c :: t => if c =? 45 then ([45], t) else ([], s)
    | [] => ([], s)
    end in
  match s1 with
  | c :: t =>
      if c =? 48 then Some (sign ++ [48], t)
      else if is_digit c then
        let '(ds, r) := span_digits t in Some (sign ++ c :: ds, r)
      else None
  | [] => None
  end.

(** The fraction, a point and digits: taken only when a digit follows the
    point. *)
Definition match_frac (s : pystr) : pystr * pystr :=
  match s with
  | p :: d :: t =>
      if (p =? 46) && is_digit d then
        let '(ds, r) := span_digits t in (p :: d :: ds, r)
      else ([], s)
  | _ => ([], s)
  end.

(** The exponent, e or E, an optional sign and digits: taken only when a
    digit follows. *)
Definition match_exp (s : pystr) : pystr * pystr :=
  match s with
  | e :: t =>
      if (e =? 101) || (e =? 69) then
        match t with
        | d :: t1 =>
            if is_digit d then
              let '(ds, r) := span_digits t1 in (e :: d :: ds, r)
            else if (d =? 45) || (d =? 43) then
              match t1 with
              | g :: t2 =>
                  if is_digit g then
                    let '(ds, r) := span_digits t2 in (e :: d :: g :: ds, r)
                  else ([], s)
              | [] => ([], s)
              end
            else ([], s)
        | [] => ([], s)
        end
      else ([], s)
  | [] => ([], s)
  end.

Definition match_number (s : pystr) : option (json * pystr) :=
  match match_integer s with
  | None => None
  | Some (integer, r0) =>
      let '(frac, r1) := match_frac r0 in
      let '(exp, r2) := match_exp r1 in
      match frac, exp with
      | [], [] => Some (JInt (parse_int integer), r2)
      | _, _ => Some (JFloat (integer ++ frac ++ exp), r2)
      end
  end.

(** [s.startswith(prefix)], with the rest of [s]. *)
Fixpoint strip_prefix (prefix s : pystr) : option pystr :=
  match prefix, s with
  | [], _ => Some s
  | p :: prefix', c :: s' => if p =? c then strip_prefix prefix' s' else None
  | _ :: _, [] => None
  end.

(** [dict(pairs)]: a repeated key keeps its first position and takes the
    last value. *)
Fixpoint dict_set (k : pystr) (v : json) (d : list (pystr * json)) : list (pystr * json) :=
  match d with
  | [] => [(k, v)]
  | (k', v') :: d' =>
      if pystr_eqb k k' then (k, v) :: d' else (k', v') :: dict_set k v d'
  end.

Definition dict_of_pairs (pairs : list (pystr * json)) : list (pystr * json) :=
  foldl (fun d kv => dict_set (fst kv) (snd kv) d) [] pairs.

Definition next_is (c : Z) (s : pystr) : option pystr :=
  match s with
  | x :: r => if x =? c then Some r else None
  | [] => None
  end.

(** [scan_once] with the object and array loops.  [fuel] bounds the depth
    of the calls; running out of it is Python's [RecursionError]. *)
Fixpoint scan_once (fuel : nat) (s : pystr) : result (json * pystr) :=
  match fuel with
  | O => Raise RecursionError
  | S f =>
      match s with
      | [] => Raise (JSONDecodeError "Expecting value")
      | c :: rest =>
          if c =? 34 then
            r <- scanstring rest ;;; Ok (JString (fst r), snd r)
          else if c =? 123 then
            let s1 := skip_ws rest in
            match next_is 125 s1 with
            | Some r => Ok (JObject [], r)
            | None =>
                r <- object_items f s1 ;;; Ok (JObject (dict_of_pairs (fst r)), snd r)
            end
          else if c =? 91 then
            let s1 := skip_ws rest in
            match next_is 93 s1 with
            | Some r => Ok (JArray [], r)
            | None => r <- array_items f s1 ;;; Ok (JArray (fst r), snd r)
            end
          else
            match strip_prefix (py "null") s with
            | Some r => Ok (JNull, r)
            | None =>
            match strip_prefix (py "true") s with
            | Some r => Ok (JBool true, r)
            | None =>
            match strip_prefix (py "false") s with
            | Some r => Ok (JBool false, r)
            | None =>
            match match_number s with
            | Some vr => Ok vr
            | None =>
            match strip_prefix (py "NaN") s with
            | Some r => Ok (JFloat (py "NaN"), r)
            | None =>
            match strip_prefix (py "Infinity") s with
            | Some r => Ok (JFloat (py "Infinity"), r)
            | None =>
            match strip_prefix (py "-Infinity") s with
            | Some r => Ok (JFloat (py "-Infinity"), r)
            | None => Raise (JSONDecodeError "Expecting value")
            end end end end end end end
      end
  end
with object_items (fuel : nat) (s : pystr) : result (list (pystr * json) * pystr) :=
  match fuel with
  | O => Raise RecursionError
  | S f =>
      match next_is 34 s with
      | None =>
          Raise (JSONDecodeError "Expecting property name enclosed in double quotes")
      | Some s1 =>
          k <- scanstring s1 ;;;
          match next_is 58 (skip_ws (snd k)) with
          | None => Raise (JSONDecodeError "Expecting ':' delimiter")
          | Some s2 =>
              v <- scan_once f (skip_ws s2) ;;;
              match skip_ws (snd v) with
              | [] => Raise (JSONDecodeError "Expecting ',' delimiter")
              | c :: s4 =>
                  if c =? 125 then Ok ([(fst k, fst v)], s4)
                  else if c =? 44 then
                    r <- object_items f (skip_ws s4) ;;;
                    Ok ((fst k, fst v) :: fst r, snd r)
                  else Raise (JSONDecodeError "Expecting ',' delimiter")
              end
          end
      end
  end
with array_items (fuel : nat) (s : pystr) : result (list json * pystr) :=
  match fuel with
  | O => Raise RecursionError
  | S f =>
      v <- scan_once f s ;;;
      match skip_ws (snd v) with
      | [] => Raise (JSONDecodeError "Expecting ',' delimiter")
      | c :: s2 =>
          if c =? 93 then Ok ([fst v], s2)
          else if c =? 44 then
            r <- array_items f (skip_ws s2) ;;; Ok (fst v :: fst r, snd r)
          else Raise (JSONDecodeError "Expecting ',' delimiter")
      end
  end.

Definition loads (s : pystr) : result json :=
  match strip_prefix [0xFEFF] s with
  | Some _ => Raise (JSONDecodeError "Unexpected UTF-8 BOM (decode using utf-8-sig)")
  | None =>
      r <- scan_once (2 * length s + 2) (skip_ws s) ;;;
      match skip_ws (snd r) with
      | [] => Ok (fst r)
      | _ :: _ => Raise (JSONDecodeError "Extra data")
      end
  end.

(** ** router.py: [Message] *)

Record Message := mkMessage { source : json; type : json; data : json }.

Definition str_is (x : json) (k : pystr) : bool :=
  match x with
  | JString s => pystr_eqb s k
  | _ => false
  end.

Fixpoint is_substring (k s : pystr) : bool :=
  match strip_prefix k s with
  | Some _ => true
  | None =>
      match s with
      | [] => false
      | _ :: s' => is_substring k s'
      end
  end.

Fixpoint dict_get (k : pystr) (d : list (pystr * json)) : option json :=
  match d with
  | [] => None
  | (k', v) :: d' => if pystr_eqb k k' then Some v else dict_get k d'
  end.

(** [k in packet] for a string [k]: key membership in a dict, element
    membership in a list, substring test in a str, [TypeError] elsewhere. *)
Definition contains (packet : json) (k : pystr) : result bool :=
  match packet with
  | JObject d => Ok (bool_decide (is_Some (dict_get k d)))
  | JArray items => Ok (existsb (fun x => str_is x k) items)
  | JString s => Ok (is_substring k s)
  | _ => Raise TypeError
  end.

(** [any(k not in packet for k in keys)] *)
Fixpoint any_missing (packet : json) (keys : list pystr) : result bool :=
  match keys with
  | [] => Ok false
  | k :: keys' =>
      b <- contains packet k ;;;
      if negb b then Ok true else any_missing packet keys'
  end.

(** [packet[k]] for a string [k]. *)
Definition getitem (packet : json) (k : pystr) : result json :=
  match packet with
  | JObject d =>
      match dict_get k d with
      | Some v => Ok v
      | None => Raise KeyError
      end
  | _ => Raise TypeError
  end.

Definition from_string (msg : pystr) : result Message :=
  match loads msg with
  | Raise (JSONDecodeError _) => Raise (ValueError "Invalid JSON.")
  | Raise e => Raise e
  | Ok packet =>
      missing <- any_missing packet [py "source"; py "type"; py "data"] ;;;
      if missing then Raise (ValueError "Improperly formatted message.")
      else
        s <- getitem packet (py "source") ;;;
        t <- getitem packet (py "type") ;;;
        d <- getitem packet (py "data") ;;;
        Ok (mkMessage s t d)
  end.

Definition from_bytes (msg : list byte) : result Message :=
  match (s <- bytes_decode msg ;;; from_string s) with
  | Raise UnicodeDecodeError => Raise (ValueError "Invalid utf-8.")
  | r => r
  end.

Definition to_json (m : Message) : pystr :=
  dumps (JObject [(py "source", source m); (py "type", type m); (py "data", data m)]).

Definition encode (m : Message) : result (list byte) := str_encode (to_json m).

(** ** Predicates used in the statements *)

(** The outcome of a scanning step on input [s]: the rest is shorter, and
    the only error is a decode error. *)
Definition scan_ok {A} (r : result (A * pystr)) (s : pystr) : Prop :=
  match r with
  | Ok (_, rest) => (length rest < length s)%nat
  | Raise e => exists m, e = JSONDecodeError m
  end.


(** The literals of finite floats, as [float.__repr__] writes them: a
    sign, an integer part without leading zeros, and a fraction or an
    exponent or both.  (NaN and the infinities are not JSON.) *)
Definition digits (ds : pystr) : Prop := Forall (fun c => is_digit c = true) ds.

Definition int_literal (sign int : pystr) : Prop :=
  (sign = [] \/ sign = [45]) /\
  (int = [48] \/
   exists c ds, int = c :: ds /\ is_digit c = true /\ c <> 48 /\ digits ds).

Definition frac_literal (frac : pystr) : Prop :=
  exists d ds, frac = 46 :: d :: ds /\ is_digit d = true /\ digits ds.

Definition exp_literal (exp : pystr) : Prop :=
  exists e sgn d ds,
    exp = e :: sgn ++ d :: ds /\ (e = 101 \/ e = 69) /\
    (sgn = [] \/ sgn = [43] \/ sgn = [45]) /\ is_digit d = true /\ digits ds.

Definition float_literal (lit : pystr) : Prop :=
  exists sign int frac exp,
    lit = sign ++ int ++ frac ++ exp /\ int_literal sign int /\
    (frac = [] \/ frac_literal frac) /\ (exp = [] \/ exp_literal exp) /\
    (frac <> [] \/ exp <> []).

(** JSON-representable data: every float a finite float's literal, every
    string and key a Unicode text, and the keys of an object pairwise
    distinct (as in a [dict]). *)
Fixpoint representable (v : json) : Prop :=
  match v with
  | JNull | JBool _ | JInt _ => True
  | JFloat lit => float_literal lit
  | JString s => is_text s
  | JArray items => fold_right (fun x P => representable x /\ P) True items
  | JObject pairs =>
      NoDup (map fst pairs) /\
      fold_right (fun kv P => (is_text (fst kv) /\ representable (snd kv)) /\ P) True pairs
  end.

(** The input after a number must not continue it. *)
Definition ends_number (rest : pystr) : Prop :=
  match rest with
  | [] => True
  | c :: _ => is_digit c = false /\ c <> 46 /\ c <> 101 /\ c <> 69
  end.

(** A character that can begin the text of a value. *)
Definition value_start (c : Z) : Prop :=
  is_ws c = false /\ c <> 93 /\ c <> 125 /\ c <> 0xFEFF.

(** [scan_once] reads [v] back from its text, whatever follows it. *)
Definition reads_back (v : json) : Prop :=
  forall rest, ends_number rest ->
    exists f0, forall fuel, (f0 <= fuel)%nat ->
      scan_once fuel (dumps v ++ rest) = Ok (v, rest).

Definition dumps_pair (kv : pystr * json) : pystr :=
  encode_basestring_ascii (fst kv) ++ [58; 32] ++ dumps (snd kv).

Definition ascii_text (s : pystr) : Prop := Forall (fun c => 0 <= c < 128) s.

(** A [Message] whose three fields are JSON-representable. *)
Definition representable_message (m : Message) : Prop :=
  representable (source m) /\ representable (type m) /\ representable (data m).

Definition required_keys : list pystr := [py "source"; py "type"; py "data"].

(** Objects, arrays and strings: the values on which [in] is defined. *)
Definition is_container (v : json) : bool :=
  match v with
  | JObject _ | JArray _ | JString _ => true
  | _ => false
  end.

(** [packet] is an object with a field [k]. *)
Definition has_field (packet : json) (k : pystr) : Prop :=
  exists d v, packet = JObject d /\ dict_get k d = Some v.

(** ** [fnmatch.fnmatch] on POSIX, where [os.path.normcase] is the identity *)

Inductive glob_token :=
| Star                               (* "*": any run of characters *)
| AnyChar                            (* "?": any one character *)
| CharClass (negated : bool) (stuff : pystr)   (* "[seq]" and "[!seq]" *)
| Lit (c : Z).

(** The text up to the first [stop], and the text after it. *)
Fixpoint split_at (stop : Z) (s : pystr) : option (pystr * pystr) :=
  match s with
  | [] => None
  | c :: s' =>
      if c =? stop then Some ([], s')
      else
        match split_at stop s' with
        | Some (pre, post) => Some (c :: pre, post)
        | None => None
        end
  end.

(** After an opening bracket: an optional "!", an optional leading "]"
    that belongs to the set, then everything up to the closing "]". *)
Definition bracket (p : pystr) : option (bool * pystr * pystr) :=
  let '(negated, p1) :=
    match p with
    | c :: t => if c =? 33 then (true, t) else (false, p)
    | [] => (false, p)
    end in
  let '(lead, p2) :=
    match p1 with
    | c :: t => if c =? 93 then ([93], t) else ([], p1)
    | [] => ([], p1)
    end in
  match split_at 93 p2 with
  | Some (mid, post) => Some (negated, lead ++ mid, post)
  | None => None
  end.

Fixpoint translate (fuel : nat) (pat : pystr) : list glob_token :=
  match fuel with
  | O => []
  | S f =>
      match pat with
      | [] => []
      | c :: rest =>
          if c =? 42 then Star :: translate f rest
          else if c =? 63 then AnyChar :: translate f rest
          else if c =? 91 then
            match bracket rest with
            | Some (negated, stuff, post) => CharClass negated stuff :: translate f post
            | None => Lit 91 :: translate f rest
            end
          else Lit c :: translate f rest
      end
  end.

(** Membership in a bracket set: [a-b] is a range, anything else stands for
    itself. *)
Fixpoint in_set (x : Z) (stuff : pystr) : bool :=
  match stuff with
  | [] => false
  | a :: rest =>
      match rest with
      | dash :: b :: rest' =>
          if dash =? 45 then ((a <=? x) && (x <=? b)) || in_set x rest'
          else (x =? a) || in_set x rest
      | _ => (x =? a) || in_set x rest
      end
  end.

Fixpoint glob_match (toks : list glob_token) (name : pystr) : bool :=
  match toks with
  | [] => match name with [] => true | _ :: _ => false end
  | Star :: toks' =>
      (fix star (n : pystr) : bool :=
         glob_match toks' n ||
         match n with
         | [] => false
         | _ :: n' => star n'
         end) name
  | AnyChar :: toks' =>
      match name with
      | _ :: n => glob_match toks' n
      | [] => false
      end
  | CharClass negated stuff :: toks' =>
      match name with
      | x :: n => xorb negated (in_set x stuff) && glob_match toks' n
      | [] => false
      end
  | Lit c :: toks' =>
      match name with
      | x :: n => (x =? c) && glob_match toks' n
      | [] => false
      end
  end.

Definition fnmatchcase (name pat : pystr) : bool :=
  glob_match (translate (length pat) pat) name.

(** [fnmatch(topic, key)] on a JSON value: anything but a [str] is a
    [TypeError] in [os.path.normcase]. *)
Definition fnmatch (topic : json) (key : pystr) : result bool :=
  match topic with
  | JString t => Ok (fnmatchcase t key)
  | _ => Raise TypeError
  end.

(** ** Dictionary keys *)

(** The hashable JSON values, up to Python's equality: [True == 1] and
    [False == 0].  A float key is identified by its literal. *)
Inductive hkey :=
| HNone
| HInt (n : Z)
| HFloat (lit : pystr)
| HStr (s : pystr).

#[global] Instance hkey_eq_dec : EqDecision hkey.
Proof. solve_decision. Defined.

#[global] Instance hkey_countable : Countable hkey.
Proof.
  refine (inj_countable'
    (fun k => match k with
              | HNone => inl tt
              | HInt n => inr (inl n)
              | HFloat lit => inr (inr (inl lit))
              | HStr s => inr (inr (inr s))
              end)
    (fun x => match x with
              | inl _ => HNone
              | inr (inl n) => HInt n
              | inr (inr (inl lit)) => HFloat lit
              | inr (inr (inr s)) => HStr s
              end) _).
  intros []; reflexivity.
Defined.

(** [hash(v)]: lists and dicts are unhashable. *)
Definition to_key (v : json) : result hkey :=
  match v with
  | JNull => Ok HNone
  | JBool b => Ok (HInt (if b then 1 else 0))
  | JInt n => Ok (HInt n)
  | JFloat lit => Ok (HFloat lit)
  | JString s => Ok (HStr s)
  | JArray _ | JObject _ => Raise TypeError
  end.

(** ** router.py: the discovery channel's receive loop *)

Definition handler := nat.

(** The address a datagram came from; [other[0]] is [host]. *)
Record endpoint := mkEndpoint { host : pystr; port : Z }.

Record caster := mkCaster {
  _uuid : pystr;
  _callbacks : gmap pystr handler
}.

(** What [await self._recv()] produces: a datagram, or an error of the
    socket. *)
Inductive recv_event :=
| Datagram (payload : list byte) (other : endpoint)
| RecvError (e : exn).

(** [Multicaster._recv] *)
Definition _recv (ev : recv_event) : result (Message * endpoint) :=
  match ev with
  | Datagram payload other => msg <- from_bytes payload ;;; Ok (msg, other)
  | RecvError e => Raise e
  end.

(** [key in self._callbacks] and [self._callbacks[key]] for a JSON key. *)
Definition callbacks_get (c : caster) (key : json) : result (option handler) :=
  k <- to_key key ;;;
  match k with
  | HStr s => Ok (_callbacks c !! s)
  | _ => Ok None
  end.

(** [msg.source == self._uuid] *)
Definition is_own (c : caster) (msg : Message) : bool := str_is (source msg) (_uuid c).

(** A task created by the loop: [self._callbacks[msg.type](other, msg)]. *)
Record callback_task := mkTask {
  task_handler : handler; task_other : endpoint; task_msg : Message
}.

(** The body of the [try] in [Caster._recv_daemon]: [None] is [continue]. *)
Definition recv_daemon_body (c : caster) (ev : recv_event) : result (option callback_task) :=
  r <- _recv ev ;;;
  let msg := fst r in
  let other := snd r in
  h <- callbacks_get c (type msg) ;;;
  match h with
  | None => Ok None
  | Some h =>
      if is_own c msg then Ok None
      else Ok (Some (mkTask h other msg))
  end.

(** A bare [except:] catches every exception. *)
Definition bare_except (e : exn) : bool := true.

Record daemon := mkDaemon {
  created : list callback_task;      (* tasks created, oldest first *)
  tracebacks : list exn;             (* traceback.print_exc() *)
  exited : option exn                (* the exception that ended the loop *)
}.

(** [Caster._recv_daemon] run over the events its [await] receives. *)
Fixpoint _recv_daemon (c : caster) (evs : list recv_event) (d : daemon) : daemon :=
  match evs with
  | [] => d
  | ev :: evs' =>
      match recv_daemon_body c ev with
      | Ok None => _recv_daemon c evs' d
      | Ok (Some t) =>
          _recv_daemon c evs' (mkDaemon (created d ++ [t]) (tracebacks d) (exited d))
      | Raise e =>
          if bare_except e
          then _recv_daemon c evs' (mkDaemon (created d) (tracebacks d ++ [e]) (exited d))
          else mkDaemon (created d) (tracebacks d) (Some e)
      end
  end.

(** [Caster.on_cast] *)
Definition on_cast (ty : pystr) (h : handler) (c : caster) : caster :=
  mkCaster (_uuid c) (<[ty := h]> (_callbacks c)).

(** ** router.py: [Router] *)

(** A general message callback: its identity and what awaiting it gives. *)
Record callback := mkCallback { cb_id : handler; cb_run : Message -> result unit }.

(** What the router does to the outside, in order. *)
Inductive effect :=
| CreateTask (h : handler) (topic data : json)   (* create_task(coro(topic, data)) *)
| Await (cb : handler) (msg : Message)           (* await callback(msg) *)
| SendTo (payload : list byte)                   (* sendto(payload, group) *)
| OpenConnection (host : pystr) (port : json).   (* Connection.from_addr(host, port) *)

(** A peer record: a dict with the keys 'listen' and 'expire', both absent
    when it has just been made. *)
Record peer := mkPeer { listen : option (pystr * json); expire : option nat }.

Inductive task_state := Sleeping | Cancelled | Finished.

(** An expire task: [_heartbeat_expire(name)] asleep until [t_deadline]. *)
Record timer := mkTimer { t_name : hkey; t_deadline : Z; t_state : task_state }.

(** An [asyncio.Future]: whether it is done, and how many times
    [set_result] was called on it. *)
Record future := mkFuture { f_done : bool; f_sets : nat }.

Record router := mkRouter {
  name : pystr;
  uuid : pystr;                              (* the caster's identity *)
  now : Z;                                   (* the loop's clock, in milliseconds *)
  _peers : gmap hkey peer;
  tasks : list timer;                        (* expire tasks, by creation *)
  _subscriptions : list (pystr * handler);
  message_callbacks : list callback;
  _connections : gmap hkey (pystr * json);
  _pending_connections : gmap hkey nat;
  futures : list future;                     (* futures, by creation *)
  effects : list effect
}.

Definition set_now (t : Z) (s : router) : router :=
  mkRouter (name s) (uuid s) t (_peers s) (tasks s) (_subscriptions s)
    (message_callbacks s) (_connections s) (_pending_connections s) (futures s) (effects s).

Definition set_peers (p : gmap hkey peer) (s : router) : router :=
  mkRouter (name s) (uuid s) (now s) p (tasks s) (_subscriptions s)
    (message_callbacks s) (_connections s) (_pending_connections s) (futures s) (effects s).

Definition set_tasks (t : list timer) (s : router) : router :=
  mkRouter (name s) (uuid s) (now s) (_peers s) t (_subscriptions s)
    (message_callbacks s) (_connections s) (_pending_connections s) (futures s) (effects s).

Definition set_subscriptions (l : list (pystr * handler)) (s : router) : router :=
  mkRouter (name s) (uuid s) (now s) (_peers s) (tasks s) l
    (message_callbacks s) (_connections s) (_pending_connections s) (futures s) (effects s).

Definition set_message_callbacks (l : list callback) (s : router) : router :=
  mkRouter (name s) (uuid s) (now s) (_peers s) (tasks s) (_subscriptions s)
    l (_connections s) (_pending_connections s) (futures s) (effects s).

Definition set_connections (c : gmap hkey (pystr * json)) (s : router) : router :=
  mkRouter (name s) (uuid s) (now s) (_peers s) (tasks s) (_subscriptions s)
    (message_callbacks s) c (_pending_connections s) (futures s) (effects s).

Definition set_pending (p : gmap hkey nat) (s : router) : router :=
  mkRouter (name s) (uuid s) (now s) (_peers s) (tasks s) (_subscriptions s)
    (message_callbacks s) (_connections s) p (futures s) (effects s).

Definition set_futures (f : list future) (s : router) : router :=
  mkRouter (name s) (uuid s) (now s) (_peers s) (tasks s) (_subscriptions s)
    (message_callbacks s) (_connections s) (_pending_connections s) f (effects s).

Definition log (e : effect) (s : router) : router :=
  mkRouter (name s) (uuid s) (now s) (_peers s) (tasks s) (_subscriptions s)
    (message_callbacks s) (_connections s) (_pending_connections s) (futures s)
    (effects s ++ [e]).

(** [Router.__init__] *)
Definition Router (name uuid : pystr) : router :=
  mkRouter name uuid 0 ∅ [] [] [] ∅ ∅ [] [].

(** Milliseconds: [HEARTBEAT_RATE = 0.1] and [HEARTBEAT_EXPIRE = 1] seconds. *)
Definition HEARTBEAT_RATE : Z := 100.
Definition HEARTBEAT_EXPIRE : Z := 1000.

(** *** The scheduler behind [Looper] *)

(** Modelled from the spec: [Looper.create_task] and [Looper.sleep] are not
    in the sources.  Creating an expire task starts a coroutine that sleeps
    until the clock reaches its deadline; the task's identity is its
    position among the tasks created. *)
Definition create_expire_task (source_k : hkey) (s : router) : nat * router :=
  (length (tasks s),
   set_tasks (tasks s ++ [mkTimer source_k (now s + HEARTBEAT_EXPIRE) Sleeping]) s).

(** Modelled from the spec: [Task.cancel()] on a task that is still asleep
    prevents the rest of its coroutine from running; on a task that has
    finished it does nothing. *)
Definition cancel (tid : nat) (s : router) : router :=
  match tasks s !! tid with
  | Some tm =>
      match t_state tm with
      | Sleeping => set_tasks (<[tid := mkTimer (t_name tm) (t_deadline tm) Cancelled]> (tasks s)) s
      | _ => s
      end
  | None => s
  end.

(** [Future.set_result] *)
Definition set_result (fid : nat) (s : router) : router :=
  match futures s !! fid with
  | Some f => set_futures (<[fid := mkFuture true (S (f_sets f))]> (futures s)) s
  | None => s
  end.

(** *** Subscriptions and dispatch *)

(** [Router.subscribe] *)
Definition subscribe (topic : pystr) (h : handler) (s : router) : router :=
  set_subscriptions (_subscriptions s ++ [(topic, h)]) s.

(** [Router.on_message] *)
Definition on_message (cb : callback) (s : router) : router :=
  set_message_callbacks (message_callbacks s ++ [cb]) s.

(** [for key, coro in self._subscriptions: if fnmatch(topic, key): ...] *)
Fixpoint dispatch_subscriptions (topic data : json) (subs : list (pystr * handler))
    (s : router) : result unit * router :=
  match subs with
  | [] => (Ok tt, s)
  | (key, coro) :: subs' =>
      match fnmatch topic key with
      | Raise e => (Raise e, s)
      | Ok true => dispatch_subscriptions topic data subs' (log (CreateTask coro topic data) s)
      | Ok false => dispatch_subscriptions topic data subs' s
      end
  end.

(** [for callback in self.message_callbacks: await callback(msg)] *)
Fixpoint run_callbacks (msg : Message) (cbs : list callback) (s : router)
    : result unit * router :=
  match cbs with
  | [] => (Ok tt, s)
  | cb :: cbs' =>
      let s1 := log (Await (cb_id cb) msg) s in
      match cb_run cb msg with
      | Raise e => (Raise e, s1)
      | Ok _ => run_callbacks msg cbs' s1
      end
  end.

(** [Router._publish_callback] *)
Definition _publish_callback (other : endpoint) (msg : Message) (s : router)
    : result unit * router :=
  match getitem (data msg) (py "topic") with
  | Raise e => (Raise e, s)
  | Ok topic =>
      match getitem (data msg) (py "data") with
      | Raise e => (Raise e, s)
      | Ok d =>
          match dispatch_subscriptions topic d (_subscriptions s) s with
          | (Raise e, s1) => (Raise e, s1)
          | (Ok _, s1) => run_callbacks msg (message_callbacks s1) s1
          end
      end
  end.

(** [Router._send_callback] *)
Definition _send_callback (other : endpoint) (msg : Message) (s : router)
    : result unit * router :=
  match getitem (data msg) (py "topic") with
  | Raise e => (Raise e, s)
  | Ok topic =>
      match getitem (data msg) (py "data") with
      | Raise e => (Raise e, s)
      | Ok d =>
          match dispatch_subscriptions topic d (_subscriptions s) s with
          | (Raise e, s1) => (Raise e, s1)
          | (Ok _, s1) => run_callbacks msg (message_callbacks s1) s1
          end
      end
  end.

(** *** Heartbeats *)

(** [Router._heartbeat_callback] *)
Definition _heartbeat_callback (other : endpoint) (msg : Message) (s : router)
    : result unit * router :=
  match getitem (data msg) (py "source") with
  | Raise e => (Raise e, s)
  | Ok source_v =>
  match getitem (data msg) (py "listen") with
  | Raise e => (Raise e, s)
  | Ok listen_v =>
  match to_key source_v with
  | Raise e => (Raise e, s)
  | Ok source_k =>
      (* try: peer = self._peers[source]; peer['expire'].cancel()
         except KeyError: self._peers[source] = peer = {} *)
      let s1 :=
        match _peers s !! source_k with
        | Some p =>
            match expire p with
            | Some tid => cancel tid s
            | None => set_peers (<[source_k := mkPeer None None]> (_peers s)) s
            end
        | None => set_peers (<[source_k := mkPeer None None]> (_peers s)) s
        end in
      (* if source in self._pending_connections:
             if not self._pending_connections[source].done(): ...set_result(peer) *)
      let s2 :=
        match _pending_connections s1 !! source_k with
        | Some fid =>
            match futures s1 !! fid with
            | Some f => if f_done f then s1 else set_result fid s1
            | None => s1
            end
        | None => s1
        end in
      (* peer['listen'] = other[0], listen
         peer['expire'] = self.create_task(self._heartbeat_expire(source)) *)
      let '(tid, s3) := create_expire_task source_k s2 in
      (Ok tt,
       set_peers (<[source_k := mkPeer (Some (host other, listen_v)) (Some tid)]> (_peers s3)) s3)
  end end end.

(** [Router._heartbeat_expire] after its sleep:
    [if name in self._peers: del self._peers[name]]. *)
Definition _heartbeat_expire (name : hkey) (peers : gmap hkey peer) : gmap hkey peer :=
  if bool_decide (is_Some (peers !! name)) then delete name peers else peers.

Definition due (t : Z) (tm : timer) : bool :=
  match t_state tm with
  | Sleeping => t_deadline tm <=? t
  | _ => false
  end.

(** Modelled from the spec: the clock advances by [dt] and every expire
    task whose deadline has been reached wakes up and runs to its end (a
    fake clock; the tasks run in the order of their creation, and the
    deletions they make commute). *)
Definition advance (dt : N) (s : router) : router :=
  let t := now s + Z.of_N dt in
  set_now t
    (set_peers
       (foldl (fun ps tm => if due t tm then _heartbeat_expire (t_name tm) ps else ps)
              (_peers s) (tasks s))
       (set_tasks
          (map (fun tm => if due t tm
                          then mkTimer (t_name tm) (t_deadline tm) Finished else tm)
               (tasks s))
          s)).

(** *** Connections *)

(** Where a call of [connect] is suspended. *)
Inductive suspended :=
| AwaitFuture (fid : nat)                          (* await self._pending_connections[name] *)
| AwaitConnection (host : pystr) (port : json).    (* await Connection.from_addr(...) *)

(** [Connection.from_addr] on the unpacked [self._peers[name]['listen']],
    up to its await. *)
Definition connect_open (name : hkey) (s : router) : result suspended * router :=
  match _peers s !! name with
  | None => (Raise KeyError, s)
  | Some p =>
      match listen p with
      | None => (Raise KeyError, s)
      | Some (h, pt) => (Ok (AwaitConnection h pt), log (OpenConnection h pt) s)
      end
  end.

(** [Router.connect], up to its first await. *)
Definition connect (name : hkey) (s : router) : result suspended * router :=
  match _peers s !! name with
  | None =>
      let fid := length (futures s) in
      (Ok (AwaitFuture fid),
       set_pending (<[name := fid]> (_pending_connections s))
         (set_futures (futures s ++ [mkFuture false 0]) s))
  | Some _ => connect_open name s
  end.

(** [Router.connect] resumed after its future:
    [del self._pending_connections[name]], then the connection. *)
Definition connect_resume (name : hkey) (s : router) : result suspended * router :=
  match _pending_connections s !! name with
  | None => (Raise KeyError, s)
  | Some _ => connect_open name (set_pending (delete name (_pending_connections s)) s)
  end.

(** [Router.connect] resumed after [Connection.from_addr]: the connection
    is stored (or its error raised). *)
Definition connect_finish (name : hkey) (endpoint : pystr * json) (outcome : result unit)
    (s : router) : result unit * router :=
  match outcome with
  | Raise e => (Raise e, s)
  | Ok _ =>
      let s1 := set_connections (<[name := endpoint]> (_connections s)) s in
      match _peers s1 !! name with
      | None => (Raise KeyError, s1)
      | Some p =>
          match listen p with
          | None => (Raise KeyError, s1)
          | Some _ => (Ok tt, s1)
          end
      end
  end.

(** *** Publishing and routing *)

Section Format.

(** [str()] of a float, a list or a dict, which is not modelled. *)
Variable format_other : json -> pystr.

(** ['{}'.format(v)] *)
Definition format_value (v : json) : pystr :=
  match v with
  | JString s => s
  | JInt n => str_of_int n
  | JBool true => py "True"
  | JBool false => py "False"
  | JNull => py "None"
  | _ => format_other v
  end.

(** [Multicaster.cast] *)
Definition cast (ty : pystr) (d : json) (s : router) : result unit * router :=
  match encode (mkMessage (JString (uuid s)) (JString ty) d) with
  | Ok payload => (Ok tt, log (SendTo payload) s)
  | Raise e => (Raise e, s)
  end.

(** [Router.publish] *)
Definition publish (topic d : json) (s : router) : result unit * router :=
  cast (py "publish")
    (JObject [(py "topic", JString (name s ++ [47] ++ format_value topic));
              (py "data", d)]) s.

(** [Router.route_message] *)
Definition route_message (msg : Message) (s : router) : result unit * router :=
  if str_is (type msg) (py "publish") then
    match getitem (data msg) (py "topic") with
    | Raise e => (Raise e, s)
    | Ok topic =>
        match getitem (data msg) (py "data") with
        | Raise e => (Raise e, s)
        | Ok d => publish topic d s
        end
    end
  else if str_is (type msg) (py "send") then (Ok tt, s)
  else if str_is (type msg) (py "request") then (Ok tt, s)
  else if str_is (type msg) (py "heartbeat") then (Ok tt, s)
  else (Ok tt, s).

End Format.

(** *** Runs of the router *)

Inductive event :=
| EvHeartbeat (other : endpoint) (msg : Message)   (* a heartbeat callback task runs *)
| EvAdvance (dt : N)                               (* the clock advances *)
| EvConnect (name : hkey)                          (* connect(name) is called *)
| EvResume (name : hkey) (fid : nat).              (* the connect awaiting [fid] resumes *)

Definition step (s : router) (ev : event) : router :=
  match ev with
  | EvHeartbeat other msg => snd (_heartbeat_callback other msg s)
  | EvAdvance dt => advance dt s
  | EvConnect name => snd (connect name s)
  | EvResume name fid =>
      match futures s !! fid with
      | Some f => if f_done f then snd (connect_resume name s) else s
      | None => s
      end
  end.

Definition run (evs : list event) (s : router) : router := foldl step s evs.

(** ** Predicates on runs *)

Definition log_list (es : list effect) (s : router) : router :=
  mkRouter (name s) (uuid s) (now s) (_peers s) (tasks s) (_subscriptions s)
    (message_callbacks s) (_connections s) (_pending_connections s) (futures s)
    (effects s ++ es).

(** One task per subscription whose pattern matches, in registration order. *)
Definition spawns (t : pystr) (d : json) (subs : list (pystr * handler)) : list effect :=
  flat_map (fun kh => if fnmatchcase t (fst kh) then [CreateTask (snd kh) (JString t) d] else [])
           subs.

Definition awaits (msg : Message) (cbs : list callback) : list effect :=
  map (fun cb => Await (cb_id cb) msg) cbs.

(** What the loop does with one event. *)
Definition created_by (c : caster) (ev : recv_event) : option callback_task :=
  match recv_daemon_body c ev with
  | Ok o => o
  | Raise _ => None
  end.

Definition traceback_of (c : caster) (ev : recv_event) : option exn :=
  match recv_daemon_body c ev with
  | Ok _ => None
  | Raise e => Some e
  end.

(** The key and the port a heartbeat carries:
    [msg.data['source']] (hashed) and [msg.data['listen']]. *)
Definition heartbeat_fields (msg : Message) : result (hkey * json) :=
  source_v <- getitem (data msg) (py "source") ;;;
  listen_v <- getitem (data msg) (py "listen") ;;;
  source_k <- to_key source_v ;;;
  Ok (source_k, listen_v).

(** The clock of a run and the time of the last heartbeat from [name]. *)
Definition heard_step (name : hkey) (st : Z * option Z) (ev : event) : Z * option Z :=
  match ev with
  | EvHeartbeat _ msg =>
      match heartbeat_fields msg with
      | Ok (k, _) => if bool_decide (k = name) then (fst st, Some (fst st)) else st
      | Raise _ => st
      end
  | EvAdvance dt => (fst st + Z.of_N dt, snd st)
  | _ => st
  end.

Definition clock (evs : list event) : Z :=
  foldl (fun t ev => match ev with EvAdvance dt => t + Z.of_N dt | _ => t end) 0 evs.

Definition last_heard (name : hkey) (evs : list event) : option Z :=
  snd (foldl (heard_step name) (0, None) evs).

(** The tasks once the expire task of [k]'s record, if any, is cancelled. *)
Definition tasks_after_cancel (k : hkey) (s : router) : list timer :=
  match _peers s !! k with
  | Some p =>
      match expire p with
      | Some tid => tasks (cancel tid s)
      | None => tasks s
      end
  | None => tasks s
  end.

(** The futures once the pending future of [k], if any and not done, is
    resolved. *)
Definition futures_after_resolve (k : hkey) (s : router) : list future :=
  match _pending_connections s !! k with
  | Some fid =>
      match futures s !! fid with
      | Some f => if f_done f then futures s
                  else <[fid := mkFuture true (S (f_sets f))]> (futures s)
      | None => futures s
      end
  | None => futures s
  end.

(** The invariant of the peer table, for the state [s] reached by [evs]:
    the clock is the run's; every record has its address and one sleeping
    expire task, armed by the last heartbeat from its name and not yet due;
    every sleeping expire task is the one of its name's record; a name
    without a record was last heard, if ever, at least one expiry window
    ago. *)
Definition peer_inv (evs : list event) (s : router) : Prop :=
  now s = clock evs /\
  (forall k p, _peers s !! k = Some p ->
     exists tid d lst,
       p = mkPeer (Some lst) (Some tid) /\
       tasks s !! tid = Some (mkTimer k d Sleeping) /\
       last_heard k evs = Some (d - HEARTBEAT_EXPIRE) /\ now s < d) /\
  (forall tid tm, tasks s !! tid = Some tm -> t_state tm = Sleeping ->
     exists p, _peers s !! t_name tm = Some p /\ expire p = Some tid) /\
  (forall k t, _peers s !! k = None -> last_heard k evs = Some t ->
     t + HEARTBEAT_EXPIRE <= now s).

(** Events about one name. *)
Definition is_heartbeat_from (name : hkey) (ev : event) : Prop :=
  match ev with
  | EvHeartbeat _ msg => exists l, heartbeat_fields msg = Ok (name, l)
  | _ => False
  end.

Definition is_connect_of (name : hkey) (ev : event) : Prop :=
  match ev with
  | EvConnect k | EvResume k _ => k = name
  | _ => False
  end.

(** Neither a heartbeat from [name] nor a call or a resumption of
    [connect(name)]. *)
Definition quiet (name : hkey) (ev : event) : Prop :=
  ~ is_heartbeat_from name ev /\ ~ is_connect_of name ev.

(** The caller of [connect(name)] that awaits the future [fid], whose
    state is [fs]: the future is the one registered for [name], and for no
    other name; every registered future exists. *)
Definition waiting (s : router) (name : hkey) (fid : nat) (fs : future) : Prop :=
  _pending_connections s !! name = Some fid /\
  futures s !! fid = Some fs /\
  (forall k, k <> name -> _pending_connections s !! k <> Some fid) /\
  (forall k f, _pending_connections s !! k = Some f -> (f < length (futures s))%nat).

(** ** router.py: what [Router.__init__] wires together *)

(** The bound methods [Router.__init__] registers, by identity. *)
Definition HEARTBEAT_CALLBACK : handler := 0%nat.
Definition PUBLISH_CALLBACK : handler := 1%nat.
Definition SEND_CALLBACK : handler := 2%nat.

Definition callback_of (h : handler)
    : option (endpoint -> Message -> router -> result unit * router) :=
  match h with
  | 0%nat => Some _heartbeat_callback
  | 1%nat => Some _publish_callback
  | 2%nat => Some _send_callback
  | _ => None
  end.

(** [self._caster] once [__init__] has run: [on_cast('heartbeat', ...)],
    then [on_cast('publish', ...)]. *)
Definition _caster (s : router) : caster :=
  on_cast (py "publish") PUBLISH_CALLBACK
    (on_cast (py "heartbeat") HEARTBEAT_CALLBACK (mkCaster (uuid s) ∅)).

(** The callbacks of [self._listener]: [on_message('send', ...)]. *)
Definition _listener : gmap pystr handler := {[ py "send" := SEND_CALLBACK ]}.

Definition BUFFER_SIZE : nat := 1024.

(** [recvfrom(BUFFER_SIZE)] of a datagram: what is beyond the buffer is
    discarded. *)
Definition recvfrom (n : nat) (payload : list byte) (other : endpoint) : recv_event :=
  Datagram (take n payload) other.

(** One turn of [Router._heartbeat_daemon]; [listen_port] is
    [self._listener.address[1]]. *)
Definition _heartbeat_daemon (listen_port : Z) (s : router) : result unit * router :=
  cast (py "heartbeat")
    (JObject [(py "source", JString (name s)); (py "listen", JInt listen_port)]) s.

(** ** router.py: [Connection] and [Listener] *)

(** What [await self._socket.recv(BUFFER_SIZE)] gives: some bytes, none at
    the end of the stream; or an error of the socket. *)
Inductive read_event :=
| Chunk (bs : list byte)
| ReadError (e : exn).

(** [Connection.read] *)
Definition read (ev : read_event) : result Message :=
  match ev with
  | Chunk bs => from_bytes bs
  | ReadError e => Raise e
  end.

(** A task created for a connection: [self._callbacks[msg.type](msg.source, msg)]. *)
Record listener_task := mkListenerTask {
  ltask_handler : handler; ltask_source : json; ltask_msg : Message
}.

(** [msg.type in self._callbacks] and [self._callbacks[msg.type]]. *)
Definition listener_get (cbs : gmap pystr handler) (key : json) : result (option handler) :=
  k <- to_key key ;;;
  match k with
  | HStr s => Ok (cbs !! s)
  | _ => Ok None
  end.

(** The body of the [try] in [Listener._handle_connection]. *)
Definition handle_connection_body (cbs : gmap pystr handler) (ev : read_event)
    : result (option listener_task) :=
  msg <- read ev ;;;
  h <- listener_get cbs (type msg) ;;;
  match h with
  | None => Ok None
  | Some h => Ok (Some (mkListenerTask h (source msg) msg))
  end.

Record handled := mkHandled {
  spawned : list listener_task;      (* tasks created, oldest first *)
  printed : option exn;              (* print(e) *)
  closed : bool                      (* conn.close() *)
}.

(** [Listener._handle_connection] over what its reads give: the first
    exception ends the loop and the connection is closed; with nothing
    left to read the coroutine waits in [read]. *)
Fixpoint _handle_connection (cbs : gmap pystr handler) (evs : list read_event)
    (tasks : list listener_task) : handled :=
  match evs with
  | [] => mkHandled tasks None false
  | ev :: evs' =>
      match handle_connection_body cbs ev with
      | Ok None => _handle_connection cbs evs' tasks
      | Ok (Some t) => _handle_connection cbs evs' (tasks ++ [t])
      | Raise e => mkHandled tasks (Some e) true
      end
  end.

(** *** [Router.send] *)

Section Send.

Variable format_other : json -> pystr.

(** Where a call of [send] stands at its first await: in [connect], or in
    the write of [payload] to the connection [conn]. *)
Inductive sending :=
| SendConnect (w : suspended)
| SendWrite (conn : pystr * json) (payload : list byte).

(** [Router.send] from the making of the message on:
    [await self._connections[dest].write(msg)]. *)
Definition send_write (dest : hkey) (topic d : json) (s : router) : result sending :=
  let msg := mkMessage (JString (name s)) (JString (py "send"))
               (JObject [(py "topic", JString (name s ++ [47] ++ format_value format_other topic));
                         (py "data", d)]) in
  match _connections s !! dest with
  | None => Raise KeyError
  | Some conn => payload <- encode msg ;;; Ok (SendWrite conn payload)
  end.

(** [Router.send], up to its first await. *)
Definition send (dest : hkey) (topic d : json) (s : router) : result sending * router :=
  match _connections s !! dest with
  | None =>
      match connect dest s with
      | (Ok w, s') => (Ok (SendConnect w), s')
      | (Raise e, s') => (Raise e, s')
      end
  | Some _ => (send_write dest topic d s, s)
  end.

End Send.

(** The task one read makes the connection's loop create, if any. *)
Definition spawned_by (cbs : gmap pystr handler) (ev : read_event) : option listener_task :=
  match handle_connection_body cbs ev with
  | Ok o => o
  | Raise _ => None
  end.

(** A read the loop of a connection gets through. *)
Definition handled_read (cbs : gmap pystr handler) (ev : read_event) : Prop :=
  exists o, handle_connection_body cbs ev = Ok o.

(** [recv(BUFFER_SIZE)] when [available] is what the stream holds. *)
Definition recv (n : nat) (available : list byte) : read_event := Chunk (take n available).

(** ** net.py: [AsyncSocket._wrap_io] *)

Section WrapIO.

(** What the wrapped socket method returns. *)
Variable V : Type.

(** One call of the socket method on a non-blocking socket. *)
Inductive os_outcome :=
| WouldBlock            (* BlockingIOError *)
| Interrupted           (* InterruptedError *)
| Fails (e : exn)       (* any other Exception *)
| Returns (v : V).

Inductive future_state :=
| Pending
| FutCancelled
| FutResult (v : V)
| FutException (e : exn).

(** The closure [_wrap_io] makes: whether the loop watches [fd] for the
    wrapper, the one future made when the method was wrapped, and how many
    times the socket method has been called. *)
Record wrapped := mkWrapped { watched : bool; fut : future_state; ncalls : nat }.

(** What a call of the wrapper gives back: [None], the future, or
    [InvalidStateError] from setting a future that is already done. *)
Inductive wrapper_return := ReturnsNone | ReturnsFuture | InvalidStateError.

(** The outcome of the n-th call of the socket method. *)
Variable func : nat -> os_outcome.

(** [_wrap_io]: the future is made here, once. *)
Definition _wrap_io : wrapped := mkWrapped false Pending 0.

(** The [wrapper] closure, called on the arguments of the socket method. *)
Definition wrapper (w : wrapped) : wrapper_return * wrapped :=
  (* remover(fd) *)
  match fut w with
  | FutCancelled => (ReturnsNone, mkWrapped false (fut w) (ncalls w))
  | _ =>
      match func (ncalls w) with
      | WouldBlock | Interrupted =>
          (* adder(fd, partial(wrapper, ...)): the wrapper itself, on the same arguments *)
          (ReturnsFuture, mkWrapped true (fut w) (S (ncalls w)))
      | Fails e =>
          match fut w with
          | Pending => (ReturnsFuture, mkWrapped false (FutException e) (S (ncalls w)))
          | _ => (InvalidStateError, mkWrapped false (fut w) (S (ncalls w)))
          end
      | Returns v =>
          match fut w with
          | Pending => (ReturnsFuture, mkWrapped false (FutResult v) (S (ncalls w)))
          | _ => (InvalidStateError, mkWrapped false (fut w) (S (ncalls w)))
          end
      end
  end.

(** The loop finds [fd] ready: it calls the callback registered for it, if
    there is one. *)
Definition ready (w : wrapped) : wrapped :=
  if watched w then snd (wrapper w) else w.

(** [future.cancel()] by whoever awaits the future. *)
Definition cancel_future (w : wrapped) : wrapped :=
  match fut w with
  | Pending => mkWrapped (watched w) FutCancelled (ncalls w)
  | _ => w
  end.

(** The future once the call has gone through with [o]. *)
Definition settled (o : os_outcome) : future_state :=
  match o with
  | Returns v => FutResult v
  | Fails e => FutException e
  | _ => Pending
  end.

Definition blocks (o : os_outcome) : bool :=
  match o with
  | WouldBlock | Interrupted => true
  | _ => false
  end.

End WrapIO.

Arguments WouldBlock {V}.
Arguments Interrupted {V}.
Arguments Fails {V} e.
Arguments Returns {V} v.
Arguments Pending {V}.
Arguments FutCancelled {V}.
Arguments FutResult {V} v.
Arguments FutException {V} e.
Arguments mkWrapped {V} watched fut ncalls.
Arguments watched {V} w.
Arguments fut {V} w.
Arguments ncalls {V} w.
Arguments _wrap_io {V}.
Arguments wrapper {V} func w.
Arguments ready {V} func w.
Arguments cancel_future {V} w.
Arguments settled {V} o.
Arguments blocks {V} o.

(** ** serialdevice.py: [SerialConnection] and [SerialDevice] *)

(** What is put on the send queue: [bytes], or a value that JSON can
    carry, a [str] among them. *)
Inductive packet :=
| PBytes (bs : list byte)
| PValue (v : json).

Inductive serial_exn :=
| Exn (e : exn)
| AttributeError
| RuntimeError (msg : string).

Section Serial.

(** Outside the sources: the stream writer given something that is not
    [bytes], and [pyvesc.encode]. *)
Variable write_other : json -> serial_exn + list byte.
Variable pyvesc_encode : packet -> serial_exn + list byte.

(** One turn of [SerialConnection._send_task]: the bytes that reach
    [self._writer.write]. *)
Definition _send_task (encoding : pystr) (p : packet) : serial_exn + list byte :=
  if pystr_eqb encoding (py "raw") then
    match p with
    | PBytes bs => inr bs
    | PValue v => write_other v
    end
  else if pystr_eqb encoding (py "utf8") then
    match p with
    | PValue (JString s) =>
        match str_encode s with
        | Ok bs => inr bs
        | Raise e => inl (Exn e)
        end
    | _ => inl AttributeError
    end
  else if pystr_eqb encoding (py "json") then
    match p with
    | PValue v =>
        match str_encode (dumps v) with
        | Ok bs => inr bs
        | Raise e => inl (Exn e)
        end
    | PBytes _ => inl (Exn TypeError)
    end
  else if pystr_eqb encoding (py "vesc") then pyvesc_encode p
  else inl (RuntimeError "Packet format type not supported").

End Serial.

(** [SerialDevice.forward_packet]: what goes on the send queue. *)
Definition forward_packet (m : Message) : packet := PValue (JString (to_json m)).

(** [to_int] of the VESC branch of [_receive_task]. *)
Definition to_int (b : list byte) : Z := int_from_bytes_big b 0.

(** The test that skips a header:
    [not to_int(header) == 2 or to_int(header) == 3], in which [not] binds
    tighter than [or]. *)
Definition header_skipped (header : list byte) : bool :=
  negb (to_int header =? 2) || (to_int header =? 3).

(** ** Further predicates used in the statements *)

(** The zero-run scan of [_compress_hextets] has picked no run that starts
    at the first hextet. *)
Definition run_after_head (st : zero_run) : Prop :=
  (best_start st = -1 /\ best_len st = 0 \/ 1 <= best_start st) /\
  (run_start st = -1 \/ 1 <= run_start st).

(** ** serialdevice.py: the framing of JSON packets in [_receive_task] *)

(** The counters [(curleystack, squarestack)] after the decoded read [b]. *)
Definition count_bracket (st : Z * Z) (b : pystr) : Z * Z :=
  if pystr_eqb b [123] then (fst st + 1, snd st)
  else if pystr_eqb b [125] then (fst st - 1, snd st)
  else if pystr_eqb b [91] then (fst st, snd st + 1)
  else if pystr_eqb b [93] then (fst st, snd st - 1)
  else st.

(** The inner loop [while not done_reading]: one byte is read and decoded
    at a time and added to [pkt], and the loop ends when both counters are
    zero.  [None]: the input is used up and the loop waits in [read]. *)
Fixpoint read_packet (input : list byte) (pkt : pystr) (st : Z * Z)
    : option (result (pystr * list byte)) :=
  match input with
  | [] => None
  | b :: input' =>
      match bytes_decode [b] with
      | Raise e => Some (Raise e)
      | Ok b' =>
          let st' := count_bracket st b' in
          let pkt' := pkt ++ b' in
          if (fst st' =? 0) && (snd st' =? 0) then Some (Ok (pkt', input'))
          else read_packet input' pkt' st'
      end
  end.

(** No curly or square bracket. *)
Definition bracket_free (s : pystr) : Prop :=
  Forall (fun c => c <> 123 /\ c <> 125 /\ c <> 91 /\ c <> 93) s.

(** A value none of whose strings and keys holds a bracket. *)
Fixpoint plain (v : json) : Prop :=
  match v with
  | JString s => bracket_free s
  | JArray items => fold_right (fun x P => plain x /\ P) True items
  | JObject pairs =>
      fold_right (fun kv P => (bracket_free (fst kv) /\ plain (snd kv)) /\ P) True pairs
  | _ => True
  end.

(** The counters over a text, a character at a time. *)
Definition walk (st : Z * Z) (t : pystr) : Z * Z :=
  foldl (fun st c => count_bracket st [c]) st t.

(** Over [t] the counters come back to where they started, and over no
    part of it read so far are they below. *)
Definition never_below (t : pystr) : Prop :=
  forall st,
    walk st t = st /\
    forall p q, t = p ++ q -> fst st <= fst (walk st p) /\ snd st <= snd (walk st p).

(** A pattern text without [*], [?] and an opening square bracket. *)
Definition literal (p : pystr) : Prop :=
  Forall (fun c => c <> 42 /\ c <> 63 /\ c <> 91) p.

(** The future [fid] is pending, and no entry of [_pending_connections]
    leads to it any more. *)
Definition orphaned (fid : nat) (s : router) : Prop :=
  futures s !! fid = Some (mkFuture false 0) /\
  forall k, _pending_connections s !! k <> Some fid.

(** * Properties *)

Example sha256_constants :
  length SHA256.K = 64%nat /\ SHA256.K !! 0%nat = Some 0x428a2f98 /\
  SHA256.K !! 63%nat = Some 0xc67178f2 /\
  SHA256.H0 = (0x6a09e667, 0xbb67ae85, 0x3c6ef372, 0xa54ff53a,
               0x510e527f, 0x9b05688c, 0x1f83d9ab, 0x5be0cd19).
Proof. repeat split; reflexivity. Qed.

(** FIPS 180-4 test vectors. *)
Example sha256_abc :
  hexdigest (SHA256.sha256 (map byte_of_Z (py "abc"))) =
  py "ba7816bf8f01cfea414140de5dae2223b00361a396177a9cb410ff61f20015ad".
Proof. vm_compute. reflexivity. Qed.

Example sha256_empty :
  hexdigest (SHA256.sha256 []) =
  py "e3b0c44298fc1c149afbf4c8996fb92427ae41e4649b934ca495991b7852b855".
Proof. vm_compute. reflexivity. Qed.

Example sha256_two_blocks :
  hexdigest (SHA256.sha256 (map byte_of_Z
    (py "abcdbcdecdefdefgefghfghighijhijkijkljklmklmnlmnomnopnopq"))) =
  py "248d6a61d20638b8e5c026930c3e6039a33ce45964ff2167f6ecedd419db06c1".
Proof. vm_compute. reflexivity. Qed.

Example ip_str_v4 : ip_str (IPv4Address 0xE00000FB) = py "224.0.0.251".
Proof. vm_compute. reflexivity. Qed.

Example ip_str_v6 :
  ip_str (IPv6Address 0xff130000000000000000000000000001) = py "ff13::1".
Proof. vm_compute. reflexivity. Qed.

Example ip_str_v6_loopback : ip_str (IPv6Address 1) = py "::1".
Proof. vm_compute. reflexivity. Qed.

Example ip_str_v6_any : ip_str (IPv6Address 0) = py "::".
Proof. vm_compute. reflexivity. Qed.

Example ip_str_v6_mixed :
  ip_str (IPv6Address 0x20010db8000000010000000000000000) = py "2001:db8:0:1::".
Proof. vm_compute. reflexivity. Qed.

Example key_to_multicast_rover_v4 :
  exists x p, key_to_multicast (py "rover") (py "ipv4") = Ok (py "224.0.0." ++ x, p).
Proof. vm_compute. eexists _, _. reflexivity. Qed.

(** ** Bytes, bit operations and the digest's shape *)

Lemma byte_val_range b : 0 <= byte_val b <= 255.
Proof.
  unfold byte_val. pose proof (Byte.to_N_bounded b). lia.
Qed.

Lemma byte_val_of_Z z : byte_val (byte_of_Z z) = z mod 256.
Proof.
  unfold byte_val, byte_of_Z.
  assert (Hr : 0 <= z mod 256 < 256) by (apply Z.mod_pos_bound; lia).
  destruct (Byte.of_N (Z.to_N (z mod 256))) as [b|] eqn:E.
  - apply Byte.to_of_N in E. rewrite E. lia.
  - apply Byte.of_N_None_iff in E. lia.
Qed.

Lemma byte_of_Z_val b : byte_of_Z (byte_val b) = b.
Proof.
  unfold byte_of_Z. pose proof (byte_val_range b) as Hr.
  rewrite Z.mod_small by lia. unfold byte_val. rewrite N2Z.id.
  now rewrite Byte.of_to_N.
Qed.

Lemma lor_ephemeral v : 0 <= v < 65536 -> 49152 <= Z.lor v 0xC000 <= 65535.
Proof.
  intros Hv. split.
  - apply (Z.ldiff_le 0xC000 (Z.lor v 0xC000)).
    + apply Z.lor_nonneg. lia.
    + apply Z.bits_inj'. intros n Hn.
      rewrite Z.ldiff_spec, Z.lor_spec, Z.bits_0.
      destruct (Z.testbit 49152 n), (Z.testbit v n); reflexivity.
  - assert (Hlo : 0 < Z.lor v 0xC000).
    { assert (0xC000 <= Z.lor v 0xC000); [|lia].
      apply (Z.ldiff_le 0xC000 (Z.lor v 0xC000)).
      - apply Z.lor_nonneg. lia.
      - apply Z.bits_inj'. intros n Hn.
        rewrite Z.ldiff_spec, Z.lor_spec, Z.bits_0.
        destruct (Z.testbit 49152 n), (Z.testbit v n); reflexivity. }
    assert (Hl : Z.log2 (Z.lor v 0xC000) < 16).
    { rewrite Z.log2_lor by lia.
      assert (Z.log2 v < 16).
      { destruct (Z.eq_dec v 0) as [->|Hne]; [reflexivity|].
        apply Z.log2_lt_pow2; lia. }
      change (Z.log2 49152) with 15. lia. }
    apply Z.log2_lt_pow2 in Hl; lia.
Qed.

Lemma word_bytes_length x : length (SHA256.word_bytes x) = 4%nat.
Proof. reflexivity. Qed.

Lemma sha256_length msg : length (SHA256.sha256 msg) = 32%nat.
Proof.
  unfold SHA256.sha256.
  destruct (foldl SHA256.compress SHA256.H0 _) as [[[[[[[a b] c] d] e] f] g] h].
  unfold SHA256.digest_of. rewrite !length_app, !word_bytes_length. reflexivity.
Qed.

Lemma list_of_length_S {A} (l : list A) n :
  length l = S n -> exists x t, l = x :: t /\ length t = n.
Proof.
  destruct l as [|x t]; simpl; intros H; [discriminate|].
  exists x, t. split; [reflexivity|lia].
Qed.

Lemma sha256_head msg :
  exists b0 b1 b2 b3 rest,
    SHA256.sha256 msg = b0 :: b1 :: b2 :: b3 :: rest /\ length rest = 28%nat.
Proof.
  pose proof (sha256_length msg) as H.
  apply list_of_length_S in H as (b0 & t0 & -> & H).
  apply list_of_length_S in H as (b1 & t1 & -> & H).
  apply list_of_length_S in H as (b2 & t2 & -> & H).
  apply list_of_length_S in H as (b3 & t3 & -> & H).
  exists b0, b1, b2, b3, t3. split; [reflexivity|exact H].
Qed.

Lemma int_from_bytes_big_acc bs acc :
  int_from_bytes_big bs acc
  = acc * 256 ^ Z.of_nat (length bs) + int_from_bytes_big bs 0.
Proof.
  revert acc. induction bs as [|b bs IH]; intros acc; simpl length.
  - simpl. lia.
  - cbn [int_from_bytes_big]. rewrite (IH (acc * 256 + byte_val b)), (IH (0 * 256 + byte_val b)).
    rewrite Nat2Z.inj_succ, Z.pow_succ_r by lia. lia.
Qed.

Lemma int_from_bytes_big_range bs :
  0 <= int_from_bytes_big bs 0 < 256 ^ Z.of_nat (length bs).
Proof.
  induction bs as [|b bs IH] using rev_ind.
  - simpl. lia.
  - assert (E : forall acc, int_from_bytes_big (bs ++ [b]) acc
                            = int_from_bytes_big bs acc * 256 + byte_val b).
    { clear. induction bs as [|c bs IH]; intros acc; [reflexivity|].
      simpl. apply IH. }
    rewrite E, length_app. simpl length.
    replace (Z.of_nat (length bs + 1)) with (Z.succ (Z.of_nat (length bs))) by lia.
    rewrite Z.pow_succ_r by lia. pose proof (byte_val_range b). lia.
Qed.

(** ** UTF-8 *)

Lemma encode_char_text c :
  0 <= c <= 0x10FFFF -> is_surrogate c = false -> exists bs, encode_char c = Ok bs.
Proof.
  intros Hc Hs. unfold encode_char. rewrite Hs.
  repeat (match goal with |- context [if ?b then _ else _] => destruct b end);
    eexists; reflexivity.
Qed.

Lemma utf8_encode_text s : is_text s -> exists bs, utf8_encode s = Ok bs.
Proof.
  induction 1 as [|c s [Hc Hs] _ [bs IH]]; [exists []; reflexivity|].
  destruct (encode_char_text c Hc Hs) as [cb Hcb].
  exists (cb ++ bs). simpl. rewrite Hcb, IH. reflexivity.
Qed.

Lemma str_encode_text s : is_text s -> exists bs, str_encode s = Ok bs.
Proof.
  intros H. destruct (utf8_encode_text s H) as [bs Hbs].
  exists (map byte_of_Z bs). unfold str_encode. rewrite Hbs. reflexivity.
Qed.

(** ** Group addressing *)

Ltac solve_text :=
  unfold is_text; cbv [py];
  repeat (apply List.Forall_cons; [split; [vm_compute; split; discriminate|reflexivity]|]);
  apply List.Forall_nil.

Lemma ipv4_octets x :
  0 <= x <= 255 ->
  map (fun i => Z.shiftr (0xE0000000 + x) (8 * Z.of_nat i) mod 256) (rev (seq 0 4))
  = [224; 0; 0; x].
Proof.
  intros Hx. cbn [seq rev app map].
  rewrite !Z.shiftr_div_pow2 by lia.
  repeat f_equal; Z.to_euclidean_division_equations; lia.
Qed.

Lemma ip_str_local_v4 x :
  0 <= x <= 255 ->
  ip_str (IPv4Address (0xE0000000 + x)) = py "224.0.0." ++ str_of_int x.
Proof.
  intros Hx. unfold ip_str.
  rewrite <- (map_map (fun i => Z.shiftr (0xE0000000 + x) (8 * Z.of_nat i) mod 256) str_of_int).
  rewrite (ipv4_octets x Hx). reflexivity.
Qed.

Lemma is_multicast_local_v4 x :
  0 <= x <= 255 -> is_multicast (IPv4Address (0xE0000000 + x)) = true.
Proof.
  intros Hx. unfold is_multicast. rewrite Z.shiftr_div_pow2 by lia.
  apply Z.eqb_eq. Z.to_euclidean_division_equations; lia.
Qed.

Lemma ipv6_packed_value (tail : list byte) :
  length tail = 12%nat ->
  exists t, 0 <= t < 2 ^ 96 /\
    int_from_bytes_big ([xff; x13; x00; x00] ++ tail) 0 = 0xFF130000 * 2 ^ 96 + t.
Proof.
  intros Hl. exists (int_from_bytes_big tail 0). split.
  - pose proof (int_from_bytes_big_range tail) as H. rewrite Hl in H. exact H.
  - cbn [app int_from_bytes_big]. rewrite int_from_bytes_big_acc, Hl. reflexivity.
Qed.

(** C1: for a group name that is Unicode text and a family among ipv4 and
    ipv6, [key_to_multicast] returns; the result is a function of its
    arguments (two invocations agree); the port is the first two digest
    bytes read little-endian, OR'd with 0xC000, and lies in 49152..65535;
    the address is the text of a multicast address of the family: 224.0.0.x
    with x the fourth digest byte for ipv4, and a 128-bit address whose
    leading 32 bits are ff13:0000 for ipv6. *)
Theorem key_to_multicast_valid (key family : pystr) :
  is_text key ->
  family = py "ipv4" \/ family = py "ipv6" ->
  exists kb b0 b1 b2 b3 rest a port,
    str_encode key = Ok kb /\
    SHA256.sha256 kb = b0 :: b1 :: b2 :: b3 :: rest /\
    key_to_multicast key family = Ok (ip_str a, port) /\
    (forall r1 r2, r1 = key_to_multicast key family ->
                   r2 = key_to_multicast key family -> r1 = r2) /\
    port = Z.lor (byte_val b0 + 256 * byte_val b1) 0xC000 /\
    49152 <= port <= 65535 /\
    is_multicast a = true /\
    (family = py "ipv4" ->
       a = IPv4Address (0xE0000000 + byte_val b3) /\
       ip_str a = py "224.0.0." ++ str_of_int (byte_val b3)) /\
    (family = py "ipv6" ->
       exists ip, a = IPv6Address ip /\ 0 <= ip < 2 ^ 128 /\
                  ip / 2 ^ 96 = 0xFF130000).
Proof.
  intros Htext Hfam.
  destruct (str_encode_text key Htext) as [kb Hkb].
  destruct (sha256_head kb) as (b0 & b1 & b2 & b3 & rest & Hd & Hrest).
  pose proof (byte_val_range b0) as R0. pose proof (byte_val_range b1) as R1.
  pose proof (byte_val_range b3) as R3.
  assert (Hport : int_from_bytes_little (slice 0 2 (SHA256.sha256 kb))
                  = byte_val b0 + 256 * byte_val b1).
  { rewrite Hd. cbn. lia. }
  destruct Hfam as [-> | ->].
  - exists kb, b0, b1, b2, b3, rest,
      (IPv4Address (0xE0000000 + byte_val b3)),
      (Z.lor (byte_val b0 + 256 * byte_val b1) 0xC000).
    split; [exact Hkb|]. split; [exact Hd|]. split.
    { unfold key_to_multicast. rewrite Hkb. cbn [bind]. rewrite Hport, Hd.
      change (pystr_eqb (py "ipv4") (py "ipv4")) with true. cbn [bind].
      change (slice 3 4 (b0 :: b1 :: b2 :: b3 :: rest)) with [b3].
      cbn [app ip_address length Nat.eqb bind int_from_bytes_big].
      change (byte_val xe0) with 224. change (byte_val x00) with 0.
      reflexivity. }
    split; [intros r1 r2 -> ->; reflexivity|].
    split; [reflexivity|]. split; [apply lor_ephemeral; lia|].
    split; [apply is_multicast_local_v4; lia|]. split.
    + intros _. split; [reflexivity|apply ip_str_local_v4; lia].
    + intros H. discriminate H.
  - assert (Hlen : length (slice 3 15 (SHA256.sha256 kb)) = 12%nat).
    { rewrite Hd. unfold slice. cbn [drop]. rewrite length_take. cbn [length].
      rewrite Hrest. reflexivity. }
    destruct (ipv6_packed_value _ Hlen) as (t & Ht & Hip).
    exists kb, b0, b1, b2, b3, rest, (IPv6Address (0xFF130000 * 2 ^ 96 + t)),
      (Z.lor (byte_val b0 + 256 * byte_val b1) 0xC000).
    split; [exact Hkb|]. split; [exact Hd|]. split.
    { unfold key_to_multicast. rewrite Hkb. cbn [bind]. rewrite Hport.
      change (pystr_eqb (py "ipv6") (py "ipv4")) with false.
      change (pystr_eqb (py "ipv6") (py "ipv6")) with true. cbn [bind].
      unfold ip_address. rewrite length_app, Hlen. cbn [length Nat.add Nat.eqb bind].
      rewrite Hip. reflexivity. }
    split; [intros r1 r2 -> ->; reflexivity|].
    split; [reflexivity|]. split; [apply lor_ephemeral; lia|].
    assert (Hdiv : (0xFF130000 * 2 ^ 96 + t) / 2 ^ 96 = 0xFF130000).
    { rewrite Z.div_add_l by lia. rewrite Z.div_small by lia. lia. }
    split.
    { unfold is_multicast. rewrite Z.shiftr_div_pow2 by lia. apply Z.eqb_eq.
      change (2 ^ 120) with (2 ^ 96 * 2 ^ 24).
      rewrite <- Z.div_div by lia. rewrite Hdiv. reflexivity. }
    split.
    + intros H. discriminate H.
    + intros _. exists (0xFF130000 * 2 ^ 96 + t). split; [reflexivity|].
      split; [|exact Hdiv]. change (2 ^ 128) with (2 ^ 32 * 2 ^ 96). lia.
Qed.

Lemma key_to_multicast_valid_witness :
  exists a port,
    key_to_multicast (py "rover") (py "ipv4") = Ok (ip_str a, port) /\
    49152 <= port <= 65535 /\ is_multicast a = true.
Proof.
  destruct (key_to_multicast_valid (py "rover") (py "ipv4"))
    as (kb & b0 & b1 & b2 & b3 & rest & a & port & _ & _ & H & _ & _ & Hp & Hm & _).
  - solve_text.
  - left. reflexivity.
  - exists a, port. repeat split; [exact H|apply Hp|apply Hp|exact Hm].
Defined.

(** ** The codec on examples *)

Example from_bytes_heartbeat :
  from_bytes (bytes_of "{'source': 'a', 'type': 'heartbeat', 'data': {'source': 'rover', 'listen': 5000}}")
  = Ok (mkMessage (JString (py "a")) (JString (py "heartbeat"))
          (JObject [(py "source", JString (py "rover")); (py "listen", JInt 5000)])).
Proof. vm_compute. reflexivity. Qed.

Example encode_heartbeat :
  encode (mkMessage (JString (py "a")) (JString (py "publish"))
            (JObject [(py "topic", JString (py "rover/blarg")); (py "data", JInt (-27))]))
  = Ok (bytes_of "{'source': 'a', 'type': 'publish', 'data': {'topic': 'rover/blarg', 'data': -27}}").
Proof. vm_compute. reflexivity. Qed.

Example loads_examples :
  loads (pyq "[1, 2.5e3, 'x\u00e9\ud83d\ude00', null, true, {}, [], -0, NaN]")
  = Ok (JArray [JInt 1; JFloat (py "2.5e3"); JString [120; 233; 128512]; JNull;
                JBool true; JObject []; JArray []; JInt 0; JFloat (py "NaN")])
  /\ loads (pyq "01") = Raise (JSONDecodeError "Extra data")
  /\ loads (pyq "{'a': 1, 'b': 2, 'a': 3}")
     = Ok (JObject [(py "a", JInt 3); (py "b", JInt 2)])
  /\ loads (pyq "[1,]") = Raise (JSONDecodeError "Expecting value")
  /\ loads (pyq " 5 ") = Ok (JInt 5).
Proof. vm_compute. repeat split; reflexivity. Qed.

(** ** The scanner consumes its input and never runs out of fuel *)

Lemma skip_ws_length s : (length (skip_ws s) <= length s)%nat.
Proof.
  induction s as [|c s IH]; simpl; [lia|].
  destruct (is_ws c); simpl; lia.
Qed.

Lemma next_is_length c s r : next_is c s = Some r -> length s = S (length r).
Proof.
  destruct s as [|x s]; simpl; [discriminate|].
  destruct (x =? c); [|discriminate]. intros [= ->]. reflexivity.
Qed.

Lemma strip_prefix_length p s r :
  strip_prefix p s = Some r -> length s = (length p + length r)%nat.
Proof.
  revert s. induction p as [|a p IH]; intros s; simpl.
  - intros [= ->]. reflexivity.
  - destruct s as [|c s]; [discriminate|].
    destruct (a =? c); [|discriminate]. intros H. apply IH in H. simpl. lia.
Qed.

Lemma span_digits_length s : (length (snd (span_digits s)) <= length s)%nat.
Proof.
  induction s as [|c s IH]; simpl; [lia|].
  destruct (is_digit c); simpl; [|lia].
  destruct (span_digits s) as [ds r]. simpl in *. lia.
Qed.

Lemma scan_ok_bind {A B} (r : result (A * pystr)) (k : A * pystr -> result (B * pystr)) s :
  scan_ok r s ->
  (forall a rest, r = Ok (a, rest) -> (length rest < length s)%nat -> scan_ok (k (a, rest)) s) ->
  scan_ok (bind r k) s.
Proof.
  destruct r as [[a rest]|e]; simpl; intros H Hk; [apply Hk; auto|exact H].
Qed.

Lemma scan_ok_weaken {A} (r : result (A * pystr)) s s' :
  scan_ok r s -> (length s <= length s')%nat -> scan_ok r s'.
Proof.
  destruct r as [[a rest]|e]; simpl; [lia|auto].
Qed.

Lemma scanstring_ok s : scan_ok (scanstring s) (0 :: s).
Proof.
  remember (length s) as n eqn:Hn.
  revert s Hn. induction n as [n IH] using lt_wf_ind. intros s Hn.
  assert (Hrec : forall t (c : Z),
             (length t < length s)%nat ->
             scan_ok (r <- scanstring t ;;; Ok (c :: fst r, snd r)) (0 :: s)).
  { intros t c Ht. apply scan_ok_bind.
    - apply scan_ok_weaken with (s := 0 :: t); [|simpl; lia].
      apply (IH (length t)); [lia|reflexivity].
    - intros a rest _ H. simpl. exact H. }
  destruct s as [|c rest]; [simpl; eauto|].
  cbn [scanstring].
  destruct (c =? 34); [simpl; lia|].
  destruct (c =? 92).
  - destruct rest as [|e rest1]; [simpl; eauto|].
    destruct (e =? 117).
    + destruct rest1 as [|h3 [|h2 [|h1 [|h0 rest2]]]]; try (simpl; eauto; fail).
      destruct (decode_uXXXX [h3; h2; h1; h0]) as [[uni ?]|]; [|simpl; eauto].
      assert (Hs : scan_ok (r <- scanstring rest2 ;;; Ok (uni :: fst r, snd r))
                     (0 :: c :: e :: h3 :: h2 :: h1 :: h0 :: rest2)).
      { apply Hrec. simpl. lia. }
      destruct ((55296 <=? uni) && (uni <=? 56319)); [|exact Hs].
      destruct rest2 as [|b [|u [|l3 [|l2 [|l1 [|l0 rest3]]]]]]; try exact Hs.
      destruct ((b =? 92) && (u =? 117)); [|exact Hs].
      destruct (decode_uXXXX [l3; l2; l1; l0]) as [[uni2 ?]|]; [|simpl; eauto].
      destruct ((56320 <=? uni2) && (uni2 <=? 57343)); [|exact Hs].
      apply Hrec. simpl. lia.
    + destruct (simple_escape e); [|simpl; eauto].
      apply Hrec. simpl. lia.
  - destruct (c <? 32); [simpl; eauto|].
    apply Hrec. simpl. lia.
Qed.

Lemma scanstring_length s str rest :
  scanstring s = Ok (str, rest) -> (length rest <= length s)%nat.
Proof.
  intros H. pose proof (scanstring_ok s) as Hs. rewrite H in Hs. simpl in Hs. lia.
Qed.

Lemma match_number_length s v r :
  match_number s = Some (v, r) -> (length r < length s)%nat.
Proof.
  unfold match_number.
  destruct (match_integer s) as [[integer r0]|] eqn:Hi; [|discriminate].
  assert (H0 : (length r0 < length s)%nat).
  { unfold match_integer in Hi.
    assert (Hgen : forall sign s1,
               match s1 with
               | [] => None
               | c :: t =>
                   if c =? 48 then Some (sign ++ [48], t)
                   else if is_digit c then
                     let '(ds, r) := span_digits t in Some (sign ++ c :: ds, r)
                   else None
               end = Some (integer, r0) -> (length r0 < length s1)%nat).
    { intros sign [|c t]; [discriminate|].
      destruct (c =? 48); [intros [= _ ->]; simpl; lia|].
      destruct (is_digit c); [|discriminate].
      pose proof (span_digits_length t) as Hl.
      destruct (span_digits t) as [ds r']. intros [= _ ->]. simpl in *. lia. }
    destruct s as [|c t]; [discriminate|].
    destruct (c =? 45);
      [apply (Hgen [45] t) in Hi|apply (Hgen [] (c :: t)) in Hi]; simpl in *; lia. }
  assert (H1 : (length (snd (match_frac r0)) <= length r0)%nat).
  { unfold match_frac. destruct r0 as [|p [|d t]]; simpl; try lia.
    destruct ((p =? 46) && is_digit d); simpl; [|lia].
    pose proof (span_digits_length t). destruct (span_digits t). simpl in *. lia. }
  destruct (match_frac r0) as [frac r1]. simpl in H1.
  assert (H2 : (length (snd (match_exp r1)) <= length r1)%nat).
  { unfold match_exp. destruct r1 as [|e t]; simpl; [lia|].
    destruct ((e =? 101) || (e =? 69)); simpl; [|lia].
    destruct t as [|d t1]; simpl; [lia|].
    destruct (is_digit d).
    - pose proof (span_digits_length t1). destruct (span_digits t1). simpl in *. lia.
    - destruct ((d =? 45) || (d =? 43)); simpl; [|lia].
      destruct t1 as [|g t2]; simpl; [lia|].
      destruct (is_digit g); simpl; [|lia].
      pose proof (span_digits_length t2). destruct (span_digits t2). simpl in *. lia. }
  destruct (match_exp r1) as [exp r2]. simpl in H2.
  destruct frac, exp; intros [= _ <-]; lia.
Qed.

Lemma scan_fuel_enough fuel :
  (forall s, (2 * length s < fuel)%nat -> scan_ok (scan_once fuel s) s) /\
  (forall s, (2 * length s + 1 < fuel)%nat -> scan_ok (object_items fuel s) (0 :: s)) /\
  (forall s, (2 * length s + 1 < fuel)%nat -> scan_ok (array_items fuel s) (0 :: s)).
Proof.
  induction fuel as [|f (IHs & IHo & IHa)]; [repeat split; intros; lia|].
  split; [|split]; intros s Hf.
  - destruct s as [|c rest]; [simpl; eauto|].
    pose proof (skip_ws_length rest) as Hws. simpl length in Hf.
    cbn [scan_once].
    destruct (c =? 34).
    { apply scan_ok_bind; [apply scanstring_ok|]. intros a r _ H. exact H. }
    destruct (c =? 123).
    { destruct (next_is 125 (skip_ws rest)) as [r|] eqn:E.
      - apply next_is_length in E. simpl. lia.
      - apply scan_ok_bind.
        + eapply scan_ok_weaken; [apply IHo; lia|simpl; lia].
        + intros a r _ H. exact H. }
    destruct (c =? 91).
    { destruct (next_is 93 (skip_ws rest)) as [r|] eqn:E.
      - apply next_is_length in E. simpl. lia.
      - apply scan_ok_bind.
        + eapply scan_ok_weaken; [apply IHa; lia|simpl; lia].
        + intros a r _ H. exact H. }
    repeat match goal with
    | |- context [strip_prefix ?p ?t] =>
        let E := fresh "E" in
        destruct (strip_prefix p t) eqn:E;
        [apply strip_prefix_length in E; simpl in E |- *; lia|]
    | |- context [match_number ?t] =>
        let E := fresh "E" in
        destruct (match_number t) as [[? ?]|] eqn:E;
        [apply match_number_length in E; simpl in E |- *; lia|]
    end.
    simpl. eauto.
  - cbn [object_items].
    destruct (next_is 34 s) as [s1|] eqn:E1; [|simpl; eauto].
    apply next_is_length in E1.
    pose proof (scanstring_ok s1) as Hk.
    destruct (scanstring s1) as [[key r1]|e]; [|exact Hk].
    cbn [bind fst snd]. simpl in Hk.
    pose proof (skip_ws_length r1) as Hw1.
    destruct (next_is 58 (skip_ws r1)) as [s2|] eqn:E2; [|simpl; eauto].
    apply next_is_length in E2.
    pose proof (skip_ws_length s2) as Hw2.
    pose proof (IHs (skip_ws s2) ltac:(lia)) as Hv.
    destruct (scan_once f (skip_ws s2)) as [[v r3]|e]; [|exact Hv].
    cbn [bind fst snd]. simpl in Hv.
    pose proof (skip_ws_length r3) as Hw3.
    destruct (skip_ws r3) as [|c s4] eqn:E4; [simpl; eauto|].
    simpl length in *.
    destruct (c =? 125); [simpl; lia|].
    destruct (c =? 44); [|simpl; eauto].
    pose proof (skip_ws_length s4) as Hw4.
    pose proof (IHo (skip_ws s4) ltac:(lia)) as Hr.
    destruct (object_items f (skip_ws s4)) as [[items r5]|e]; [|exact Hr].
    simpl in *. lia.
  - cbn [array_items].
    pose proof (IHs s ltac:(lia)) as Hv.
    destruct (scan_once f s) as [[v r1]|e]; [|exact Hv].
    cbn [bind fst snd]. simpl in Hv.
    pose proof (skip_ws_length r1) as Hw1.
    destruct (skip_ws r1) as [|c s2] eqn:E2; [simpl; eauto|].
    simpl length in *.
    destruct (c =? 93); [simpl; lia|].
    destruct (c =? 44); [|simpl; eauto].
    pose proof (skip_ws_length s2) as Hw2.
    pose proof (IHa (skip_ws s2) ltac:(lia)) as Hr.
    destruct (array_items f (skip_ws s2)) as [[items r5]|e]; [|exact Hr].
    simpl in *. lia.
Qed.

Lemma loads_error s e : loads s = Raise e -> exists m, e = JSONDecodeError m.
Proof.
  unfold loads. destruct (strip_prefix [65279] s); [intros [= <-]; eauto|].
  pose proof (proj1 (scan_fuel_enough (2 * length s + 2)) (skip_ws s)) as H.
  pose proof (skip_ws_length s) as Hw.
  specialize (H ltac:(lia)).
  destruct (scan_once _ _) as [[v r]|e']; simpl in *.
  - destruct (skip_ws r); [discriminate|intros [= <-]; eauto].
  - intros [= <-]. exact H.
Qed.

(** ** More fuel does not change a result *)

Lemma bind_mono {A B} (r r' : result A) (k k' : A -> result B) :
  (r <> Raise RecursionError -> r' = r) ->
  (forall a, r = Ok a -> k a <> Raise RecursionError -> k' a = k a) ->
  bind r k <> Raise RecursionError -> bind r' k' = bind r k.
Proof.
  intros Hr Hk H. destruct r as [a|e]; simpl in *.
  - rewrite Hr by discriminate. simpl. apply Hk; auto.
  - rewrite Hr; [reflexivity|]. congruence.
Qed.

Lemma scan_fuel_mono f :
  (forall s, scan_once f s <> Raise RecursionError ->
             forall f', (f <= f')%nat -> scan_once f' s = scan_once f s) /\
  (forall s, object_items f s <> Raise RecursionError ->
             forall f', (f <= f')%nat -> object_items f' s = object_items f s) /\
  (forall s, array_items f s <> Raise RecursionError ->
             forall f', (f <= f')%nat -> array_items f' s = array_items f s).
Proof.
  induction f as [|f (IHs & IHo & IHa)].
  { repeat split; intros s H; exfalso; apply H; reflexivity. }
  split; [|split]; intros s H [|f'] Hle; try lia;
    assert (Hf : (f <= f')%nat) by lia.
  - revert H. cbn [scan_once].
    destruct s as [|c rest]; [reflexivity|].
    destruct (c =? 34); [reflexivity|].
    destruct (c =? 123).
    { destruct (next_is 125 (skip_ws rest)); [reflexivity|].
      apply bind_mono; [intros; apply IHo; auto|reflexivity]. }
    destruct (c =? 91).
    { destruct (next_is 93 (skip_ws rest)); [reflexivity|].
      apply bind_mono; [intros; apply IHa; auto|reflexivity]. }
    reflexivity.
  - revert H. cbn [object_items].
    destruct (next_is 34 s) as [s1|]; [|reflexivity].
    apply bind_mono; [reflexivity|]. intros [key r1] _. cbn [fst snd].
    destruct (next_is 58 (skip_ws r1)) as [s2|]; [|reflexivity].
    apply bind_mono; [intros; apply IHs; auto|]. intros [v r3] _. cbn [fst snd].
    destruct (skip_ws r3) as [|c s4]; [reflexivity|].
    destruct (c =? 125); [reflexivity|].
    destruct (c =? 44); [|reflexivity].
    apply bind_mono; [intros; apply IHo; auto|reflexivity].
  - revert H. cbn [array_items].
    apply bind_mono; [intros; apply IHs; auto|]. intros [v r1] _. cbn [fst snd].
    destruct (skip_ws r1) as [|c s2]; [reflexivity|].
    destruct (c =? 93); [reflexivity|].
    destruct (c =? 44); [|reflexivity].
    apply bind_mono; [intros; apply IHa; auto|reflexivity].
Qed.

Lemma scan_once_fuel_indep f1 f2 s v r :
  scan_once f1 s = Ok (v, r) ->
  scan_once f2 s <> Raise RecursionError ->
  scan_once f2 s = Ok (v, r).
Proof.
  intros H1 H2.
  pose proof (proj1 (scan_fuel_mono f1) s ltac:(congruence) (Nat.max f1 f2) ltac:(lia)) as E1.
  pose proof (proj1 (scan_fuel_mono f2) s H2 (Nat.max f1 f2) ltac:(lia)) as E2.
  congruence.
Qed.

(** ** Strings: [scanstring] inverts [encode_basestring_ascii] *)

Lemma hex_val_digit d : 0 <= d < 16 -> hex_val (hex_digit d) = Some d.
Proof.
  intros H.
  assert (E : d = 0 \/ d = 1 \/ d = 2 \/ d = 3 \/ d = 4 \/ d = 5 \/ d = 6 \/ d = 7 \/
              d = 8 \/ d = 9 \/ d = 10 \/ d = 11 \/ d = 12 \/ d = 13 \/ d = 14 \/ d = 15)
    by lia.
  repeat (destruct E as [->|E]; [reflexivity|]). subst d. reflexivity.
Qed.

Lemma decode_hex4 n :
  0 <= n < 65536 ->
  decode_uXXXX [hex_digit (n / 4096 mod 16); hex_digit (n / 256 mod 16);
                hex_digit (n / 16 mod 16); hex_digit (n mod 16)] = Some (n, []).
Proof.
  intros Hn. unfold decode_uXXXX.
  rewrite !hex_val_digit by (apply Z.mod_pos_bound; lia).
  do 2 f_equal. Z.to_euclidean_division_equations; lia.
Qed.

Lemma land_shiftl_low a k x : 0 <= k -> 0 <= x < 2 ^ k -> Z.land (Z.shiftl a k) x = 0.
Proof.
  intros Hk Hx. apply Z.bits_inj'. intros n Hn.
  rewrite Z.land_spec, Z.bits_0.
  destruct (Z.lt_ge_cases n k) as [Hlt|Hge].
  - rewrite Z.shiftl_spec_low by lia. reflexivity.
  - rewrite <- (Z.mod_small x (2 ^ k)) by lia.
    rewrite Z.mod_pow2_bits_high by lia. apply andb_false_r.
Qed.

Lemma lor_shiftl_add a k x :
  0 <= k -> 0 <= x < 2 ^ k -> Z.lor (Z.shiftl a k) x = a * 2 ^ k + x.
Proof.
  intros Hk Hx. pose proof (land_shiftl_low a k x Hk Hx) as Hl.
  rewrite <- Z.lxor_lor by exact Hl.
  rewrite <- Z.add_nocarry_lxor by exact Hl.
  rewrite Z.shiftl_mul_pow2 by lia. reflexivity.
Qed.

Lemma surrogate_pair c :
  0x10000 <= c <= 0x10FFFF ->
  let n := c - 0x10000 in
  let hi := Z.lor 0xD800 (Z.land (Z.shiftr n 10) 0x3FF) in
  let lo := Z.lor 0xDC00 (Z.land n 0x3FF) in
  hi = 0xD800 + n / 1024 /\ lo = 0xDC00 + n mod 1024 /\
  0x10000 + Z.lor (Z.shiftl (hi - 0xD800) 10) (lo - 0xDC00) = c.
Proof.
  intros Hc n hi lo.
  assert (Hn : 0 <= n < 1048576) by (unfold n; lia).
  assert (Hq : 0 <= n / 1024 < 1024) by (Z.to_euclidean_division_equations; lia).
  assert (Hr : 0 <= n mod 1024 < 1024) by (apply Z.mod_pos_bound; lia).
  assert (Hhi : hi = 0xD800 + n / 1024).
  { unfold hi. rewrite Z.shiftr_div_pow2 by lia.
    change 1023 with (Z.ones 10). rewrite Z.land_ones by lia.
    change (2 ^ 10) with 1024. rewrite (Z.mod_small (n / 1024)) by lia.
    change 55296 with (Z.shiftl 54 10). rewrite lor_shiftl_add by (change (2 ^ 10) with 1024; lia).
    reflexivity. }
  assert (Hlo : lo = 0xDC00 + n mod 1024).
  { unfold lo. change 1023 with (Z.ones 10). rewrite Z.land_ones by lia.
    change (2 ^ 10) with 1024.
    change 56320 with (Z.shiftl 55 10). rewrite lor_shiftl_add by (change (2 ^ 10) with 1024; lia).
    reflexivity. }
  split; [exact Hhi|]. split; [exact Hlo|].
  rewrite Hhi, Hlo.
  replace (55296 + n / 1024 - 55296) with (n / 1024) by lia.
  replace (56320 + n mod 1024 - 56320) with (n mod 1024) by lia.
  rewrite lor_shiftl_add by (change (2 ^ 10) with 1024; lia).
  change (2 ^ 10) with 1024. unfold n. Z.to_euclidean_division_equations; lia.
Qed.

Lemma scanstring_u_escape n tail str rem :
  0 <= n < 65536 ->
  (0xD800 <=? n) && (n <=? 0xDBFF) = false ->
  scanstring tail = Ok (str, rem) ->
  scanstring (u_escape n ++ tail) = Ok (n :: str, rem).
Proof.
  intros Hn Hs Ht. unfold u_escape, hex4. cbn [map app scanstring].
  change (92 =? 34) with false. change (92 =? 92) with true.
  change (117 =? 117) with true. cbv iota.
  rewrite decode_hex4 by exact Hn. rewrite Hs, Ht. reflexivity.
Qed.

Lemma scanstring_u_pair hi lo tail str rem :
  0xD800 <= hi <= 0xDBFF -> 0xDC00 <= lo <= 0xDFFF ->
  scanstring tail = Ok (str, rem) ->
  scanstring (u_escape hi ++ u_escape lo ++ tail)
  = Ok ((0x10000 + Z.lor (Z.shiftl (hi - 0xD800) 10) (lo - 0xDC00)) :: str, rem).
Proof.
  intros Hhi Hlo Ht. unfold u_escape, hex4. cbn [map app scanstring].
  change (92 =? 34) with false. change (92 =? 92) with true.
  change (117 =? 117) with true. cbv iota.
  rewrite !decode_hex4 by lia.
  replace ((55296 <=? hi) && (hi <=? 56319)) with true
    by (symmetry; apply andb_true_intro; split; apply Z.leb_le; lia).
  cbn [andb]. cbv iota.
  replace ((56320 <=? lo) && (lo <=? 57343)) with true
    by (symmetry; apply andb_true_intro; split; apply Z.leb_le; lia).
  rewrite Ht. reflexivity.
Qed.

Lemma scanstring_escape_char c tail str rem :
  0 <= c <= 0x10FFFF -> is_surrogate c = false ->
  scanstring tail = Ok (str, rem) ->
  scanstring (escape_char c ++ tail) = Ok (c :: str, rem).
Proof.
  intros Hc Hs Ht. unfold escape_char.
  destruct (Z.eqb_spec c 92) as [->|N92]; [simpl; rewrite Ht; reflexivity|].
  destruct (Z.eqb_spec c 34) as [->|N34]; [simpl; rewrite Ht; reflexivity|].
  destruct (Z.eqb_spec c 8) as [->|N8]; [simpl; rewrite Ht; reflexivity|].
  destruct (Z.eqb_spec c 12) as [->|N12]; [simpl; rewrite Ht; reflexivity|].
  destruct (Z.eqb_spec c 10) as [->|N10]; [simpl; rewrite Ht; reflexivity|].
  destruct (Z.eqb_spec c 13) as [->|N13]; [simpl; rewrite Ht; reflexivity|].
  destruct (Z.eqb_spec c 9) as [->|N9]; [simpl; rewrite Ht; reflexivity|].
  destruct ((32 <=? c) && (c <=? 126)) eqn:Hp.
  - apply andb_prop in Hp as [H1 H2]. apply Z.leb_le in H1.
    cbn [app scanstring].
    destruct (Z.eqb_spec c 34); [contradiction|].
    destruct (Z.eqb_spec c 92); [contradiction|].
    destruct (Z.ltb_spec c 32); [lia|]. rewrite Ht. reflexivity.
  - unfold is_surrogate in Hs.
    destruct (Z.ltb_spec c 0x10000) as [Hlt|Hge].
    + apply scanstring_u_escape; [lia| |exact Ht].
      destruct (Z.leb_spec 0xD800 c), (Z.leb_spec c 0xDBFF); try reflexivity.
      exfalso. destruct (Z.leb_spec c 0xDFFF); [discriminate|lia].
    + destruct (surrogate_pair c ltac:(lia)) as (Hhi & Hlo & Hcomb).
      cbv zeta in Hhi, Hlo, Hcomb.
      rewrite <- app_assoc.
      rewrite scanstring_u_pair with (str := str) (rem := rem); [|rewrite Hhi|rewrite Hlo|exact Ht].
      * rewrite Hcomb. reflexivity.
      * assert (0 <= (c - 65536) / 1024 < 1024) by (Z.to_euclidean_division_equations; lia). lia.
      * assert (0 <= (c - 65536) mod 1024 < 1024) by (apply Z.mod_pos_bound; lia). lia.
Qed.

Lemma scanstring_encode s rest :
  is_text s ->
  scanstring (flat_map escape_char s ++ 34 :: rest) = Ok (s, rest).
Proof.
  induction 1 as [|c s [Hc Hs] _ IH]; [reflexivity|].
  cbn [flat_map]. rewrite <- app_assoc.
  apply scanstring_escape_char; assumption.
Qed.

(** ** Integers: [parse_int] inverts [str_of_int] *)

Lemma uint_of_codes_codes u : uint_of_codes (uint_codes u) = u.
Proof.
  induction u; cbn [uint_codes uint_of_codes]; rewrite ?IHu; reflexivity.
Qed.

Lemma uint_codes_digits u : Forall (fun c => is_digit c = true) (uint_codes u).
Proof.
  induction u; cbn [uint_codes]; constructor; auto.
Qed.

Lemma span_digits_app ds rest :
  Forall (fun c => is_digit c = true) ds ->
  match rest with [] => True | c :: _ => is_digit c = false end ->
  span_digits (ds ++ rest) = (ds, rest).
Proof.
  intros Hd Hr. induction Hd as [|c ds Hc _ IH]; simpl.
  - destruct rest as [|c r]; [reflexivity|]. simpl. rewrite Hr. reflexivity.
  - rewrite Hc, IH. reflexivity.
Qed.

Lemma nzhead_head d : match nzhead d with D0 _ => False | _ => True end.
Proof.
  induction d; simpl; auto.
Qed.

Lemma pos_to_uint_head p :
  match Pos.to_uint p with Nil | D0 _ => False | _ => True end.
Proof.
  assert (E : Pos.to_uint p = unorm (Pos.to_uint p)).
  { pose proof (DecimalPos.Unsigned.to_of (Pos.to_uint p)) as H.
    rewrite DecimalPos.Unsigned.of_to in H. exact H. }
  pose proof (DecimalPos.Unsigned.to_uint_nonzero p) as Hnz.
  pose proof (nzhead_head (Pos.to_uint p)) as Hh.
  unfold unorm in E. destruct (nzhead (Pos.to_uint p)) eqn:En;
    first [contradiction | congruence | rewrite E; exact I].
Qed.

Lemma pos_codes_head p :
  exists c ds, uint_codes (Pos.to_uint p) = c :: ds /\
               is_digit c = true /\ c <> 48 /\
               Forall (fun c => is_digit c = true) ds.
Proof.
  pose proof (pos_to_uint_head p) as H.
  pose proof (uint_codes_digits (Pos.to_uint p)) as Hd.
  destruct (Pos.to_uint p) as [|u|u|u|u|u|u|u|u|u|u]; try contradiction;
    cbn [uint_codes] in *; apply Forall_cons in Hd as [_ Hd];
    eexists _, _; (split; [reflexivity|]); repeat split; auto; discriminate.
Qed.

Lemma str_of_int_cases z :
  (z = 0 /\ str_of_int z = [48]) \/
  (0 < z /\ exists c ds, str_of_int z = c :: ds /\ is_digit c = true /\ c <> 48 /\
                          Forall (fun c => is_digit c = true) ds) \/
  (z < 0 /\ exists c ds, str_of_int z = 45 :: c :: ds /\ is_digit c = true /\ c <> 48 /\
                          Forall (fun c => is_digit c = true) ds).
Proof.
  unfold str_of_int. destruct z as [|p|p].
  - left. split; reflexivity.
  - right. left. split; [lia|]. change (Z.pos p <? 0) with false. cbv iota.
    change (N.to_uint (Z.to_N (Z.pos p))) with (Pos.to_uint p). apply pos_codes_head.
  - right. right. split; [lia|]. change (Z.neg p <? 0) with true. cbv iota.
    change (N.to_uint (Z.to_N (- Z.neg p))) with (Pos.to_uint p).
    destruct (pos_codes_head p) as (c & ds & E & H). exists c, ds. rewrite E. auto.
Qed.

Lemma parse_int_str_of_int z : parse_int (str_of_int z) = z.
Proof.
  unfold str_of_int. destruct z as [|p|p].
  - reflexivity.
  - change (Z.pos p <? 0) with false. cbv iota.
    change (Z.to_N (Z.pos p)) with (N.pos p).
    destruct (pos_codes_head p) as (c & ds & E & Hc & _).
    unfold parse_int. change (N.to_uint (N.pos p)) with (Pos.to_uint p).
    rewrite E. assert ((c =? 45) = false) as ->.
    { apply Z.eqb_neq. intros ->. discriminate Hc. }
    rewrite <- E, uint_of_codes_codes.
    change (Pos.to_uint p) with (N.to_uint (N.pos p)).
    rewrite DecimalN.Unsigned.of_to. reflexivity.
  - change (Z.neg p <? 0) with true. cbv iota.
    unfold parse_int. change (45 =? 45) with true. cbv iota.
    rewrite uint_of_codes_codes, DecimalN.Unsigned.of_to. reflexivity.
Qed.

Lemma digit_not c x : is_digit c = true -> is_digit x = false -> (c =? x) = false.
Proof.
  intros Hc Hx. apply Z.eqb_neq. intros ->. congruence.
Qed.

Lemma match_integer_str_of_int z rest :
  match rest with [] => True | c :: _ => is_digit c = false end ->
  match_integer (str_of_int z ++ rest) = Some (str_of_int z, rest).
Proof.
  intros Hr. unfold match_integer.
  destruct (str_of_int_cases z) as [[-> ->]|[[_ H]|[_ H]]].
  - reflexivity.
  - destruct H as (c & ds & -> & Hc & Hn & Hd). cbn [app].
    rewrite (digit_not c 45 Hc eq_refl).
    apply Z.eqb_neq in Hn. rewrite Hn, Hc.
    rewrite (span_digits_app ds rest Hd Hr). reflexivity.
  - destruct H as (c & ds & -> & Hc & Hn & Hd). cbn [app].
    change (45 =? 45) with true. cbv iota.
    apply Z.eqb_neq in Hn. rewrite Hn, Hc.
    rewrite (span_digits_app ds rest Hd Hr). reflexivity.
Qed.

Lemma match_number_str_of_int z rest :
  ends_number rest ->
  match_number (str_of_int z ++ rest) = Some (JInt z, rest).
Proof.
  intros Hr. unfold match_number.
  rewrite match_integer_str_of_int.
  2:{ destruct rest; [exact I|apply Hr]. }
  assert (Hf : match_frac rest = ([], rest)).
  { unfold match_frac. destruct rest as [|p [|d t]]; try reflexivity.
    destruct Hr as (_ & Hp & _). apply Z.eqb_neq in Hp. rewrite Hp. reflexivity. }
  assert (He : match_exp rest = ([], rest)).
  { unfold match_exp. destruct rest as [|e t]; try reflexivity.
    destruct Hr as (_ & _ & H1 & H2). apply Z.eqb_neq in H1, H2.
    rewrite H1, H2. reflexivity. }
  rewrite Hf, He, parse_int_str_of_int. reflexivity.
Qed.

(** ** Floats: the scanner reads a float literal as one token *)

Lemma match_integer_literal sign int tail :
  int_literal sign int ->
  match tail with [] => True | c :: _ => is_digit c = false end ->
  match_integer (sign ++ int ++ tail) = Some (sign ++ int, tail).
Proof.
  intros [Hs Hi] Ht. unfold match_integer.
  assert (Hbody : forall sg,
             match int ++ tail with
             | [] => None
             | c :: t =>
                 if c =? 48 then Some (sg ++ [48], t)
                 else if is_digit c then
                   let '(ds, r) := span_digits t in Some (sg ++ c :: ds, r)
                 else None
             end = Some (sg ++ int, tail)).
  { intros sg. destruct Hi as [->|(c & ds & -> & Hc & Hn & Hd)].
    - reflexivity.
    - cbn [app]. apply Z.eqb_neq in Hn. rewrite Hn, Hc.
      rewrite (span_digits_app ds tail Hd Ht). reflexivity. }
  destruct Hs as [->| ->].
  - cbn [app].
    destruct (int ++ tail) as [|c t] eqn:E; [specialize (Hbody []); discriminate|].
    assert (Hc : (c =? 45) = false).
    { destruct Hi as [->|(c' & ds & -> & Hc & _)]; injection E as <- _;
        [reflexivity|apply (digit_not c' 45 Hc eq_refl)]. }
    rewrite Hc. apply (Hbody []).
  - cbn [app]. change (45 =? 45) with true. cbv iota. apply Hbody.
Qed.

Lemma match_frac_literal frac tail :
  frac_literal frac ->
  match tail with [] => True | c :: _ => is_digit c = false end ->
  match_frac (frac ++ tail) = (frac, tail).
Proof.
  intros (d & ds & -> & Hd & Hds) Ht. unfold match_frac. cbn [app].
  change (46 =? 46) with true. rewrite Hd. cbn [andb].
  rewrite (span_digits_app ds tail Hds Ht). reflexivity.
Qed.

Lemma match_frac_none tail :
  match tail with [] => True | c :: _ => c <> 46 end ->
  match_frac tail = ([], tail).
Proof.
  unfold match_frac. destruct tail as [|p [|d t]]; try reflexivity.
  intros Hp. apply Z.eqb_neq in Hp. rewrite Hp. reflexivity.
Qed.

Lemma match_exp_literal exp tail :
  exp_literal exp ->
  match tail with [] => True | c :: _ => is_digit c = false end ->
  match_exp (exp ++ tail) = (exp, tail).
Proof.
  intros (e & sgn & d & ds & -> & He & Hs & Hd & Hds) Ht. unfold match_exp.
  assert (Hee : (e =? 101) || (e =? 69) = true) by (destruct He as [->| ->]; reflexivity).
  cbn [app]. rewrite Hee.
  destruct Hs as [->|[->| ->]]; cbn [app].
  - rewrite Hd, (span_digits_app ds tail Hds Ht). reflexivity.
  - change (is_digit 43) with false. cbv iota. change ((43 =? 45) || (43 =? 43)) with true.
    cbv iota. rewrite Hd, (span_digits_app ds tail Hds Ht). reflexivity.
  - change (is_digit 45) with false. cbv iota. change ((45 =? 45) || (45 =? 43)) with true.
    cbv iota. rewrite Hd, (span_digits_app ds tail Hds Ht). reflexivity.
Qed.

Lemma match_exp_none tail :
  match tail with [] => True | c :: _ => c <> 101 /\ c <> 69 end ->
  match_exp tail = ([], tail).
Proof.
  unfold match_exp. destruct tail as [|e t]; try reflexivity.
  intros [H1 H2]. apply Z.eqb_neq in H1, H2. rewrite H1, H2. reflexivity.
Qed.

Lemma match_number_float lit rest :
  float_literal lit -> ends_number rest ->
  match_number (lit ++ rest) = Some (JFloat lit, rest).
Proof.
  intros (sign & int & frac & exp & -> & Hi & Hf & He & Hne) Hr.
  assert (Hrd : match rest with [] => True | c :: _ => is_digit c = false end).
  { destruct rest; [exact I|apply Hr]. }
  assert (Hexp_head : exp_literal exp ->
            match exp ++ rest with [] => True | c :: _ => is_digit c = false /\ c <> 46 end).
  { intros (e & sgn & d & ds & -> & [->| ->] & _); cbn [app]; split;
      first [reflexivity|discriminate]. }
  unfold match_number. rewrite <- !app_assoc.
  rewrite (match_integer_literal sign int (frac ++ exp ++ rest) Hi).
  2:{ destruct Hf as [->|(d & ds & -> & _)]; [|reflexivity]. cbn [app].
      destruct He as [->|He]; [exact Hrd|].
      specialize (Hexp_head He). destruct (exp ++ rest); [exact I|apply Hexp_head]. }
  assert (Efrac : match_frac (frac ++ exp ++ rest) = (frac, exp ++ rest)).
  { destruct Hf as [->|Hf].
    - cbn [app]. apply match_frac_none.
      destruct He as [->|He]; [destruct rest; [exact I|apply Hr]|].
      specialize (Hexp_head He). destruct (exp ++ rest); [exact I|apply Hexp_head].
    - apply match_frac_literal; [exact Hf|].
      destruct He as [->|He]; [exact Hrd|].
      specialize (Hexp_head He). destruct (exp ++ rest); [exact I|apply Hexp_head]. }
  assert (Eexp : match_exp (exp ++ rest) = (exp, rest)).
  { destruct He as [->|He].
    - cbn [app]. apply match_exp_none. destruct rest; [exact I|]. split; apply Hr.
    - apply match_exp_literal; assumption. }
  rewrite Efrac, Eexp.
  destruct frac as [|p frac]; destruct exp as [|e exp];
    [destruct Hne; contradiction| | |]; rewrite <- ?app_assoc; reflexivity.
Qed.

Lemma float_literal_head lit :
  float_literal lit ->
  exists c t, lit = c :: t /\ (c = 45 \/ is_digit c = true).
Proof.
  intros (sign & int & frac & exp & -> & [Hs Hi] & _).
  destruct Hs as [->| ->]; [|eexists _, _; split; [reflexivity|left; reflexivity]].
  destruct Hi as [->|(c & ds & -> & Hc & _)];
    eexists _, _; (split; [reflexivity|right]); auto.
Qed.

(** ** Values: [scan_once] inverts [dumps] *)

Lemma json_induction (P : json -> Prop) :
  P JNull -> (forall b, P (JBool b)) -> (forall n, P (JInt n)) ->
  (forall lit, P (JFloat lit)) -> (forall s, P (JString s)) ->
  (forall items, Forall P items -> P (JArray items)) ->
  (forall pairs, Forall (fun kv => P (snd kv)) pairs -> P (JObject pairs)) ->
  forall v, P v.
Proof.
  intros Hnull Hbool Hint Hfloat Hstr Harr Hobj.
  fix IH 1. intros [ | b | n | lit | s | items | pairs].
  - exact Hnull.
  - apply Hbool.
  - apply Hint.
  - apply Hfloat.
  - apply Hstr.
  - apply Harr. induction items as [|x items IHitems].
    + apply List.Forall_nil.
    + apply List.Forall_cons; [apply IH|exact IHitems].
  - apply Hobj. induction pairs as [|[k x] pairs IHpairs].
    + apply List.Forall_nil.
    + apply List.Forall_cons; [apply IH|exact IHpairs].
Qed.

Lemma digit_range c : is_digit c = true -> 48 <= c <= 57.
Proof.
  unfold is_digit. intros H. apply andb_prop in H as [H1 H2].
  apply Z.leb_le in H1, H2. lia.
Qed.

Lemma value_start_range c : 33 <= c <= 126 -> c <> 93 -> c <> 125 -> value_start c.
Proof.
  intros Hc H1 H2. unfold value_start, is_ws.
  rewrite !(proj2 (Z.eqb_neq _ _)) by lia. repeat split; auto; lia.
Qed.

Lemma dumps_head v :
  representable v -> exists c t, dumps v = c :: t /\ value_start c.
Proof.
  destruct v as [ | b | n | lit | s | items | pairs]; cbn [representable dumps]; intros Hv.
  - eexists _, _; split; [reflexivity|apply value_start_range; cbn; lia].
  - destruct b; eexists _, _; (split; [reflexivity|apply value_start_range; cbn; lia]).
  - destruct (str_of_int_cases n) as [[_ ->]|[[_ H]|[_ H]]];
      [|destruct H as (c & ds & -> & Hc & _)|destruct H as (c & ds & -> & Hc & _)];
      eexists _, _; (split; [reflexivity|]); apply value_start_range;
      try apply digit_range in Hc; lia.
  - destruct (float_literal_head lit Hv) as (c & t & -> & Hc).
    exists c, t. split; [reflexivity|]. apply value_start_range;
      destruct Hc as [->|Hc]; try apply digit_range in Hc; lia.
  - eexists _, _; split; [reflexivity|apply value_start_range; cbn; lia].
  - eexists _, _; split; [reflexivity|apply value_start_range; cbn; lia].
  - eexists _, _; split; [reflexivity|apply value_start_range; cbn; lia].
Qed.

Lemma skip_ws_start c t : value_start c -> skip_ws (c :: t) = c :: t.
Proof.
  intros [H _]. simpl. rewrite H. reflexivity.
Qed.

Lemma skip_ws_dumps v rest : representable v -> skip_ws (dumps v ++ rest) = dumps v ++ rest.
Proof.
  intros Hv. destruct (dumps_head v Hv) as (c & t & -> & Hc).
  apply skip_ws_start. exact Hc.
Qed.

Lemma strip_prefix_head p c t :
  match p with [] => False | x :: _ => x <> c end -> strip_prefix p (c :: t) = None.
Proof.
  destruct p as [|x p]; [contradiction|]. intros H. simpl.
  apply Z.eqb_neq in H. rewrite H. reflexivity.
Qed.

Lemma scan_once_string s rest fuel :
  is_text s ->
  scan_once (S fuel) (encode_basestring_ascii s ++ rest) = Ok (JString s, rest).
Proof.
  intros Hs. unfold encode_basestring_ascii. cbn [app scan_once].
  change (34 =? 34) with true. cbv iota.
  rewrite <- app_assoc. cbn [app]. rewrite scanstring_encode by exact Hs. reflexivity.
Qed.

Lemma scan_once_number text v rest fuel :
  (exists c t, text = c :: t /\ (c = 45 \/ is_digit c = true)) ->
  match_number (text ++ rest) = Some (v, rest) ->
  scan_once (S fuel) (text ++ rest) = Ok (v, rest).
Proof.
  intros (c & t & -> & Hc) Hm. cbn [app] in *.
  assert (Hr' : 45 <= c <= 57).
  { destruct Hc as [->|Hc]; [lia|apply digit_range in Hc; lia]. }
  cbn [scan_once].
  rewrite !(proj2 (Z.eqb_neq c _)) by lia.
  rewrite !strip_prefix_head by (vm_compute; lia).
  rewrite Hm. reflexivity.
Qed.

Lemma scan_once_int n rest fuel :
  ends_number rest ->
  scan_once (S fuel) (str_of_int n ++ rest) = Ok (JInt n, rest).
Proof.
  intros Hr. apply scan_once_number; [|apply match_number_str_of_int; exact Hr].
  destruct (str_of_int_cases n) as [[_ ->]|[[_ H]|[_ H]]];
    [|destruct H as (c & ds & -> & Hc & _)|destruct H as (c & ds & -> & Hc & _)];
    eexists _, _; (split; [reflexivity|]); auto.
Qed.

Lemma scan_once_float lit rest fuel :
  float_literal lit -> ends_number rest ->
  scan_once (S fuel) (lit ++ rest) = Ok (JFloat lit, rest).
Proof.
  intros Hl Hr. apply scan_once_number; [|apply match_number_float; assumption].
  apply float_literal_head. exact Hl.
Qed.

Lemma representable_array items :
  representable (JArray items) <-> Forall representable items.
Proof.
  cbn [representable]. induction items as [|x items IH]; simpl.
  - split; [intros; apply List.Forall_nil|auto].
  - rewrite Forall_cons. rewrite IH. reflexivity.
Qed.

Lemma representable_object pairs :
  representable (JObject pairs) <->
  NoDup (map fst pairs) /\
  Forall (fun kv => is_text (fst kv) /\ representable (snd kv)) pairs.
Proof.
  cbn [representable].
  assert (H : fold_right (fun kv P => (is_text (fst kv) /\ representable (snd kv)) /\ P)
                True pairs
              <-> Forall (fun kv => is_text (fst kv) /\ representable (snd kv)) pairs).
  { induction pairs as [|kv pairs IH]; simpl.
    - split; [intros; apply List.Forall_nil|auto].
    - rewrite Forall_cons. rewrite IH. reflexivity. }
  rewrite H. reflexivity.
Qed.

Lemma join_dumps_head sep x items :
  exists tail, join sep (map dumps (x :: items)) = dumps x ++ tail.
Proof.
  destruct items as [|y more]; [exists []; simpl; rewrite app_nil_r; reflexivity|].
  eexists. cbn [map join]. reflexivity.
Qed.

Lemma ends_number_start c t : 33 <= c <= 125 -> c <> 46 -> c <> 101 -> c <> 69 ->
  is_digit c = false -> ends_number (c :: t).
Proof. intros. simpl. auto. Qed.

Lemma array_items_dumps items rest :
  items <> [] ->
  Forall (fun x => representable x /\ reads_back x) items ->
  exists f0, forall fuel, (f0 <= fuel)%nat ->
    array_items fuel (join [44; 32] (map dumps items) ++ 93 :: rest) = Ok (items, rest).
Proof.
  intros Hne Hall. induction Hall as [|x items [Hx Rx] Hall IH]; [contradiction|].
  clear Hne. destruct items as [|y more].
  - destruct (Rx (93 :: rest)) as [f0 Hf0]; [simpl; repeat split; discriminate|].
    exists (S f0). intros [|f] Hf; [lia|].
    cbn [map join array_items]. rewrite Hf0 by lia. reflexivity.
  - destruct IH as [f1 Hf1]; [discriminate|].
    apply Forall_cons in Hall as [[Hy _] _].
    destruct (join_dumps_head [44; 32] y more) as [tail Etail].
    destruct (Rx (44 :: 32 :: join [44; 32] (map dumps (y :: more)) ++ 93 :: rest))
      as [f0 Hf0]; [simpl; repeat split; discriminate|].
    exists (S (Nat.max f0 f1)). intros [|f] Hf; [lia|].
    change (join [44; 32] (map dumps (x :: y :: more)))
      with (dumps x ++ [44; 32] ++ join [44; 32] (map dumps (y :: more))).
    rewrite <- !app_assoc. cbn [app array_items].
    rewrite Hf0 by lia. cbn [bind fst snd skip_ws].
    change (is_ws 44) with false. cbv iota.
    change (44 =? 93) with false. change (44 =? 44) with true. cbv iota.
    cbn [skip_ws]. change (is_ws 32) with true. cbv iota.
    rewrite Etail, <- app_assoc, skip_ws_dumps by exact Hy.
    rewrite app_assoc, <- Etail, Hf1 by lia. reflexivity.
Qed.

Lemma dict_set_fresh k v d :
  k ∉ map fst d -> dict_set k v d = d ++ [(k, v)].
Proof.
  induction d as [|[k' v'] d IH]; intros Hk; [reflexivity|].
  cbn [dict_set map fst] in *. apply not_elem_of_cons in Hk as [Hne Hk].
  unfold pystr_eqb. rewrite bool_decide_eq_false_2 by exact Hne.
  rewrite IH by exact Hk. reflexivity.
Qed.

Lemma dict_of_pairs_nodup pairs : NoDup (map fst pairs) -> dict_of_pairs pairs = pairs.
Proof.
  unfold dict_of_pairs.
  assert (H : forall acc, NoDup (map fst (acc ++ pairs)) ->
                foldl (fun d kv => dict_set (fst kv) (snd kv) d) acc pairs = acc ++ pairs).
  { induction pairs as [|[k v] pairs IH]; intros acc Hnd; [rewrite app_nil_r; reflexivity|].
    cbn [foldl fst snd]. rewrite dict_set_fresh.
    - rewrite IH; rewrite <- app_assoc; [reflexivity|exact Hnd].
    - rewrite map_app in Hnd. apply NoDup_app in Hnd as (_ & Hd & _).
      intros Hin. apply (Hd k Hin). simpl. left. }
  intros Hnd. apply (H []). exact Hnd.
Qed.

Lemma object_items_dumps pairs rest :
  pairs <> [] ->
  Forall (fun kv => is_text (fst kv) /\ representable (snd kv) /\ reads_back (snd kv)) pairs ->
  exists f0, forall fuel, (f0 <= fuel)%nat ->
    object_items fuel (join [44; 32] (map dumps_pair pairs) ++ 125 :: rest)
    = Ok (pairs, rest).
Proof.
  intros Hne Hall. induction Hall as [|[k x] pairs (Hk & Hx & Rx) Hall IH]; [contradiction|].
  clear Hne. cbn [fst snd] in *.
  assert (Hkey : forall fuel tail,
             object_items (S fuel)
               (dumps_pair (k, x) ++ tail)
             = (v <- scan_once fuel (dumps x ++ tail) ;;;
                match skip_ws (snd v) with
                | [] => Raise (JSONDecodeError "Expecting ',' delimiter")
                | c :: s4 =>
                    if c =? 125 then Ok ([(k, fst v)], s4)
                    else if c =? 44 then
                      r <- object_items fuel (skip_ws s4) ;;;
                      Ok ((k, fst v) :: fst r, snd r)
                    else Raise (JSONDecodeError "Expecting ',' delimiter")
                end)).
  { intros fuel tail. unfold dumps_pair, encode_basestring_ascii. cbn [fst snd].
    rewrite <- !app_assoc. cbn [app object_items next_is].
    change (34 =? 34) with true. cbv iota.
    rewrite scanstring_encode by exact Hk. cbn [bind fst snd skip_ws].
    change (is_ws 58) with false. cbv iota. cbn [next_is].
    change (58 =? 58) with true. cbv iota. cbn [skip_ws].
    change (is_ws 32) with true. cbv iota.
    rewrite skip_ws_dumps by exact Hx. reflexivity. }
  destruct pairs as [|[k2 y] more].
  - destruct (Rx (125 :: rest)) as [f0 Hf0]; [simpl; repeat split; discriminate|].
    exists (S f0). intros [|f] Hf; [lia|].
    cbn [map join]. rewrite Hkey, Hf0 by lia. reflexivity.
  - destruct IH as [f1 Hf1]; [discriminate|].
    destruct (Rx (44 :: 32 :: join [44; 32] (map dumps_pair ((k2, y) :: more)) ++ 125 :: rest))
      as [f0 Hf0]; [simpl; repeat split; discriminate|].
    exists (S (Nat.max f0 f1)). intros [|f] Hf; [lia|].
    change (join [44; 32] (map dumps_pair ((k, x) :: (k2, y) :: more)))
      with (dumps_pair (k, x) ++ [44; 32] ++ join [44; 32] (map dumps_pair ((k2, y) :: more))).
    rewrite <- !app_assoc. rewrite Hkey. cbn [app].
    rewrite Hf0 by lia. cbn [bind fst snd skip_ws].
    change (is_ws 44) with false. cbv iota.
    change (44 =? 125) with false. change (44 =? 44) with true. cbv iota.
    cbn [skip_ws]. change (is_ws 32) with true. cbv iota.
    assert (Hq : exists t, join [44; 32] (map dumps_pair ((k2, y) :: more)) = 34 :: t).
    { destruct more; eexists; cbn [map join dumps_pair encode_basestring_ascii app fst];
        reflexivity. }
    destruct Hq as [t Et]. rewrite Et. cbn [app skip_ws].
    change (is_ws 34) with false. cbv iota.
    change (34 :: t ++ 125 :: rest) with ((34 :: t) ++ 125 :: rest).
    rewrite <- Et, Hf1 by lia. reflexivity.
Qed.

Lemma scan_once_dumps v : representable v -> reads_back v.
Proof.
  induction v as [ | b | n | lit | s | items IH | pairs IH] using json_induction;
    intros Hv rest Hrest.
  - exists 1%nat. intros [|f] Hf; [lia|]. reflexivity.
  - exists 1%nat. intros [|f] Hf; [lia|]. destruct b; reflexivity.
  - exists 1%nat. intros [|f] Hf; [lia|]. apply scan_once_int. exact Hrest.
  - exists 1%nat. intros [|f] Hf; [lia|]. apply scan_once_float; assumption.
  - exists 1%nat. intros [|f] Hf; [lia|]. apply scan_once_string. exact Hv.
  - apply representable_array in Hv.
    destruct items as [|x items].
    + exists 1%nat. intros [|f] Hf; [lia|]. reflexivity.
    + destruct (array_items_dumps (x :: items) rest) as [f0 Hf0]; [discriminate| |].
      { apply Forall_forall. intros y Hy. split.
        - rewrite Forall_forall in Hv. apply Hv, Hy.
        - rewrite Forall_forall in IH, Hv. apply IH; [exact Hy|apply Hv, Hy]. }
      exists (S f0). intros [|f] Hf; [lia|].
      apply Forall_cons in Hv as [Hx _].
      destruct (join_dumps_head [44; 32] x items) as [tail Etail].
      cbn [dumps]. rewrite <- !app_assoc. cbn [app scan_once].
      change (91 =? 34) with false. change (91 =? 123) with false.
      change (91 =? 91) with true. cbv iota.
      destruct (dumps_head x Hx) as (c & t & Ec & Hc).
      assert (Hs : skip_ws (join [44; 32] (map dumps (x :: items)) ++ 93 :: rest)
                   = join [44; 32] (map dumps (x :: items)) ++ 93 :: rest).
      { rewrite Etail, <- app_assoc. apply skip_ws_dumps. exact Hx. }
      rewrite Hs.
      assert (Hn : next_is 93 (join [44; 32] (map dumps (x :: items)) ++ 93 :: rest) = None).
      { rewrite Etail, Ec. cbn [app next_is].
        destruct Hc as (_ & Hc & _). apply Z.eqb_neq in Hc. rewrite Hc. reflexivity. }
      rewrite Hn, Hf0 by lia. reflexivity.
  - apply representable_object in Hv as [Hnd Hv].
    destruct pairs as [|kv pairs].
    + exists 1%nat. intros [|f] Hf; [lia|]. reflexivity.
    + destruct (object_items_dumps (kv :: pairs) rest) as [f0 Hf0]; [discriminate| |].
      { apply Forall_forall. intros y Hy.
        rewrite Forall_forall in Hv. destruct (Hv y Hy) as [H1 H2].
        repeat split; auto.
        rewrite Forall_forall in IH. apply (IH y Hy H2). }
      exists (S f0). intros [|f] Hf; [lia|].
      cbn [dumps].
      change (map (fun kv0 => encode_basestring_ascii (fst kv0) ++ [58; 32] ++ dumps (snd kv0))
                  (kv :: pairs)) with (map dumps_pair (kv :: pairs)).
      rewrite <- !app_assoc. cbn [app scan_once].
      change (123 =? 34) with false. change (123 =? 123) with true. cbv iota.
      assert (Hq : exists t, join [44; 32] (map dumps_pair (kv :: pairs)) = 34 :: t).
      { destruct pairs; eexists; cbn [map join dumps_pair encode_basestring_ascii app fst];
          reflexivity. }
      destruct Hq as [t Et].
      assert (Hs : skip_ws (join [44; 32] (map dumps_pair (kv :: pairs)) ++ 125 :: rest)
                   = join [44; 32] (map dumps_pair (kv :: pairs)) ++ 125 :: rest).
      { rewrite Et. reflexivity. }
      rewrite Hs.
      assert (Hn : next_is 125 (join [44; 32] (map dumps_pair (kv :: pairs)) ++ 125 :: rest)
                   = None).
      { rewrite Et. reflexivity. }
      rewrite Hn, Hf0 by lia. cbn [bind fst snd].
      rewrite dict_of_pairs_nodup by exact Hnd. reflexivity.
Qed.

(** [json.loads(json.dumps(v)) == v] for representable data. *)
Lemma loads_dumps v : representable v -> loads (dumps v) = Ok v.
Proof.
  intros Hv. unfold loads.
  destruct (dumps_head v Hv) as (c & t & Ec & Hc).
  assert (Hb : strip_prefix [65279] (dumps v) = None).
  { rewrite Ec. apply strip_prefix_head. destruct Hc as (_ & _ & _ & Hc).
    intros E. apply Hc. symmetry. exact E. }
  rewrite Hb.
  assert (Hs : skip_ws (dumps v) = dumps v).
  { rewrite Ec. apply skip_ws_start. exact Hc. }
  rewrite Hs.
  destruct (scan_once_dumps v Hv [] I) as [f0 Hf0].
  rewrite app_nil_r in Hf0.
  rewrite (scan_once_fuel_indep f0 _ (dumps v) v [] (Hf0 f0 (le_n _))).
  - reflexivity.
  - pose proof (proj1 (scan_fuel_enough (2 * length (dumps v) + 2)) (dumps v) ltac:(lia)) as H.
    intros E. rewrite E in H. destruct H as [m Hm]. discriminate Hm.
Qed.

(** ** The text of [dumps] is ASCII, and UTF-8 is the identity on ASCII *)

Lemma ascii_text_app a b : ascii_text a -> ascii_text b -> ascii_text (a ++ b).
Proof. unfold ascii_text. intros. apply Forall_app; auto. Qed.

Lemma ascii_text_cons c s : 0 <= c < 128 -> ascii_text s -> ascii_text (c :: s).
Proof. unfold ascii_text. intros. apply List.Forall_cons; auto. Qed.

Lemma ascii_text_nil : ascii_text [].
Proof. apply List.Forall_nil. Qed.

Lemma digits_ascii ds : digits ds -> ascii_text ds.
Proof.
  unfold digits, ascii_text. intros H. eapply Forall_impl; [exact H|].
  intros c Hc. apply digit_range in Hc. lia.
Qed.

Lemma hex_digit_ascii d : 0 <= d < 16 -> 0 <= hex_digit d < 128.
Proof.
  intros Hd. unfold hex_digit. destruct (d <? 10); lia.
Qed.

Lemma u_escape_ascii n : ascii_text (u_escape n).
Proof.
  unfold u_escape, hex4. cbn [map app].
  repeat (apply ascii_text_cons;
          [first [lia | apply hex_digit_ascii, Z.mod_pos_bound; lia]|]).
  apply ascii_text_nil.
Qed.

Lemma escape_char_ascii c : ascii_text (escape_char c).
Proof.
  unfold escape_char.
  repeat match goal with
  | |- context [if ?b then _ else _] => destruct b eqn:?
  end;
  try (repeat (apply ascii_text_cons; [lia|]); apply ascii_text_nil);
  try apply u_escape_ascii;
  try (apply ascii_text_app; apply u_escape_ascii).
Qed.

Lemma encode_basestring_ascii_text s : ascii_text (encode_basestring_ascii s).
Proof.
  unfold encode_basestring_ascii.
  apply ascii_text_cons; [lia|]. apply ascii_text_app.
  - induction s as [|c s IH]; [apply ascii_text_nil|].
    cbn [flat_map]. apply ascii_text_app; [apply escape_char_ascii|exact IH].
  - apply ascii_text_cons; [lia|apply ascii_text_nil].
Qed.

Lemma str_of_int_ascii n : ascii_text (str_of_int n).
Proof.
  unfold str_of_int. destruct (n <? 0).
  - apply ascii_text_cons; [lia|]. apply digits_ascii, uint_codes_digits.
  - apply digits_ascii, uint_codes_digits.
Qed.

Lemma float_literal_ascii lit : float_literal lit -> ascii_text lit.
Proof.
  intros (sign & int & frac & exp & -> & [Hs Hi] & Hf & He & _).
  repeat apply ascii_text_app.
  - destruct Hs as [->| ->]; [apply ascii_text_nil|].
    apply ascii_text_cons; [lia|apply ascii_text_nil].
  - destruct Hi as [->|(c & ds & -> & Hc & _ & Hd)].
    + apply ascii_text_cons; [lia|apply ascii_text_nil].
    + apply digit_range in Hc. apply ascii_text_cons; [lia|apply digits_ascii, Hd].
  - destruct Hf as [->|(d & ds & -> & Hd & Hds)]; [apply ascii_text_nil|].
    apply digit_range in Hd.
    apply ascii_text_cons; [lia|]. apply ascii_text_cons; [lia|apply digits_ascii, Hds].
  - destruct He as [->|(e & sgn & d & ds & -> & He & Hs' & Hd & Hds)]; [apply ascii_text_nil|].
    apply digit_range in Hd.
    apply ascii_text_cons; [destruct He as [->| ->]; lia|].
    apply ascii_text_app.
    + destruct Hs' as [->|[->| ->]]; [apply ascii_text_nil| |];
        (apply ascii_text_cons; [lia|apply ascii_text_nil]).
    + apply ascii_text_cons; [lia|apply digits_ascii, Hds].
Qed.

Lemma join_ascii sep parts :
  ascii_text sep -> Forall ascii_text parts -> ascii_text (join sep parts).
Proof.
  intros Hsep Hparts. induction Hparts as [|p parts Hp Hparts IH]; [apply ascii_text_nil|].
  destruct parts as [|q parts]; [exact Hp|].
  change (join sep (p :: q :: parts)) with (p ++ sep ++ join sep (q :: parts)).
  repeat apply ascii_text_app; auto.
Qed.

Lemma dumps_ascii v : representable v -> ascii_text (dumps v).
Proof.
  assert (Hsep : ascii_text [44; 32]).
  { repeat (apply ascii_text_cons; [lia|]). apply ascii_text_nil. }
  induction v as [ | b | n | lit | s | items IH | pairs IH] using json_induction;
    intros Hv; cbn [dumps].
  - cbv [py].
    repeat (apply ascii_text_cons; [vm_compute; split; [discriminate|reflexivity]|]).
    apply ascii_text_nil.
  - destruct b; cbv [py];
      repeat (apply ascii_text_cons; [vm_compute; split; [discriminate|reflexivity]|]);
      apply ascii_text_nil.
  - apply str_of_int_ascii.
  - apply float_literal_ascii. exact Hv.
  - apply encode_basestring_ascii_text.
  - apply representable_array in Hv.
    apply ascii_text_cons; [lia|]. apply ascii_text_app.
    + apply join_ascii; [exact Hsep|]. apply Forall_map.
      rewrite Forall_forall in IH, Hv |- *. intros x Hx. apply IH; auto.
    + apply ascii_text_cons; [lia|apply ascii_text_nil].
  - apply representable_object in Hv as [_ Hv].
    apply ascii_text_cons; [lia|]. apply ascii_text_app.
    + apply join_ascii; [exact Hsep|]. apply Forall_map.
      rewrite Forall_forall in IH, Hv |- *. intros kv Hkv. cbn beta.
      apply ascii_text_app; [apply encode_basestring_ascii_text|].
      apply ascii_text_cons; [lia|]. apply ascii_text_cons; [lia|].
      apply IH; [exact Hkv|apply Hv, Hkv].
    + apply ascii_text_cons; [lia|apply ascii_text_nil].
Qed.

Lemma utf8_encode_ascii s : ascii_text s -> utf8_encode s = Ok s.
Proof.
  induction 1 as [|c s Hc _ IH]; [reflexivity|].
  cbn [utf8_encode]. unfold encode_char.
  destruct (Z.ltb_spec c 128); [|lia]. cbn [bind]. rewrite IH. reflexivity.
Qed.

Lemma utf8_decode_ascii s : ascii_text s -> utf8_decode s = Ok s.
Proof.
  induction 1 as [|c s Hc _ IH]; [reflexivity|].
  cbn [utf8_decode]. destruct (Z.ltb_spec c 128); [|lia]. rewrite IH. reflexivity.
Qed.

Lemma bytes_of_ascii s : ascii_text s -> map byte_val (map byte_of_Z s) = s.
Proof.
  induction 1 as [|c s Hc _ IH]; [reflexivity|].
  cbn [map]. rewrite IH, byte_val_of_Z, Z.mod_small by lia. reflexivity.
Qed.

Lemma decode_encode_ascii s :
  ascii_text s ->
  str_encode s = Ok (map byte_of_Z s) /\ bytes_decode (map byte_of_Z s) = Ok s.
Proof.
  intros Hs. unfold str_encode, bytes_decode.
  rewrite utf8_encode_ascii, bytes_of_ascii, utf8_decode_ascii by exact Hs.
  split; reflexivity.
Qed.

(** ** The codec round trip *)

Lemma message_object_representable m :
  representable_message m ->
  representable (JObject [(py "source", source m); (py "type", type m); (py "data", data m)]).
Proof.
  intros (Hs & Ht & Hd). apply representable_object. split.
  - cbn [map fst]. apply (bool_decide_unpack _). vm_compute. exact I.
  - repeat (apply List.Forall_cons; [cbn [fst snd]; split; [solve_text|assumption]|]).
    apply List.Forall_nil.
Qed.

Lemma from_string_to_json m : representable_message m -> from_string (to_json m) = Ok m.
Proof.
  intros Hm. unfold from_string, to_json.
  rewrite loads_dumps by (apply message_object_representable; exact Hm).
  destruct m as [s t d]. reflexivity.
Qed.

(** C2: for every Message whose fields are JSON-representable,
    [encode] succeeds and [from_bytes] of the encoding is a Message with
    the same source, type and data. *)
Theorem message_roundtrip (m : Message) :
  representable_message m ->
  exists bs, encode m = Ok bs /\
    exists m', from_bytes bs = Ok m' /\
      source m' = source m /\ type m' = type m /\ data m' = data m.
Proof.
  intros Hm.
  assert (Ha : ascii_text (to_json m)).
  { apply dumps_ascii, message_object_representable, Hm. }
  destruct (decode_encode_ascii (to_json m) Ha) as [He Hd].
  exists (map byte_of_Z (to_json m)). split; [exact He|].
  exists m. split; [|auto].
  unfold from_bytes. rewrite Hd. cbn [bind].
  rewrite from_string_to_json by exact Hm. reflexivity.
Qed.

Lemma message_roundtrip_witness :
  exists bs,
    encode (mkMessage (JString (py "rover")) (JString (py "publish"))
              (JObject [(py "topic", JString (py "rover/blarg"));
                        (py "data", JArray [JInt (-27); JFloat (py "2.5e-3"); JNull])]))
    = Ok bs /\
    exists m', from_bytes bs = Ok m' /\
      data m' = JObject [(py "topic", JString (py "rover/blarg"));
                         (py "data", JArray [JInt (-27); JFloat (py "2.5e-3"); JNull])].
Proof.
  destruct (message_roundtrip
    (mkMessage (JString (py "rover")) (JString (py "publish"))
       (JObject [(py "topic", JString (py "rover/blarg"));
                 (py "data", JArray [JInt (-27); JFloat (py "2.5e-3"); JNull])])))
    as (bs & He & m' & Hd & _ & _ & Hdata).
  - split; [|split]; cbn [source type data representable].
    + solve_text.
    + solve_text.
    + split.
      * apply (bool_decide_unpack _). vm_compute. exact I.
      * cbn [fold_right fst snd representable]. repeat split; try solve_text.
        exists [], [50], [46; 53], [101; 45; 51]. split; [reflexivity|].
        split; [split; [left; reflexivity|right; exists 50, [];
                  repeat split; [discriminate|apply List.Forall_nil]]|].
        split; [right; exists 53, []; repeat split; apply List.Forall_nil|].
        split; [right; exists 101, [45], 51, []; repeat split; auto; apply List.Forall_nil|].
        left. discriminate.
  - exists bs. split; [exact He|]. exists m'. split; [exact Hd|exact Hdata].
Defined.

(** ** The errors of [from_bytes] *)

Lemma utf8_decode_error bs e : utf8_decode bs = Raise e -> e = UnicodeDecodeError.
Proof.
  remember (length bs) as n eqn:Hn. revert bs Hn e.
  induction n as [n IH] using lt_wf_ind. intros bs Hn e.
  assert (Hrec : forall t (c : Z) e',
             (length t < length bs)%nat ->
             (rest <- utf8_decode t ;;; Ok (c :: rest)) = Raise e' ->
             e' = UnicodeDecodeError).
  { intros t c e' Ht. destruct (utf8_decode t) eqn:E; [discriminate|].
    intros [= <-]. apply (IH (length t)) with (bs := t); [lia|reflexivity|exact E]. }
  destruct bs as [|b0 t0]; [discriminate|]. cbn [utf8_decode].
  destruct (b0 <? 128); [apply Hrec; simpl; lia|].
  destruct (in_range 194 223 b0).
  { destruct t0 as [|b1 t1]; [intros [= <-]; reflexivity|].
    destruct (is_cont b1); [apply Hrec; simpl; lia|intros [= <-]; reflexivity]. }
  destruct (in_range 224 239 b0).
  { destruct t0 as [|b1 [|b2 t2]]; try (intros [= <-]; reflexivity).
    destruct (_ && _); [apply Hrec; simpl; lia|intros [= <-]; reflexivity]. }
  destruct (in_range 240 244 b0).
  { destruct t0 as [|b1 [|b2 [|b3 t3]]]; try (intros [= <-]; reflexivity).
    destruct (_ && _); [apply Hrec; simpl; lia|intros [= <-]; reflexivity]. }
  intros [= <-]. reflexivity.
Qed.

Lemma bytes_decode_error bs e : bytes_decode bs = Raise e -> e = UnicodeDecodeError.
Proof. apply utf8_decode_error. Qed.

Lemma any_missing_container packet keys :
  is_container packet = true -> exists b, any_missing packet keys = Ok b.
Proof.
  intros Hc. induction keys as [|k keys [b IH]]; [exists false; reflexivity|].
  cbn [any_missing].
  assert (Hk : exists b0, contains packet k = Ok b0).
  { destruct packet; try discriminate; eexists; reflexivity. }
  destruct Hk as [b0 ->]. cbn [bind]. destruct b0; cbn [negb]; eauto.
Qed.

Lemma any_missing_scalar packet k keys :
  is_container packet = false -> any_missing packet (k :: keys) = Raise TypeError.
Proof.
  destruct packet; try discriminate; reflexivity.
Qed.

Lemma any_missing_object d :
  any_missing (JObject d) required_keys = Ok false ->
  exists s t x, dict_get (py "source") d = Some s /\ dict_get (py "type") d = Some t /\
                dict_get (py "data") d = Some x.
Proof.
  unfold required_keys. cbn [any_missing contains bind].
  destruct (dict_get (py "source") d) as [s|];
    [rewrite bool_decide_eq_true_2 by eauto|rewrite bool_decide_eq_false_2 by (intros [? ?]; discriminate)];
    cbn [negb]; [|discriminate].
  destruct (dict_get (py "type") d) as [t|];
    [rewrite bool_decide_eq_true_2 by eauto|rewrite bool_decide_eq_false_2 by (intros [? ?]; discriminate)];
    cbn [negb]; [|discriminate].
  destruct (dict_get (py "data") d) as [x|];
    [rewrite bool_decide_eq_true_2 by eauto|rewrite bool_decide_eq_false_2 by (intros [? ?]; discriminate)];
    cbn [negb]; [|discriminate].
  intros _. exists s, t, x. auto.
Qed.

(** What [from_string] does once [loads] has returned [packet]. *)
Lemma from_string_packet s packet :
  loads s = Ok packet ->
  (is_container packet = false /\ from_string s = Raise TypeError) \/
  (is_container packet = true /\ any_missing packet required_keys = Ok true /\
   from_string s = Raise (ValueError "Improperly formatted message.")) \/
  (is_container packet = true /\ any_missing packet required_keys = Ok false /\
   ((exists d, packet = JObject d /\ exists m, from_string s = Ok m) \/
    ((forall d, packet <> JObject d) /\ from_string s = Raise TypeError))).
Proof.
  intros Hl. unfold from_string. rewrite Hl. fold required_keys.
  destruct (is_container packet) eqn:Hc.
  - right. destruct (any_missing_container packet required_keys Hc) as [[|] Hb];
      rewrite Hb; cbn [bind].
    + left. auto.
    + right. split; [reflexivity|]. split; [reflexivity|].
      destruct packet as [ | | | | str | items | d]; try discriminate.
      * right. split; [intros d; discriminate|reflexivity].
      * right. split; [intros d; discriminate|reflexivity].
      * left. exists d. split; [reflexivity|].
        destruct (any_missing_object d Hb) as (sv & tv & xv & Hs & Ht & Hx).
        cbn [getitem]. rewrite Hs, Ht, Hx. cbn [bind]. eauto.
  - left. split; [reflexivity|].
    unfold required_keys. rewrite any_missing_scalar by exact Hc. reflexivity.
Qed.

(** C10: [from_bytes] raises [ValueError] exactly for input that is not
    UTF-8, for text that [json.loads] rejects, and for a parsed object,
    array or string on which the membership test finds a required key
    missing; whenever the parsed value is none of these (null, a boolean or
    a number), as for b"5" and b"true", the membership test raises
    [TypeError] instead. *)
Theorem from_bytes_error_taxonomy (bs : list byte) :
  ((exists msg, from_bytes bs = Raise (ValueError msg)) <->
   (bytes_decode bs = Raise UnicodeDecodeError \/
    (exists s m, bytes_decode bs = Ok s /\ loads s = Raise (JSONDecodeError m)) \/
    (exists s packet, bytes_decode bs = Ok s /\ loads s = Ok packet /\
       is_container packet = true /\ any_missing packet required_keys = Ok true))) /\
  (forall s packet, bytes_decode bs = Ok s -> loads s = Ok packet ->
     is_container packet = false -> from_bytes bs = Raise TypeError) /\
  from_bytes (bytes_of "5") = Raise TypeError /\
  from_bytes (bytes_of "true") = Raise TypeError.
Proof.
  split; [|split; [|split; vm_compute; reflexivity]].
  - unfold from_bytes.
    destruct (bytes_decode bs) as [s|e] eqn:Hd.
    + cbn [bind]. destruct (loads s) as [packet|e] eqn:Hl.
      * assert (Hback : forall P : Prop,
                  (is_container packet = false \/ any_missing packet required_keys = Ok false) ->
                  (@Ok pystr s = Raise UnicodeDecodeError \/
                   (exists s0 m, Ok s = Ok s0 /\ loads s0 = Raise (JSONDecodeError m)) \/
                   (exists s0 p, Ok s = Ok s0 /\ loads s0 = Ok p /\
                      is_container p = true /\ any_missing p required_keys = Ok true)) -> P).
        { intros P Hno [H|[(s0 & m0 & Hs0 & H)|(s0 & p & Hs0 & Hl' & Hc' & Hm')]].
          - discriminate H.
          - injection Hs0 as <-. congruence.
          - injection Hs0 as <-. rewrite Hl in Hl'. injection Hl' as <-.
            destruct Hno; congruence. }
        destruct (from_string_packet s packet Hl)
          as [[Hc Hf]|[(Hc & Hm & Hf)|(Hc & Hm & [(d & _ & m & Hf)|[_ Hf]])]];
          rewrite Hf; split.
        -- intros [msg H]. discriminate H.
        -- apply Hback. auto.
        -- intros _. right. right. exists s, packet. auto.
        -- intros _. eauto.
        -- intros [msg H]. discriminate H.
        -- apply Hback. auto.
        -- intros [msg H]. discriminate H.
        -- apply Hback. auto.
      * destruct (loads_error s e Hl) as [m ->].
        unfold from_string. rewrite Hl. split; [|eauto].
        intros _. right. left. exists s, m. auto.
    + apply bytes_decode_error in Hd as Hu. subst e. cbn [bind]. split; [auto|eauto].
  - intros s packet Hd Hl Hc. unfold from_bytes. rewrite Hd. cbn [bind].
    destruct (from_string_packet s packet Hl) as [[_ Hf]|[(Hc' & _)|(Hc' & _)]];
      [rewrite Hf; reflexivity|congruence|congruence].
Qed.

(** C3, at the input b"5": the bytes are UTF-8, the text is valid JSON and
    the parsed value has none of the required fields, yet [from_bytes]
    raises [TypeError], not [ValueError]. *)
Theorem from_bytes_scalar_type_error :
  bytes_decode (bytes_of "5") = Ok (py "5") /\
  loads (py "5") = Ok (JInt 5) /\
  (forall k, ~ has_field (JInt 5) k) /\
  from_bytes (bytes_of "5") = Raise TypeError /\
  (forall msg, from_bytes (bytes_of "5") <> Raise (ValueError msg)).
Proof.
  split; [vm_compute; reflexivity|]. split; [vm_compute; reflexivity|].
  split; [intros k (d & v & H & _); discriminate H|].
  assert (H : from_bytes (bytes_of "5") = Raise TypeError) by (vm_compute; reflexivity).
  split; [exact H|]. intros msg. rewrite H. discriminate.
Qed.

(** ** Shell patterns *)

Example fnmatch_examples :
  fnmatchcase (py "rover/blarg") (py "rover/*") = true /\
  fnmatchcase (py "tester/blarg") (py "rover/*") = false /\
  fnmatchcase (py "rover/blarg") (py "*/blarg") = true /\
  fnmatchcase (py "rover/a/b") (py "rover/*") = true /\
  fnmatchcase (py "rover/x1") (py "rover/[a-z]?") = true /\
  fnmatchcase (py "rover/x1") (py "rover/[!a-z]?") = false /\
  fnmatchcase (py "a[b") (py "a[b") = true /\
  fnmatchcase (py "") (py "*") = true.
Proof. vm_compute. repeat split; reflexivity. Qed.

(** ** Dispatch of publish and send messages *)

Lemma log_list_nil s : log_list [] s = s.
Proof. destruct s. unfold log_list. cbn. rewrite app_nil_r. reflexivity. Qed.

Lemma log_log_list e es s : log e (log_list es s) = log_list (es ++ [e]) s.
Proof. unfold log, log_list. cbn. rewrite app_assoc. reflexivity. Qed.

Lemma log_list_log e es s : log_list es (log e s) = log_list (e :: es) s.
Proof. unfold log, log_list. cbn. rewrite <- app_assoc. reflexivity. Qed.

Lemma log_list_app es1 es2 s : log_list es2 (log_list es1 s) = log_list (es1 ++ es2) s.
Proof. unfold log_list. cbn. rewrite app_assoc. reflexivity. Qed.

Lemma dispatch_subscriptions_spec t d subs s :
  dispatch_subscriptions (JString t) d subs s = (Ok tt, log_list (spawns t d subs) s).
Proof.
  revert s. induction subs as [|[key h] subs IH]; intros s.
  - cbn. rewrite log_list_nil. reflexivity.
  - cbn [dispatch_subscriptions fnmatch spawns flat_map fst snd].
    destruct (fnmatchcase t key).
    + rewrite IH. rewrite log_list_log. reflexivity.
    + rewrite IH. reflexivity.
Qed.

Lemma run_callbacks_spec msg cbs s :
  exists k r,
    run_callbacks msg cbs s = (r, log_list (awaits msg (take k cbs)) s) /\
    (k <= length cbs)%nat /\
    (Forall (fun cb => exists u, cb_run cb msg = Ok u) cbs -> r = Ok tt /\ k = length cbs).
Proof.
  revert s. induction cbs as [|cb cbs IH]; intros s.
  - exists 0%nat, (Ok tt). cbn. rewrite log_list_nil. auto.
  - cbn [run_callbacks]. destruct (cb_run cb msg) as [u|e] eqn:E.
    + destruct (IH (log (Await (cb_id cb) msg) s)) as (k & r & Hrun & Hk & Hall).
      exists (S k), r. rewrite Hrun. cbn [take awaits map]. rewrite log_list_log.
      split; [reflexivity|]. split; [simpl; lia|].
      intros HF. apply Forall_cons in HF as [_ HF]. destruct (Hall HF) as [-> ->]. auto.
    + exists 1%nat, (Raise e). cbn [take awaits map]. rewrite take_0.
      split; [reflexivity|]. split; [simpl; lia|].
      intros HF. apply Forall_cons in HF as [[u Hu] _]. congruence.
Qed.

Lemma publish_callback_spec other msg s t d :
  getitem (data msg) (py "topic") = Ok (JString t) ->
  getitem (data msg) (py "data") = Ok d ->
  exists k r,
    _publish_callback other msg s
    = (r, log_list (spawns t d (_subscriptions s)
                    ++ awaits msg (take k (message_callbacks s))) s) /\
    (k <= length (message_callbacks s))%nat /\
    (Forall (fun cb => exists u, cb_run cb msg = Ok u) (message_callbacks s) ->
     r = Ok tt /\ k = length (message_callbacks s)).
Proof.
  intros Ht Hd. unfold _publish_callback. rewrite Ht, Hd, dispatch_subscriptions_spec.
  destruct (run_callbacks_spec msg (message_callbacks s)
              (log_list (spawns t d (_subscriptions s)) s)) as (k & r & Hrun & Hk & Hall).
  exists k, r. cbn [message_callbacks log_list] in *. rewrite Hrun, log_list_app. auto.
Qed.

(** C9: [_send_callback] and [_publish_callback] are the same function of
    the router's state and the message; on a message with a string topic
    it creates one task per subscription whose pattern matches the topic,
    then awaits the general callbacks in order with the message itself
    (all of them when none raises, otherwise up to the one that raises). *)
Theorem send_callback_is_publish_callback other msg s :
  _send_callback other msg s = _publish_callback other msg s /\
  (forall t d,
     getitem (data msg) (py "topic") = Ok (JString t) ->
     getitem (data msg) (py "data") = Ok d ->
     exists k r,
       _send_callback other msg s
       = (r, log_list (spawns t d (_subscriptions s)
                       ++ awaits msg (take k (message_callbacks s))) s) /\
       (k <= length (message_callbacks s))%nat /\
       (Forall (fun cb => exists u, cb_run cb msg = Ok u) (message_callbacks s) ->
        r = Ok tt /\ k = length (message_callbacks s))).
Proof.
  split; [reflexivity|].
  intros t d Ht Hd. change (_send_callback other msg s) with (_publish_callback other msg s).
  apply publish_callback_spec; assumption.
Qed.

(** C6: the pattern of a subscription is matched, as a shell pattern,
    against the whole topic of the message, which the publisher makes as
    its name, a slash and the topic published; "rover/*" matches
    "rover/blarg" and not "tester/blarg"; one incoming publish creates one
    task per subscription whose pattern matches, none for the others; with
    the subscriptions "rover/*" and "*/blarg" and the topic "rover/blarg"
    each of the two handlers gets exactly one task. *)
Theorem topic_dispatch :
  fnmatchcase (py "rover/blarg") (py "rover/*") = true /\
  fnmatchcase (py "tester/blarg") (py "rover/*") = false /\
  (forall format_other topic d s,
     publish format_other (JString topic) d s
     = cast (py "publish")
         (JObject [(py "topic", JString (name s ++ py "/" ++ topic)); (py "data", d)]) s) /\
  (forall other msg s t d,
     getitem (data msg) (py "topic") = Ok (JString t) ->
     getitem (data msg) (py "data") = Ok d ->
     exists k r,
       _publish_callback other msg s
       = (r, log_list (spawns t d (_subscriptions s)
                       ++ awaits msg (take k (message_callbacks s))) s)) /\
  (forall t d key h,
     spawns t d [(key, h)]
     = if fnmatchcase t key then [CreateTask h (JString t) d] else []) /\
  (forall t d subs1 subs2, spawns t d (subs1 ++ subs2) = spawns t d subs1 ++ spawns t d subs2) /\
  (forall other src nm u,
     let s := subscribe (py "*/blarg") 2%nat (subscribe (py "rover/*") 1%nat (Router nm u)) in
     let msg := mkMessage src (JString (py "publish"))
                  (JObject [(py "topic", JString (py "rover/blarg")); (py "data", JInt 27)]) in
     _publish_callback other msg s
     = (Ok tt, log_list [CreateTask 1%nat (JString (py "rover/blarg")) (JInt 27);
                         CreateTask 2%nat (JString (py "rover/blarg")) (JInt 27)] s)).
Proof.
  split; [vm_compute; reflexivity|]. split; [vm_compute; reflexivity|].
  split; [reflexivity|]. split.
  { intros other msg s t d Ht Hd.
    destruct (publish_callback_spec other msg s t d Ht Hd) as (k & r & H & _).
    exists k, r. exact H. }
  split.
  { intros t d key h. unfold spawns. cbn [flat_map fst snd]. rewrite app_nil_r. reflexivity. }
  split.
  { intros t d subs1 subs2. unfold spawns. apply flat_map_app. }
  intros other src nm u s msg.
  destruct (publish_callback_spec other msg s (py "rover/blarg") (JInt 27) eq_refl eq_refl)
    as (k & r & H & Hk & Hall).
  rewrite H. cbn [s message_callbacks subscribe set_subscriptions Router] in *.
  assert (k = 0%nat) as -> by (simpl in Hk; lia).
  destruct (Hall ltac:(apply List.Forall_nil)) as [-> _].
  reflexivity.
Qed.

(** ** The receive loop of the discovery channel *)

Lemma recv_daemon_spec c evs d :
  _recv_daemon c evs d
  = mkDaemon (created d ++ omap (created_by c) evs)
             (tracebacks d ++ omap (traceback_of c) evs)
             (exited d).
Proof.
  revert d. induction evs as [|ev evs IH]; intros d.
  - cbn. rewrite !app_nil_r. destruct d; reflexivity.
  - cbn [_recv_daemon omap list_omap].
    assert (Hc : created_by c ev
                 = match recv_daemon_body c ev with Ok o => o | Raise _ => None end)
      by reflexivity.
    assert (Ht : traceback_of c ev
                 = match recv_daemon_body c ev with Ok _ => None | Raise e => Some e end)
      by reflexivity.
    rewrite Hc, Ht.
    destruct (recv_daemon_body c ev) as [[t|]|e]; cbn [bare_except]; rewrite IH;
      cbn [created tracebacks exited]; rewrite <- ?app_assoc; reflexivity.
Qed.

Lemma recv_daemon_body_task c ev t :
  recv_daemon_body c ev = Ok (Some t) ->
  is_own c (task_msg t) = false /\
  exists ty, type (task_msg t) = JString ty /\ _callbacks c !! ty = Some (task_handler t).
Proof.
  unfold recv_daemon_body. destruct (_recv ev) as [[msg other]|e]; [|discriminate].
  cbn [bind fst snd]. unfold callbacks_get.
  destruct (to_key (type msg)) as [k|e] eqn:Ek; [|discriminate]. cbn [bind].
  destruct k as [ | n | lit | ty]; try discriminate.
  destruct (_callbacks c !! ty) as [h|] eqn:Eh; [|discriminate].
  destruct (is_own c msg) eqn:Eo; [discriminate|].
  intros [= <-]. cbn [task_msg task_handler]. split; [exact Eo|].
  exists ty. split; [|exact Eh].
  destruct (type msg); try discriminate; cbn in Ek; try destruct b; congruence.
Qed.

(** C8: the receive loop handles every event it is given and never exits
    (a failure of the receive, of the decoding or of the dispatch is
    printed and the loop goes on); every task it creates is for a message
    whose source is not the channel's own identity and whose type has a
    registered callback; a message from the channel itself, or of a type
    without a callback, is dropped without a trace. *)
Theorem recv_daemon_drops (c : caster) (evs : list recv_event) :
  let d := _recv_daemon c evs (mkDaemon [] [] None) in
  exited d = None /\
  created d = omap (created_by c) evs /\
  tracebacks d = omap (traceback_of c) evs /\
  Forall (fun t =>
            is_own c (task_msg t) = false /\
            exists ty, type (task_msg t) = JString ty /\
                       _callbacks c !! ty = Some (task_handler t))
         (created d) /\
  (forall payload other msg h,
     from_bytes payload = Ok msg -> callbacks_get c (type msg) = Ok h ->
     is_own c msg = true \/ h = None ->
     recv_daemon_body c (Datagram payload other) = Ok None).
Proof.
  cbv zeta. rewrite recv_daemon_spec. cbn [created tracebacks exited app].
  split; [reflexivity|]. split; [reflexivity|]. split; [reflexivity|]. split.
  - apply Forall_forall. intros t Ht.
    apply list_elem_of_omap in Ht as (ev & _ & Hev).
    unfold created_by in Hev.
    destruct (recv_daemon_body c ev) as [o|e] eqn:E; [|discriminate]. subst o.
    apply (recv_daemon_body_task c ev t E).
  - intros payload other msg h Hm Hh Hdrop.
    unfold recv_daemon_body, _recv. rewrite Hm. cbn [bind fst snd]. rewrite Hh. cbn [bind].
    destruct h as [h|]; [|reflexivity].
    destruct Hdrop as [-> | H]; [reflexivity|discriminate H].
Qed.

Example recv_daemon_example :
  let c := on_cast (py "publish") 7%nat (mkCaster (py "me") ∅) in
  let other := mkEndpoint (py "10.0.0.5") 4242 in
  created
    (_recv_daemon c
       [Datagram (bytes_of "{'source': 'me', 'type': 'publish', 'data': 1}") other;
        Datagram (bytes_of "not json") other;
        Datagram (bytes_of "5") other;
        Datagram (bytes_of "{'source': 'you', 'type': 'other', 'data': 2}") other;
        Datagram (bytes_of "{'source': 'you', 'type': 'publish', 'data': 3}") other]
       (mkDaemon [] [] None))
  = [mkTask 7%nat other (mkMessage (JString (py "you")) (JString (py "publish")) (JInt 3))].
Proof. vm_compute. reflexivity. Qed.

(** ** [route_message] *)

Lemma cast_spec ty d s r s' :
  cast ty d s = (r, s') ->
  (s' = s /\ exists e, r = Raise e) \/ (r = Ok tt /\ exists payload, s' = log (SendTo payload) s).
Proof.
  unfold cast. destruct (encode _) as [payload|e]; intros [= <- <-]; eauto.
Qed.

(** C7, as the code has it: [route_message] acts on a 'publish' message
    only, by publishing its topic and data again through the router's own
    [publish] (one datagram on the discovery channel, the topic prefixed
    with the router's name); for every other type, 'send', 'request' and
    'heartbeat' included, it does nothing; in no case does it change the
    peer table, the subscriptions, the tasks or the pending connections,
    create a handler task or await a callback. *)
Theorem route_message_spec format_other (msg : Message) (s : router) :
  (forall topic d,
     str_is (type msg) (py "publish") = true ->
     getitem (data msg) (py "topic") = Ok topic ->
     getitem (data msg) (py "data") = Ok d ->
     route_message format_other msg s = publish format_other topic d s) /\
  (str_is (type msg) (py "publish") = false ->
   route_message format_other msg s = (Ok tt, s)) /\
  (forall r s',
     route_message format_other msg s = (r, s') ->
     s' = s \/ exists payload, s' = log (SendTo payload) s).
Proof.
  split; [|split].
  - intros topic d Hty Ht Hd. unfold route_message. rewrite Hty, Ht, Hd. reflexivity.
  - intros Hty. unfold route_message. rewrite Hty.
    repeat match goal with |- context [if ?b then _ else _] => destruct b end; reflexivity.
  - intros r s'. unfold route_message.
    destruct (str_is (type msg) (py "publish")).
    + destruct (getitem (data msg) (py "topic")) as [topic|e]; [|intros [= <- <-]; auto].
      destruct (getitem (data msg) (py "data")) as [d|e]; [|intros [= <- <-]; auto].
      unfold publish. intros H. apply cast_spec in H as [[-> _]|[_ [payload ->]]]; eauto.
    + repeat match goal with |- context [if ?b then _ else _] => destruct b end;
        intros [= <- <-]; auto.
Qed.

(** C7 as stated fails: a 'heartbeat' message given to [route_message]
    leaves the peer table empty where the heartbeat handler adds the peer,
    and a 'send' message creates no task where the send handler creates
    one for the matching subscription. *)
Lemma route_message_counterexample :
  let s := subscribe (py "rover/*") 1%nat (Router (py "tester") (py "uuid")) in
  let other := mkEndpoint (py "10.0.0.5") 4242 in
  let hb := mkMessage (JString (py "rover")) (JString (py "heartbeat"))
              (JObject [(py "source", JString (py "rover")); (py "listen", JInt 5000)]) in
  let sent := mkMessage (JString (py "rover")) (JString (py "send"))
                (JObject [(py "topic", JString (py "rover/blarg")); (py "data", JInt 27)]) in
  (is_Some (_peers (snd (_heartbeat_callback other hb s)) !! HStr (py "rover")) /\
   _peers (snd (route_message (fun _ => []) hb s)) !! HStr (py "rover") = None) /\
  (effects (snd (_send_callback other sent s))
   = [CreateTask 1%nat (JString (py "rover/blarg")) (JInt 27)] /\
   effects (snd (route_message (fun _ => []) sent s)) = []).
Proof.
  cbv zeta. split; split.
  - eexists. vm_compute. reflexivity.
  - reflexivity.
  - vm_compute. reflexivity.
  - reflexivity.
Qed.

(** ** The heartbeat handler, step by step *)

Lemma heartbeat_callback_error other msg s e :
  heartbeat_fields msg = Raise e -> _heartbeat_callback other msg s = (Raise e, s).
Proof.
  unfold heartbeat_fields, _heartbeat_callback.
  destruct (getitem (data msg) (py "source")) as [sv|e1]; cbn [bind]; [|congruence].
  destruct (getitem (data msg) (py "listen")) as [lv|e2]; cbn [bind]; [|congruence].
  destruct (to_key sv) as [k|e3]; cbn [bind]; congruence.
Qed.

Lemma heartbeat_callback_state other msg s k l :
  heartbeat_fields msg = Ok (k, l) ->
  _heartbeat_callback other msg s
  = (Ok tt,
     mkRouter (name s) (uuid s) (now s)
       (<[k := mkPeer (Some (host other, l)) (Some (length (tasks s)))]> (_peers s))
       (tasks_after_cancel k s ++ [mkTimer k (now s + HEARTBEAT_EXPIRE) Sleeping])
       (_subscriptions s) (message_callbacks s) (_connections s)
       (_pending_connections s) (futures_after_resolve k s) (effects s)).
Proof.
  unfold heartbeat_fields, _heartbeat_callback.
  destruct (getitem (data msg) (py "source")) as [sv|e1]; cbn [bind]; [|discriminate].
  destruct (getitem (data msg) (py "listen")) as [lv|e2]; cbn [bind]; [|discriminate].
  destruct (to_key sv) as [k'|e3]; cbn [bind]; [|discriminate].
  intros [= -> ->].
  unfold tasks_after_cancel, futures_after_resolve, create_expire_task, set_result, cancel.
  destruct s as [nm u t ps ts subs cbs conns pend fs efs]. cbn.
  destruct (ps !! k) as [[lst [tid|]]|] eqn:Ep; cbn.
  - destruct (ts !! tid) as [[tn td [| |]]|] eqn:Et; cbn;
      destruct (pend !! k) as [fid|]; cbn;
      try (destruct (fs !! fid) as [[[|] n]|] eqn:Ef; cbn; rewrite ?Ef; cbn);
      rewrite ?length_insert; reflexivity.
  - destruct (pend !! k) as [fid|]; cbn;
      try (destruct (fs !! fid) as [[[|] n]|] eqn:Ef; cbn; rewrite ?Ef; cbn);
      rewrite ?insert_insert_eq; reflexivity.
  - destruct (pend !! k) as [fid|]; cbn;
      try (destruct (fs !! fid) as [[[|] n]|] eqn:Ef; cbn; rewrite ?Ef; cbn);
      rewrite ?insert_insert_eq; reflexivity.
Qed.

(** ** Runs, the clock and the last heartbeat *)

Lemma run_snoc evs ev s : run (evs ++ [ev]) s = step (run evs s) ev.
Proof. unfold run. apply foldl_snoc. Qed.

Lemma run_app evs1 evs2 s : run (evs1 ++ evs2) s = run evs2 (run evs1 s).
Proof. unfold run. apply foldl_app. Qed.

Lemma heard_clock name evs : fst (foldl (heard_step name) (0, None) evs) = clock evs.
Proof.
  unfold clock. induction evs as [|ev evs IH] using rev_ind; [reflexivity|].
  rewrite !foldl_snoc, <- IH.
  destruct ev as [other msg|dt|k|k fid]; cbn [heard_step]; try reflexivity.
  destruct (heartbeat_fields msg) as [[k l]|e]; [|reflexivity].
  destruct (bool_decide (k = name)); reflexivity.
Qed.

Lemma clock_snoc evs ev :
  clock (evs ++ [ev])
  = match ev with EvAdvance dt => clock evs + Z.of_N dt | _ => clock evs end.
Proof. unfold clock. rewrite foldl_snoc. reflexivity. Qed.

Lemma last_heard_snoc name evs ev :
  last_heard name (evs ++ [ev])
  = match ev with
    | EvHeartbeat _ msg =>
        match heartbeat_fields msg with
        | Ok (k, _) => if bool_decide (k = name) then Some (clock evs) else last_heard name evs
        | Raise _ => last_heard name evs
        end
    | _ => last_heard name evs
    end.
Proof.
  unfold last_heard. rewrite foldl_snoc.
  destruct ev as [other msg|dt|k|k fid]; cbn [heard_step snd]; try reflexivity.
  destruct (heartbeat_fields msg) as [[k l]|e]; [|reflexivity].
  destruct (bool_decide (k = name)); [|reflexivity].
  cbn [snd]. rewrite heard_clock. reflexivity.
Qed.

(** ** Expiry *)

Lemma expire_lookup name ps k :
  _heartbeat_expire name ps !! k = if bool_decide (name = k) then None else ps !! k.
Proof.
  unfold _heartbeat_expire.
  destruct (bool_decide_reflect (name = k)) as [->|Hne].
  - destruct (bool_decide_reflect (is_Some (ps !! k))) as [H|H].
    + apply lookup_delete_eq.
    + destruct (ps !! k) eqn:E; [exfalso; apply H; eauto|reflexivity].
  - destruct (bool_decide (is_Some (ps !! name))); [|reflexivity].
    apply lookup_delete_ne. exact Hne.
Qed.

Lemma foldl_expire_lookup t ts ps k :
  foldl (fun ps tm => if due t tm then _heartbeat_expire (t_name tm) ps else ps) ps ts !! k
  = if existsb (fun tm => due t tm && bool_decide (t_name tm = k)) ts then None else ps !! k.
Proof.
  revert ps. induction ts as [|tm ts IH]; intros ps; [reflexivity|].
  cbn [foldl existsb]. rewrite IH.
  destruct (existsb _ ts); [rewrite orb_true_r; reflexivity|].
  rewrite orb_false_r. destruct (due t tm); cbn [andb]; [|reflexivity].
  apply expire_lookup.
Qed.

Lemma advance_fields dt s :
  now (advance dt s) = now s + Z.of_N dt /\
  (forall k, _peers (advance dt s) !! k
             = if existsb (fun tm => due (now s + Z.of_N dt) tm && bool_decide (t_name tm = k))
                          (tasks s)
               then None else _peers s !! k) /\
  tasks (advance dt s)
  = map (fun tm => if due (now s + Z.of_N dt) tm
                   then mkTimer (t_name tm) (t_deadline tm) Finished else tm) (tasks s) /\
  _pending_connections (advance dt s) = _pending_connections s /\
  futures (advance dt s) = futures s /\
  effects (advance dt s) = effects s.
Proof.
  unfold advance. cbn. repeat split; try reflexivity.
  intros k. apply foldl_expire_lookup.
Qed.

Lemma existsb_due_true t ts k :
  existsb (fun tm => due t tm && bool_decide (t_name tm = k)) ts = true ->
  exists tid tm, ts !! tid = Some tm /\ t_state tm = Sleeping /\ t_deadline tm <= t /\
                 t_name tm = k.
Proof.
  intros H. apply existsb_exists in H as (tm & Hin & Hd).
  apply andb_prop in Hd as [Hd Hk]. apply bool_decide_eq_true in Hk.
  apply list_elem_of_In, list_elem_of_lookup in Hin as [tid Htid].
  exists tid, tm. unfold due in Hd. destruct (t_state tm); try discriminate.
  apply Z.leb_le in Hd. auto.
Qed.

Lemma existsb_due_false t ts k tid tm :
  existsb (fun tm => due t tm && bool_decide (t_name tm = k)) ts = false ->
  ts !! tid = Some tm -> t_name tm = k -> t_state tm = Sleeping -> t < t_deadline tm.
Proof.
  intros H Htid Hk Hs.
  destruct (Z.lt_ge_cases t (t_deadline tm)) as [Hlt|Hge]; [exact Hlt|].
  exfalso. assert (Ht : existsb (fun tm => due t tm && bool_decide (t_name tm = k)) ts = true).
  { apply existsb_exists. exists tm. split.
    - apply list_elem_of_In, list_elem_of_lookup. eauto.
    - unfold due. rewrite Hs. apply andb_true_intro. split.
      + apply Z.leb_le. lia.
      + apply bool_decide_eq_true. exact Hk. }
  congruence.
Qed.

(** ** Connections leave the peer table alone *)

Lemma connect_open_fields name s :
  let s' := snd (connect_open name s) in
  now s' = now s /\ _peers s' = _peers s /\ tasks s' = tasks s /\
  _pending_connections s' = _pending_connections s /\ futures s' = futures s.
Proof.
  unfold connect_open. destruct (_peers s !! name) as [[[[h pt]|] e]|]; cbn; auto.
Qed.

Lemma connect_fields name s :
  let s' := snd (connect name s) in
  now s' = now s /\ _peers s' = _peers s /\ tasks s' = tasks s.
Proof.
  unfold connect. destruct (_peers s !! name) eqn:E; [|cbn; auto].
  destruct (connect_open_fields name s) as (H1 & H2 & H3 & _). auto.
Qed.

Lemma connect_resume_fields name s :
  let s' := snd (connect_resume name s) in
  now s' = now s /\ _peers s' = _peers s /\ tasks s' = tasks s /\ futures s' = futures s.
Proof.
  unfold connect_resume. destruct (_pending_connections s !! name); [|cbn; auto].
  destruct (connect_open_fields name (set_pending (delete name (_pending_connections s)) s))
    as (H1 & H2 & H3 & _ & H5).
  cbn in *. auto.
Qed.

Lemma step_connect_fields s ev :
  match ev with EvConnect _ | EvResume _ _ => True | _ => False end ->
  now (step s ev) = now s /\ _peers (step s ev) = _peers s /\ tasks (step s ev) = tasks s.
Proof.
  destruct ev as [other msg|dt|k|k fid]; try contradiction; intros _; cbn [step].
  - apply connect_fields.
  - destruct (futures s !! fid) as [[[|] n]|]; cbn [f_done]; auto.
    destruct (connect_resume_fields k s) as (H1 & H2 & H3 & _). auto.
Qed.

(** ** The invariant of the peer table *)

Lemma tasks_after_cancel_spec k s :
  tasks_after_cancel k s = tasks s \/
  exists p tid tm,
    _peers s !! k = Some p /\ expire p = Some tid /\ tasks s !! tid = Some tm /\
    t_state tm = Sleeping /\
    tasks_after_cancel k s = <[tid := mkTimer (t_name tm) (t_deadline tm) Cancelled]> (tasks s).
Proof.
  unfold tasks_after_cancel, cancel.
  destruct (_peers s !! k) as [p|] eqn:Ep; [|auto].
  destruct (expire p) as [tid|] eqn:Ee; [|auto].
  destruct (tasks s !! tid) as [tm|] eqn:Et; [|auto].
  destruct (t_state tm) eqn:Es; cbn; auto.
  right. exists p, tid, tm. auto.
Qed.

Lemma tasks_after_cancel_length k s :
  length (tasks_after_cancel k s) = length (tasks s).
Proof.
  destruct (tasks_after_cancel_spec k s) as [->|(p & tid & tm & _ & _ & _ & _ & ->)];
    [reflexivity|apply length_insert].
Qed.

Lemma peer_inv_init nm u : peer_inv [] (Router nm u).
Proof.
  repeat split.
  - intros k p H. cbn in H. rewrite lookup_empty in H. discriminate.
  - intros tid tm H. cbn in H. discriminate.
  - intros k t _ H. discriminate.
Qed.

Lemma peer_inv_heartbeat evs s other msg k l :
  peer_inv evs s -> heartbeat_fields msg = Ok (k, l) ->
  peer_inv (evs ++ [EvHeartbeat other msg]) (step s (EvHeartbeat other msg)).
Proof.
  intros (I1 & I2 & I3 & I4) Hf. cbn [step].
  rewrite (heartbeat_callback_state other msg s k l Hf). cbn [snd].
  pose proof (tasks_after_cancel_length k s) as Hlen.
  assert (Hheard : forall k', last_heard k' (evs ++ [EvHeartbeat other msg])
                     = if bool_decide (k = k') then Some (now s) else last_heard k' evs).
  { intros k'. rewrite last_heard_snoc, Hf, I1. reflexivity. }
  (* the tasks named [k] are not asleep once the record's task is cancelled *)
  assert (Hk : forall i tm, tasks_after_cancel k s !! i = Some tm -> t_name tm = k ->
                            t_state tm <> Sleeping).
  { intros i tm Hi Hn Hs.
    destruct (tasks_after_cancel_spec k s) as [E|(p & tid & tm0 & Hp & He & Ht & Hs0 & E)];
      rewrite E in Hi.
    - destruct (I3 i tm Hi Hs) as (p & Hp & He). rewrite Hn in Hp.
      unfold tasks_after_cancel in E. rewrite Hp, He in E.
      unfold cancel in E. rewrite Hi, Hs in E. cbn in E.
      assert (Hx : <[i := mkTimer (t_name tm) (t_deadline tm) Cancelled]> (tasks s) !! i
                   = Some tm) by (rewrite E; exact Hi).
      rewrite list_lookup_insert_eq in Hx by (apply lookup_lt_Some in Hi; exact Hi).
      injection Hx as Hx. rewrite <- Hx in Hs. discriminate Hs.
    - destruct (decide (i = tid)) as [->|Hne].
      + rewrite list_lookup_insert_eq in Hi by (apply lookup_lt_Some in Ht; exact Ht).
        injection Hi as <-. discriminate Hs.
      + rewrite list_lookup_insert_ne in Hi by congruence.
        destruct (I3 i tm Hi Hs) as (p' & Hp' & He'). rewrite Hn in Hp'. congruence. }
  (* the other tasks are untouched *)
  assert (Hother : forall i tm, t_name tm <> k ->
                     tasks_after_cancel k s !! i = Some tm <-> tasks s !! i = Some tm).
  { intros i tm Hn.
    destruct (tasks_after_cancel_spec k s) as [->|(p & tid & tm0 & Hp & He & Ht & Hs0 & ->)];
      [reflexivity|].
    destruct (I2 k p Hp) as (tid' & d & lst & -> & Ht' & _). cbn in He. injection He as ->.
    rewrite Ht in Ht'. injection Ht' as ->. cbn.
    destruct (decide (i = tid)) as [->|Hne].
    - rewrite list_lookup_insert_eq by (apply lookup_lt_Some in Ht; exact Ht). rewrite Ht.
      split; intros [= <-]; cbn in Hn; congruence.
    - rewrite list_lookup_insert_ne by congruence. reflexivity. }
  unfold peer_inv. cbn [now _peers tasks]. split; [|split; [|split]].
  - rewrite clock_snoc. exact I1.
  - intros k' p Hp. rewrite Hheard.
    destruct (bool_decide_reflect (k = k')) as [<-|Hne].
    + rewrite lookup_insert_eq in Hp. injection Hp as <-.
      exists (length (tasks s)), (now s + HEARTBEAT_EXPIRE), (host other, l).
      split; [reflexivity|]. split.
      * rewrite lookup_app_r by lia. rewrite Hlen, Nat.sub_diag. reflexivity.
      * split; [f_equal; lia|unfold HEARTBEAT_EXPIRE; lia].
    + rewrite lookup_insert_ne in Hp by exact Hne.
      destruct (I2 k' p Hp) as (tid & d & lst & -> & Ht & Hh & Hd).
      exists tid, d, lst. split; [reflexivity|]. split; [|auto].
      rewrite lookup_app_l by (rewrite Hlen; apply lookup_lt_Some in Ht; exact Ht).
      apply Hother; [cbn; congruence|exact Ht].
  - intros tid tm Ht Hs.
    destruct (decide (tid < length (tasks s))%nat) as [Hlt|Hge].
    + rewrite lookup_app_l in Ht by lia.
      assert (Hn : t_name tm <> k) by (intros Hn; exact (Hk tid tm Ht Hn Hs)).
      apply Hother in Ht; [|exact Hn].
      destruct (I3 tid tm Ht Hs) as (p & Hp & He).
      exists p. rewrite lookup_insert_ne by congruence. auto.
    + rewrite lookup_app_r in Ht by lia. rewrite Hlen in Ht.
      destruct (tid - length (tasks s))%nat as [|n] eqn:En; [|destruct n; discriminate Ht].
      injection Ht as <-. cbn [t_name]. rewrite lookup_insert_eq.
      eexists. split; [reflexivity|]. cbn. f_equal. lia.
  - intros k' t Hp. rewrite Hheard.
    destruct (bool_decide_reflect (k = k')) as [<-|Hne].
    + rewrite lookup_insert_eq in Hp. discriminate Hp.
    + rewrite lookup_insert_ne in Hp by exact Hne. apply (I4 k' t Hp).
Qed.

Lemma peer_inv_advance evs s dt :
  peer_inv evs s -> peer_inv (evs ++ [EvAdvance dt]) (step s (EvAdvance dt)).
Proof.
  intros (I1 & I2 & I3 & I4). cbn [step].
  destruct (advance_fields dt s) as (Hnow & Hpeers & Htasks & _).
  set (t := now s + Z.of_N dt) in *.
  assert (Hmap : forall tid tm', tasks (advance dt s) !! tid = Some tm' ->
             exists tm, tasks s !! tid = Some tm /\
                        tm' = if due t tm then mkTimer (t_name tm) (t_deadline tm) Finished
                              else tm).
  { intros tid tm' H. rewrite Htasks, list_lookup_fmap in H.
    destruct (tasks s !! tid) as [tm|]; [|discriminate]. injection H as <-. eauto. }
  unfold peer_inv. split; [|split; [|split]].
  - rewrite clock_snoc, Hnow. unfold t. rewrite I1. reflexivity.
  - intros k p Hp. rewrite Hpeers in Hp. rewrite last_heard_snoc.
    destruct (existsb _ (tasks s)) eqn:Ex; [discriminate|].
    destruct (I2 k p Hp) as (tid & d & lst & -> & Ht & Hh & Hd).
    pose proof (existsb_due_false t (tasks s) k tid _ Ex Ht eq_refl eq_refl) as Hlt.
    cbn in Hlt.
    exists tid, d, lst. split; [reflexivity|]. split; [|split; [exact Hh|lia]].
    rewrite Htasks, list_lookup_fmap, Ht. cbn [fmap option_fmap option_map].
    unfold due. cbn. destruct (Z.leb_spec d t); [lia|reflexivity].
  - intros tid tm' Ht Hs.
    destruct (Hmap tid tm' Ht) as (tm & Ht0 & ->).
    destruct (due t tm) eqn:Hdue; [discriminate Hs|].
    destruct (I3 tid tm Ht0 Hs) as (p & Hp & He).
    exists p. split; [|exact He]. rewrite Hpeers.
    destruct (existsb _ (tasks s)) eqn:Ex; [|exact Hp].
    exfalso. apply existsb_due_true in Ex as (tid2 & tm2 & Ht2 & Hs2 & Hd2 & Hn2).
    destruct (I3 tid2 tm2 Ht2 Hs2) as (p2 & Hp2 & He2).
    rewrite Hn2, Hp in Hp2. injection Hp2 as <-.
    rewrite He in He2. injection He2 as <-.
    rewrite Ht0 in Ht2. injection Ht2 as <-.
    unfold due in Hdue. rewrite Hs in Hdue. apply Z.leb_gt in Hdue. lia.
  - intros k t0 Hp. rewrite last_heard_snoc. intros Hh. rewrite Hpeers in Hp.
    destruct (existsb _ (tasks s)) eqn:Ex.
    + apply existsb_due_true in Ex as (tid & tm & Ht & Hs & Hd & Hn).
      destruct (I3 tid tm Ht Hs) as (p & Hp' & He). rewrite Hn in Hp'.
      destruct (I2 k p Hp') as (tid' & d & lst & -> & Ht' & Hh' & _).
      cbn in He. injection He as ->. rewrite Ht in Ht'. injection Ht' as ->.
      cbn in Hd. rewrite Hh in Hh'. injection Hh' as ->. lia.
    + pose proof (I4 k t0 Hp Hh). lia.
Qed.

Lemma peer_inv_step evs s ev : peer_inv evs s -> peer_inv (evs ++ [ev]) (step s ev).
Proof.
  intros Hinv. destruct ev as [other msg|dt|k|k fid].
  - destruct (heartbeat_fields msg) as [[k l]|e] eqn:Hf.
    + apply (peer_inv_heartbeat evs s other msg k l Hinv Hf).
    + cbn [step]. rewrite (heartbeat_callback_error other msg s e Hf). cbn [snd].
      destruct Hinv as (I1 & I2 & I3 & I4). unfold peer_inv.
      rewrite clock_snoc. split; [exact I1|]. split; [|split; [exact I3|]].
      * intros k p Hp. rewrite last_heard_snoc, Hf. apply I2, Hp.
      * intros k t Hp. rewrite last_heard_snoc, Hf. apply I4, Hp.
  - apply peer_inv_advance, Hinv.
  - destruct (step_connect_fields s (EvConnect k) I) as (H1 & H2 & H3).
    destruct Hinv as (I1 & I2 & I3 & I4). unfold peer_inv.
    rewrite clock_snoc, H1, H2, H3. split; [exact I1|]. split; [|split; [exact I3|]].
    + intros k' p Hp. rewrite last_heard_snoc. apply I2, Hp.
    + intros k' t Hp. rewrite last_heard_snoc. apply I4, Hp.
  - destruct (step_connect_fields s (EvResume k fid) I) as (H1 & H2 & H3).
    destruct Hinv as (I1 & I2 & I3 & I4). unfold peer_inv.
    rewrite clock_snoc, H1, H2, H3. split; [exact I1|]. split; [|split; [exact I3|]].
    + intros k' p Hp. rewrite last_heard_snoc. apply I2, Hp.
    + intros k' t Hp. rewrite last_heard_snoc. apply I4, Hp.
Qed.

Lemma peer_inv_run nm u evs : peer_inv evs (run evs (Router nm u)).
Proof.
  induction evs as [|ev evs IH] using rev_ind; [apply peer_inv_init|].
  rewrite run_snoc. apply peer_inv_step, IH.
Qed.

(** C4: in every state the router reaches, a name is in the peer table
    exactly when a heartbeat from it was received less than
    [HEARTBEAT_EXPIRE] ago; a heartbeat makes the record of its name, with
    the sender's address and the advertised port and an expire task armed
    for [HEARTBEAT_EXPIRE] later, and when the name already had a record
    its sleeping expire task is cancelled and the record stays; a record's
    expire task removes the record when the clock reaches its deadline
    without a renewal, and not before. *)
Theorem peer_table_invariant (nm u : pystr) (evs : list event) :
  let s := run evs (Router nm u) in
  (forall k, is_Some (_peers s !! k) <->
             exists t, last_heard k evs = Some t /\ t <= now s < t + HEARTBEAT_EXPIRE) /\
  (forall other msg k l,
     heartbeat_fields msg = Ok (k, l) ->
     let s' := step s (EvHeartbeat other msg) in
     exists tid,
       _peers s' !! k = Some (mkPeer (Some (host other, l)) (Some tid)) /\
       tasks s' !! tid = Some (mkTimer k (now s + HEARTBEAT_EXPIRE) Sleeping) /\
       (forall p, _peers s !! k = Some p ->
          exists tid0 d,
            expire p = Some tid0 /\ tid0 <> tid /\
            tasks s !! tid0 = Some (mkTimer k d Sleeping) /\
            tasks s' !! tid0 = Some (mkTimer k d Cancelled))) /\
  (forall k p dt,
     _peers s !! k = Some p ->
     exists tid d,
       expire p = Some tid /\ tasks s !! tid = Some (mkTimer k d Sleeping) /\
       (d <= now s + Z.of_N dt -> _peers (step s (EvAdvance dt)) !! k = None) /\
       (now s + Z.of_N dt < d -> _peers (step s (EvAdvance dt)) !! k = Some p)).
Proof.
  intros s. pose proof (peer_inv_run nm u evs) as Hinv. fold s in Hinv.
  assert (Hinv' := Hinv). destruct Hinv' as (I1 & I2 & I3 & I4).
  split; [|split].
  - intros k. split.
    + intros [p Hp]. destruct (I2 k p Hp) as (tid & d & lst & _ & _ & Hh & Hd).
      exists (d - HEARTBEAT_EXPIRE). split; [exact Hh|].
      assert (Hle : d - HEARTBEAT_EXPIRE <= now s); [|lia].
      (* the last heartbeat is not in the future *)
      clear -Hh I1. rewrite I1. revert Hh. generalize (d - HEARTBEAT_EXPIRE). clear.
      induction evs as [|ev evs IH] using rev_ind; [discriminate|].
      intros t. rewrite last_heard_snoc, clock_snoc.
      destruct ev as [other msg|dt|k'|k' fid]; try apply IH.
      * destruct (heartbeat_fields msg) as [[k' l]|e]; [|apply IH].
        destruct (bool_decide (k' = k)); [intros [= <-]; lia|apply IH].
      * intros H. apply IH in H. lia.
    + intros (t & Hh & Ht). destruct (_peers s !! k) as [p|] eqn:Hp; [eauto|].
      pose proof (I4 k t Hp Hh). lia.
  - intros other msg k l Hf s'. unfold s'. cbn [step].
    rewrite (heartbeat_callback_state other msg s k l Hf). cbn [snd _peers tasks].
    pose proof (tasks_after_cancel_length k s) as Hlen.
    exists (length (tasks s)). split; [apply lookup_insert_eq|]. split.
    + rewrite lookup_app_r by lia. rewrite Hlen, Nat.sub_diag. reflexivity.
    + intros p Hp. destruct (I2 k p Hp) as (tid0 & d & lst & -> & Ht & _).
      exists tid0, d. split; [reflexivity|].
      pose proof (lookup_lt_Some _ _ _ Ht) as Hlt.
      split; [lia|]. split; [exact Ht|].
      rewrite lookup_app_l by lia.
      unfold tasks_after_cancel, cancel. rewrite Hp. cbn [expire]. rewrite Ht. cbn.
      apply list_lookup_insert_eq. exact Hlt.
  - intros k p dt Hp. destruct (I2 k p Hp) as (tid & d & lst & -> & Ht & _ & _).
    exists tid, d. split; [reflexivity|]. split; [exact Ht|].
    cbn [step]. destruct (advance_fields dt s) as (_ & Hpeers & _).
    rewrite Hpeers. split; intros Hd.
    + destruct (existsb _ (tasks s)) eqn:Ex; [reflexivity|].
      pose proof (existsb_due_false _ _ _ _ _ Ex Ht eq_refl eq_refl) as Hlt. cbn in Hlt. lia.
    + destruct (existsb _ (tasks s)) eqn:Ex; [|exact Hp].
      apply existsb_due_true in Ex as (tid2 & tm2 & Ht2 & Hs2 & Hd2 & Hn2).
      destruct (I3 tid2 tm2 Ht2 Hs2) as (p2 & Hp2 & He2).
      rewrite Hn2, Hp in Hp2. injection Hp2 as <-. cbn in He2. injection He2 as <-.
      rewrite Ht in Ht2. injection Ht2 as <-. cbn in Hd2. lia.
Qed.

Example heartbeat_scenario :
  let other := mkEndpoint (py "10.0.0.5") 4242 in
  let hb := mkMessage (JString (py "x")) (JString (py "heartbeat"))
              (JObject [(py "source", JString (py "rover")); (py "listen", JInt 5000)]) in
  let rover := HStr (py "rover") in
  let s0 := Router (py "tester") (py "uuid") in
  (* present before the window ends *)
  is_Some (_peers (run [EvHeartbeat other hb; EvAdvance 999] s0) !! rover) /\
  (* gone once it has ended without a renewal *)
  _peers (run [EvHeartbeat other hb; EvAdvance 1000] s0) !! rover = None /\
  (* kept by one renewal in between *)
  is_Some (_peers (run [EvHeartbeat other hb; EvAdvance 600; EvHeartbeat other hb;
                        EvAdvance 600] s0) !! rover).
Proof.
  cbv zeta. split; [|split].
  - eexists. vm_compute. reflexivity.
  - vm_compute. reflexivity.
  - eexists. vm_compute. reflexivity.
Qed.

(** ** Pending connections *)

Lemma pending_wf_step s ev :
  (forall k f, _pending_connections s !! k = Some f -> (f < length (futures s))%nat) ->
  forall k f, _pending_connections (step s ev) !! k = Some f ->
              (f < length (futures (step s ev)))%nat.
Proof.
  intros Hwf k f. destruct ev as [other msg|dt|k0|k0 fid]; cbn [step].
  - destruct (heartbeat_fields msg) as [[k1 l]|e] eqn:Hf.
    + rewrite (heartbeat_callback_state other msg s k1 l Hf). cbn.
      intros H. apply Hwf in H. unfold futures_after_resolve.
      destruct (_pending_connections s !! k1) as [f1|]; [|exact H].
      destruct (futures s !! f1) as [[[|] n]|]; cbn; rewrite ?length_insert; exact H.
    + rewrite (heartbeat_callback_error other msg s e Hf). apply Hwf.
  - destruct (advance_fields dt s) as (_ & _ & _ & -> & -> & _). apply Hwf.
  - unfold connect. destruct (_peers s !! k0) eqn:Ep.
    + destruct (connect_open_fields k0 s) as (_ & _ & _ & -> & ->). apply Hwf.
    + cbn. rewrite length_app. cbn.
      destruct (decide (k0 = k)) as [->|Hne].
      * rewrite lookup_insert_eq. intros [= <-]. lia.
      * rewrite lookup_insert_ne by exact Hne. intros H. apply Hwf in H. lia.
  - destruct (futures s !! fid) as [[[|] n]|]; cbn [f_done]; try apply Hwf.
    unfold connect_resume. destruct (_pending_connections s !! k0) eqn:Ep; [|apply Hwf].
    destruct (connect_open_fields k0 (set_pending (delete k0 (_pending_connections s)) s))
      as (_ & _ & _ & -> & ->). cbn.
    destruct (decide (k0 = k)) as [->|Hne].
    + rewrite lookup_delete_eq. discriminate.
    + rewrite lookup_delete_ne by exact Hne. apply Hwf.
Qed.

Lemma pending_wf_run nm u evs :
  forall k f, _pending_connections (run evs (Router nm u)) !! k = Some f ->
              (f < length (futures (run evs (Router nm u))))%nat.
Proof.
  induction evs as [|ev evs IH] using rev_ind.
  - intros k f H. cbn in H. rewrite lookup_empty in H. discriminate.
  - rewrite run_snoc. apply pending_wf_step, IH.
Qed.

Lemma absent_step s ev name :
  ~ is_heartbeat_from name ev ->
  _peers s !! name = None -> _peers (step s ev) !! name = None.
Proof.
  intros Hq Hp. destruct ev as [other msg|dt|k0|k0 fid].
  - cbn [step]. destruct (heartbeat_fields msg) as [[k1 l]|e] eqn:Hf.
    + rewrite (heartbeat_callback_state other msg s k1 l Hf). cbn.
      rewrite lookup_insert_ne; [exact Hp|].
      intros ->. apply Hq. cbn. eauto.
    + rewrite (heartbeat_callback_error other msg s e Hf). exact Hp.
  - cbn [step]. destruct (advance_fields dt s) as (_ & -> & _).
    destruct (existsb _ _); [reflexivity|exact Hp].
  - destruct (step_connect_fields s (EvConnect k0) I) as (_ & -> & _). exact Hp.
  - destruct (step_connect_fields s (EvResume k0 fid) I) as (_ & -> & _). exact Hp.
Qed.

Lemma waiting_step s ev name fid fs :
  ~ is_connect_of name ev ->
  (is_heartbeat_from name ev -> f_done fs = true) ->
  waiting s name fid fs -> waiting (step s ev) name fid fs.
Proof.
  intros Hc Hh (Hp & Hf & Hu & Hwf).
  pose proof (pending_wf_step s ev Hwf) as Hwf'.
  unfold waiting. split; [|split; [|split; [|exact Hwf']]];
    clear Hwf'; destruct ev as [other msg|dt|k0|k0 f0]; cbn [step].
  - destruct (heartbeat_fields msg) as [[k1 l]|e] eqn:Hfld.
    + rewrite (heartbeat_callback_state other msg s k1 l Hfld). exact Hp.
    + rewrite (heartbeat_callback_error other msg s e Hfld). exact Hp.
  - destruct (advance_fields dt s) as (_ & _ & _ & -> & _). exact Hp.
  - unfold connect. destruct (_peers s !! k0).
    + destruct (connect_open_fields k0 s) as (_ & _ & _ & -> & _). exact Hp.
    + cbn. rewrite lookup_insert_ne; [exact Hp|]. intros ->. apply Hc. reflexivity.
  - destruct (futures s !! f0) as [[[|] n]|]; cbn [f_done]; try exact Hp.
    unfold connect_resume. destruct (_pending_connections s !! k0); [|exact Hp].
    destruct (connect_open_fields k0 (set_pending (delete k0 (_pending_connections s)) s))
      as (_ & _ & _ & -> & _). cbn.
    rewrite lookup_delete_ne; [exact Hp|]. intros ->. apply Hc. reflexivity.
  - destruct (heartbeat_fields msg) as [[k1 l]|e] eqn:Hfld.
    + rewrite (heartbeat_callback_state other msg s k1 l Hfld). cbn.
      unfold futures_after_resolve.
      destruct (_pending_connections s !! k1) as [f1|] eqn:Ep1; [|exact Hf].
      destruct (futures s !! f1) as [[[|] n]|] eqn:Ef1; cbn; try exact Hf.
      destruct (decide (k1 = name)) as [->|Hne].
      * rewrite Hp in Ep1. injection Ep1 as <-. rewrite Hf in Ef1. injection Ef1 as ->.
        specialize (Hh ltac:(cbn; eauto)). discriminate Hh.
      * rewrite list_lookup_insert_ne; [exact Hf|].
        intros <-. apply (Hu k1 Hne). exact Ep1.
    + rewrite (heartbeat_callback_error other msg s e Hfld). exact Hf.
  - destruct (advance_fields dt s) as (_ & _ & _ & _ & -> & _). exact Hf.
  - unfold connect. destruct (_peers s !! k0).
    + destruct (connect_open_fields k0 s) as (_ & _ & _ & _ & ->). exact Hf.
    + cbn. rewrite lookup_app_l; [exact Hf|]. apply lookup_lt_Some in Hf. exact Hf.
  - destruct (futures s !! f0) as [[[|] n]|]; cbn [f_done]; try exact Hf.
    destruct (connect_resume_fields k0 s) as (_ & _ & _ & ->). exact Hf.
  - intros k Hk.
    destruct (heartbeat_fields msg) as [[k1 l]|e] eqn:Hfld.
    + rewrite (heartbeat_callback_state other msg s k1 l Hfld). apply Hu, Hk.
    + rewrite (heartbeat_callback_error other msg s e Hfld). apply Hu, Hk.
  - intros k Hk. destruct (advance_fields dt s) as (_ & _ & _ & -> & _). apply Hu, Hk.
  - intros k Hk. unfold connect. destruct (_peers s !! k0).
    + destruct (connect_open_fields k0 s) as (_ & _ & _ & -> & _). apply Hu, Hk.
    + cbn. destruct (decide (k0 = k)) as [->|Hne].
      * rewrite lookup_insert_eq. intros [= E]. apply lookup_lt_Some in Hf. lia.
      * rewrite lookup_insert_ne by exact Hne. apply Hu, Hk.
  - intros k Hk. destruct (futures s !! f0) as [[[|] n]|]; cbn [f_done]; try apply Hu, Hk.
    unfold connect_resume. destruct (_pending_connections s !! k0); [|apply Hu, Hk].
    destruct (connect_open_fields k0 (set_pending (delete k0 (_pending_connections s)) s))
      as (_ & _ & _ & -> & _). cbn.
    destruct (decide (k0 = k)) as [->|Hne].
    + rewrite lookup_delete_eq. discriminate.
    + rewrite lookup_delete_ne by exact Hne. apply Hu, Hk.
Qed.

Lemma waiting_run evs s name fid fs :
  Forall (fun ev => ~ is_connect_of name ev /\
                    (is_heartbeat_from name ev -> f_done fs = true)) evs ->
  waiting s name fid fs -> waiting (run evs s) name fid fs.
Proof.
  induction evs as [|ev evs IH] using rev_ind; intros HF Hw; [exact Hw|].
  apply Forall_app in HF as [HF Hev]. apply Forall_cons in Hev as [[Hc Hh] _].
  rewrite run_snoc. apply waiting_step; auto.
Qed.

Lemma absent_run evs s name :
  Forall (fun ev => ~ is_heartbeat_from name ev) evs ->
  _peers s !! name = None -> _peers (run evs s) !! name = None.
Proof.
  induction evs as [|ev evs IH] using rev_ind; intros HF Hp; [exact Hp|].
  apply Forall_app in HF as [HF Hev]. apply Forall_cons in Hev as [Hq _].
  rewrite run_snoc. apply absent_step; auto.
Qed.

(** C5, as the code has it: [connect(name)], called in a reachable state
    where [name] has no record, registers a new future for [name] and
    suspends on it; while nothing else calls or resumes [connect(name)],
    the future stays unresolved until a heartbeat from [name] arrives; that
    heartbeat makes the record of [name] and resolves the future, once, and
    no later heartbeat resolves it again; when the caller resumes, the
    pending entry is removed and the connection is opened to the address
    and port in the record of [name] at that moment, which are those of
    the resolving heartbeat when the caller resumes right after it. *)
Theorem connect_lifecycle (nm u : pystr) (evs0 evs1 evs2 : list event)
    (name : hkey) (other : endpoint) (msg : Message) (l : json) :
  let s := run evs0 (Router nm u) in
  let fid := length (futures s) in
  let s1 := run evs1 (snd (connect name s)) in
  let s2 := step s1 (EvHeartbeat other msg) in
  let s2' := run evs2 s2 in
  let s3 := step s2' (EvResume name fid) in
  _peers s !! name = None ->
  Forall (quiet name) evs1 ->
  heartbeat_fields msg = Ok (name, l) ->
  Forall (fun ev => ~ is_connect_of name ev) evs2 ->
  (fst (connect name s) = Ok (AwaitFuture fid) /\
   waiting (snd (connect name s)) name fid (mkFuture false 0)) /\
  (_peers s1 !! name = None /\ waiting s1 name fid (mkFuture false 0) /\
   step s1 (EvResume name fid) = s1) /\
  ((exists tid, _peers s2 !! name = Some (mkPeer (Some (host other, l)) (Some tid))) /\
   waiting s2 name fid (mkFuture true 1)) /\
  waiting s2' name fid (mkFuture true 1) /\
  _pending_connections s3 !! name = None /\
  futures s3 !! fid = Some (mkFuture true 1) /\
  (forall h pt e, _peers s2' !! name = Some (mkPeer (Some (h, pt)) e) ->
     effects s3 = effects s2' ++ [OpenConnection h pt]) /\
  (evs2 = [] -> effects s3 = effects s2 ++ [OpenConnection (host other) l]).
Proof.
  intros s fid s1 s2 s2' s3 Habs Hq1 Hfld Hq2.
  pose proof (pending_wf_run nm u evs0) as Hwf. fold s in Hwf.
  (* the call *)
  assert (Hcall : fst (connect name s) = Ok (AwaitFuture fid) /\
                  waiting (snd (connect name s)) name fid (mkFuture false 0)).
  { unfold connect. rewrite Habs. cbn. split; [reflexivity|]. unfold waiting. cbn.
    split; [apply lookup_insert_eq|]. split.
    - rewrite lookup_app_r by reflexivity. fold fid. rewrite Nat.sub_diag. reflexivity.
    - split.
      + intros k Hk. rewrite lookup_insert_ne by congruence.
        intros H. apply Hwf in H. fold fid in H. lia.
      + intros k f. rewrite length_app. cbn.
        destruct (decide (name = k)) as [->|Hne].
        * rewrite lookup_insert_eq. intros [= <-]. fold fid. lia.
        * rewrite lookup_insert_ne by exact Hne. intros H. apply Hwf in H. lia. }
  destruct Hcall as [Hst Hw0].
  (* until the heartbeat *)
  assert (Hw1 : waiting s1 name fid (mkFuture false 0)).
  { apply waiting_run; [|exact Hw0].
    eapply Forall_impl; [exact Hq1|]. intros ev [Hh Hc]. split; [exact Hc|].
    intros H. contradiction. }
  assert (Habs1 : _peers s1 !! name = None).
  { apply absent_run.
    - eapply Forall_impl; [exact Hq1|]. intros ev [Hh _]. exact Hh.
    - destruct (connect_fields name s) as (_ & -> & _). exact Habs. }
  (* the heartbeat *)
  assert (Hs2 : (exists tid, _peers s2 !! name = Some (mkPeer (Some (host other, l)) (Some tid)))
                /\ waiting s2 name fid (mkFuture true 1)).
  { destruct Hw1 as (Hp & Hf & Hu & Hwf1).
    unfold s2. cbn [step]. rewrite (heartbeat_callback_state other msg s1 name l Hfld).
    cbn [snd]. split; [eexists; cbn; apply lookup_insert_eq|].
    unfold waiting. cbn. unfold futures_after_resolve. rewrite Hp, Hf. cbn.
    split; [reflexivity|]. split.
    - apply list_lookup_insert_eq. apply lookup_lt_Some in Hf. exact Hf.
    - split; [exact Hu|]. intros k f H. rewrite length_insert. apply (Hwf1 k f H). }
  destruct Hs2 as [Hpeer Hw2].
  (* after it *)
  assert (Hw2' : waiting s2' name fid (mkFuture true 1)).
  { apply waiting_run; [|exact Hw2].
    eapply Forall_impl; [exact Hq2|]. intros ev Hc. split; [exact Hc|reflexivity]. }
  (* the resumption *)
  assert (Hs3 : s3 = snd (connect_open name
                            (set_pending (delete name (_pending_connections s2')) s2'))).
  { destruct Hw2' as (Hp & Hf & _). unfold s3. cbn [step]. rewrite Hf. cbn [f_done].
    unfold connect_resume. rewrite Hp. reflexivity. }
  assert (Heff : forall h pt e, _peers s2' !! name = Some (mkPeer (Some (h, pt)) e) ->
                   effects s3 = effects s2' ++ [OpenConnection h pt]).
  { intros h pt e Hp. rewrite Hs3. unfold connect_open. cbn [_peers set_pending].
    rewrite Hp. reflexivity. }
  split; [split; [exact Hst|exact Hw0]|].
  split.
  { split; [exact Habs1|]. split; [exact Hw1|].
    destruct Hw1 as (_ & Hf & _). cbn [step]. rewrite Hf. reflexivity. }
  split; [split; [exact Hpeer|exact Hw2]|].
  split; [exact Hw2'|].
  split.
  { rewrite Hs3.
    destruct (connect_open_fields name
                (set_pending (delete name (_pending_connections s2')) s2'))
      as (_ & _ & _ & -> & _). cbn. apply lookup_delete_eq. }
  split.
  { rewrite Hs3.
    destruct (connect_open_fields name
                (set_pending (delete name (_pending_connections s2')) s2'))
      as (_ & _ & _ & _ & ->). cbn. apply Hw2'. }
  split; [exact Heff|].
  intros ->. destruct Hpeer as [tid Hp]. apply (Heff _ _ _ Hp).
Qed.

Lemma connect_lifecycle_witness :
  let other := mkEndpoint (py "10.0.0.5") 4242 in
  let hb := mkMessage (JString (py "x")) (JString (py "heartbeat"))
              (JObject [(py "source", JString (py "rover")); (py "listen", JInt 5000)]) in
  let rover := HStr (py "rover") in
  let s0 := Router (py "tester") (py "uuid") in
  _pending_connections
    (run [EvConnect rover; EvAdvance 50; EvHeartbeat other hb; EvResume rover 0] s0) !! rover
  = None /\
  effects (run [EvConnect rover; EvAdvance 50; EvHeartbeat other hb; EvResume rover 0] s0)
  = [OpenConnection (py "10.0.0.5") (JInt 5000)].
Proof.
  cbv zeta.
  pose proof (connect_lifecycle (py "tester") (py "uuid") [] [EvAdvance 50] []
                (HStr (py "rover")) (mkEndpoint (py "10.0.0.5") 4242)
                (mkMessage (JString (py "x")) (JString (py "heartbeat"))
                   (JObject [(py "source", JString (py "rover")); (py "listen", JInt 5000)]))
                (JInt 5000)) as H.
  cbv zeta in H.
  destruct H as (_ & _ & _ & _ & Hpend & _ & _ & Heff).
  - reflexivity.
  - apply List.Forall_cons; [|apply List.Forall_nil]. split; intros H; exact H.
  - reflexivity.
  - apply List.Forall_nil.
  - split; [exact Hpend|]. exact (Heff eq_refl).
Defined.

(** C5 as stated fails in two ways.  A second heartbeat from the name,
    arriving before the caller resumes, changes the record: the caller
    connects to the later address, not to the one of the heartbeat that
    resolved its future.  A second [connect] for the same name replaces the
    registered future: the first caller's future is never resolved, and
    that caller never resumes. *)
Lemma connect_counterexample :
  let o1 := mkEndpoint (py "10.0.0.5") 4242 in
  let o2 := mkEndpoint (py "10.0.0.6") 4242 in
  let h1 := mkMessage (JString (py "x")) (JString (py "heartbeat"))
              (JObject [(py "source", JString (py "rover")); (py "listen", JInt 5000)]) in
  let h2 := mkMessage (JString (py "y")) (JString (py "heartbeat"))
              (JObject [(py "source", JString (py "rover")); (py "listen", JInt 6000)]) in
  let rover := HStr (py "rover") in
  let s0 := Router (py "tester") (py "uuid") in
  (futures (run [EvConnect rover; EvHeartbeat o1 h1] s0) !! 0%nat = Some (mkFuture true 1) /\
   effects (run [EvConnect rover; EvHeartbeat o1 h1; EvHeartbeat o2 h2; EvResume rover 0] s0)
   = [OpenConnection (py "10.0.0.6") (JInt 6000)]) /\
  (let sB := run [EvConnect rover; EvConnect rover; EvHeartbeat o1 h1; EvHeartbeat o1 h1] s0 in
   futures sB !! 0%nat = Some (mkFuture false 0) /\
   futures sB !! 1%nat = Some (mkFuture true 1) /\
   _pending_connections sB !! rover = Some 1%nat /\
   step sB (EvResume rover 0) = sB).
Proof.
  vm_compute. repeat split; reflexivity.
Qed.

(** * Further properties of the codec *)

Lemma from_string_object s d :
  loads s = Ok (JObject d) ->
  from_string s
  = match dict_get (py "source") d, dict_get (py "type") d, dict_get (py "data") d with
    | Some a, Some b, Some c => Ok (mkMessage a b c)
    | _, _, _ => Raise (ValueError "Improperly formatted message.")
    end.
Proof.
  intros Hl. unfold from_string. rewrite Hl. cbn [any_missing contains bind getitem].
  destruct (dict_get (py "source") d) as [a|];
    [rewrite bool_decide_eq_true_2 by eauto
    |rewrite bool_decide_eq_false_2 by (intros [? ?]; discriminate)];
    cbn [negb]; [|reflexivity].
  destruct (dict_get (py "type") d) as [b|];
    [rewrite bool_decide_eq_true_2 by eauto
    |rewrite bool_decide_eq_false_2 by (intros [? ?]; discriminate)];
    cbn [negb]; [|reflexivity].
  destruct (dict_get (py "data") d) as [c|];
    [rewrite bool_decide_eq_true_2 by eauto
    |rewrite bool_decide_eq_false_2 by (intros [? ?]; discriminate)];
    cbn [negb bind]; reflexivity.
Qed.

Lemma from_string_not_object s packet :
  loads s = Ok packet -> (forall d, packet <> JObject d) ->
  from_string s = Raise TypeError \/
  from_string s = Raise (ValueError "Improperly formatted message.").
Proof.
  intros Hl Hno.
  destruct (from_string_packet s packet Hl)
    as [[_ Hf]|[(_ & _ & Hf)|(_ & _ & [(d & -> & _)|[_ Hf]])]]; auto.
  exfalso. apply (Hno d). reflexivity.
Qed.

Lemma from_bytes_decoded bs s :
  bytes_decode bs = Ok s -> from_bytes bs = from_string s.
Proof.
  intros Hd. unfold from_bytes. rewrite Hd. cbn [bind].
  destruct (from_string s) as [m|e] eqn:E; [reflexivity|].
  destruct e; try reflexivity.
  exfalso. unfold from_string in E.
  destruct (loads s) as [packet|e] eqn:Hl.
  - destruct (from_string_packet s packet Hl)
      as [[_ Hf]|[(_ & _ & Hf)|(_ & _ & [(d & _ & m & Hf)|[_ Hf]])]];
      unfold from_string in Hf; rewrite Hl in Hf; congruence.
  - destruct (loads_error s e Hl) as [m ->]. discriminate E.
Qed.

(** [from_bytes] returns a Message exactly when the bytes are UTF-8 for a
    text that [json.loads] reads as an object holding the three keys, and
    the Message's fields are then the values of those keys. *)
Theorem from_bytes_ok_iff (bs : list byte) (m : Message) :
  from_bytes bs = Ok m <->
  exists s d, bytes_decode bs = Ok s /\ loads s = Ok (JObject d) /\
              dict_get (py "source") d = Some (source m) /\
              dict_get (py "type") d = Some (type m) /\
              dict_get (py "data") d = Some (data m).
Proof.
  split.
  - intros H. destruct (bytes_decode bs) as [s|e] eqn:Hd.
    + rewrite (from_bytes_decoded bs s Hd) in H.
      destruct (loads s) as [packet|e] eqn:Hl.
      * destruct packet as [ | b | n | lit | str | items | d].
        7:{ rewrite (from_string_object s d Hl) in H.
            destruct (dict_get (py "source") d) as [a|] eqn:Ea; [|discriminate].
            destruct (dict_get (py "type") d) as [b|] eqn:Eb; [|discriminate].
            destruct (dict_get (py "data") d) as [c|] eqn:Ec; [|discriminate].
            injection H as <-. exists s, d. cbn [source type data]. auto. }
        all: destruct (from_string_not_object s _ Hl ltac:(intros d; discriminate))
          as [E|E]; rewrite E in H; discriminate H.
      * unfold from_string in H. rewrite Hl in H. destruct e; discriminate H.
    + unfold from_bytes in H. rewrite Hd in H. cbn in H. destruct e; discriminate H.
  - intros (s & d & Hd & Hl & Hs & Ht & Hx).
    rewrite (from_bytes_decoded bs s Hd), (from_string_object s d Hl), Hs, Ht, Hx.
    destruct m; reflexivity.
Qed.


(** Decoding keeps the three fields and drops everything else: the text of
    any representable object that has the keys 'source', 'type' and 'data',
    whatever other keys it holds and in whatever order, decodes to the
    Message of those three values. *)
Theorem from_bytes_ignores_other_fields (d : list (pystr * json)) (a b c : json) :
  representable (JObject d) ->
  dict_get (py "source") d = Some a ->
  dict_get (py "type") d = Some b ->
  dict_get (py "data") d = Some c ->
  exists bs, str_encode (dumps (JObject d)) = Ok bs /\ from_bytes bs = Ok (mkMessage a b c).
Proof.
  intros Hr Ha Hb Hc.
  destruct (decode_encode_ascii (dumps (JObject d)) (dumps_ascii _ Hr)) as [He Hd].
  exists (map byte_of_Z (dumps (JObject d))). split; [exact He|].
  rewrite (from_bytes_decoded _ _ Hd).
  rewrite (from_string_object _ d (loads_dumps _ Hr)), Ha, Hb, Hc. reflexivity.
Qed.

Lemma from_bytes_ignores_other_fields_witness :
  exists bs,
    str_encode (dumps (JObject [(py "port", JString (py "/dev/ttyACM0"));
                                (py "data", JInt 27); (py "type", JString (py "publish"));
                                (py "source", JString (py "rover"))])) = Ok bs /\
    from_bytes bs = Ok (mkMessage (JString (py "rover")) (JString (py "publish")) (JInt 27)).
Proof.
  apply (from_bytes_ignores_other_fields
           [(py "port", JString (py "/dev/ttyACM0")); (py "data", JInt 27);
            (py "type", JString (py "publish")); (py "source", JString (py "rover"))]).
  - cbn [representable]. split.
    + apply (bool_decide_unpack _). vm_compute. exact I.
    + cbn [fold_right fst snd representable]. repeat split; solve_text.
  - reflexivity.
  - reflexivity.
  - reflexivity.
Defined.

(** The encoding of a representable Message exists and is ASCII, one byte
    for each character of [to_json]. *)
Theorem encode_is_ascii (m : Message) :
  representable_message m ->
  exists bs, encode m = Ok bs /\ length bs = length (to_json m) /\
             Forall (fun b => byte_val b < 128) bs.
Proof.
  intros Hm.
  assert (Ha : ascii_text (to_json m)).
  { apply dumps_ascii, message_object_representable, Hm. }
  destruct (decode_encode_ascii (to_json m) Ha) as [He _].
  exists (map byte_of_Z (to_json m)). split; [exact He|]. split; [apply length_map|].
  apply Forall_map. eapply Forall_impl; [exact Ha|].
  intros c Hc. unfold compose. cbv beta in Hc |- *.
  rewrite byte_val_of_Z, Z.mod_small by lia. lia.
Qed.

Lemma encode_is_ascii_witness :
  exists bs,
    encode (mkMessage (JString [233]) (JString (py "send")) (JString [128512])) = Ok bs /\
    Forall (fun b => byte_val b < 128) bs.
Proof.
  destruct (encode_is_ascii (mkMessage (JString [233]) (JString (py "send"))
                               (JString [128512]))) as (bs & He & _ & Ha).
  - split; [|split]; cbn [source type data representable]; solve_text.
  - exists bs. split; [exact He|exact Ha].
Defined.

(** * Further properties of group addressing *)

Lemma encode_char_str c :
  0 <= c <= 0x10FFFF ->
  (is_surrogate c = false /\ exists bs, encode_char c = Ok bs) \/
  (is_surrogate c = true /\ encode_char c = Raise UnicodeEncodeError).
Proof.
  intros Hc. unfold encode_char, is_surrogate.
  destruct (Z.ltb_spec c 0x80).
  { left. split; [|eauto]. destruct (Z.leb_spec 0xD800 c); [lia|reflexivity]. }
  destruct (Z.ltb_spec c 0x800).
  { left. split; [|eauto]. destruct (Z.leb_spec 0xD800 c); [lia|reflexivity]. }
  destruct ((0xD800 <=? c) && (c <=? 0xDFFF)).
  - right. auto.
  - left. split; [reflexivity|]. destruct (c <? 0x10000); eauto.
Qed.

Lemma utf8_encode_str s :
  is_str s ->
  (is_text s /\ exists bs, utf8_encode s = Ok bs) \/
  (~ is_text s /\ utf8_encode s = Raise UnicodeEncodeError).
Proof.
  induction 1 as [|c s Hc _ IH].
  - left. split; [apply List.Forall_nil|exists []; reflexivity].
  - cbn [utf8_encode].
    destruct (encode_char_str c Hc) as [[Hs [cb ->]]|[Hs ->]].
    + destruct IH as [[Ht [bs ->]]|[Ht ->]].
      * left. split; [apply List.Forall_cons; auto|]. eexists. reflexivity.
      * right. split; [|reflexivity]. intros Hn. apply Ht.
        apply Forall_cons_1 in Hn. tauto.
    + right. split; [|reflexivity]. intros Hn.
      apply Forall_cons_1 in Hn. destruct Hn as [[_ Hn] _]. congruence.
Qed.

Lemma key_to_multicast_encoded key family kb :
  str_encode key = Ok kb ->
  key_to_multicast key family
  = if pystr_eqb family (py "ipv4") then
      Ok (ip_str (IPv4Address (int_from_bytes_big ([xe0; x00; x00] ++ slice 3 4 (SHA256.sha256 kb)) 0)),
          Z.lor (int_from_bytes_little (slice 0 2 (SHA256.sha256 kb))) 0xC000)
    else if pystr_eqb family (py "ipv6") then
      Ok (ip_str (IPv6Address (int_from_bytes_big ([xff; x13; x00; x00] ++ slice 3 15 (SHA256.sha256 kb)) 0)),
          Z.lor (int_from_bytes_little (slice 0 2 (SHA256.sha256 kb))) 0xC000)
    else Raise (ValueError "unknown family").
Proof.
  intros Hkb. unfold key_to_multicast. rewrite Hkb. cbn [bind].
  destruct (sha256_head kb) as (b0 & b1 & b2 & b3 & rest & Hd & Hrest).
  assert (Hlen : length (slice 3 15 (SHA256.sha256 kb)) = 12%nat).
  { rewrite Hd. unfold slice. cbn [drop]. rewrite length_take. cbn [length].
    rewrite Hrest. reflexivity. }
  destruct (pystr_eqb family (py "ipv4")).
  - cbn [bind]. rewrite Hd.
    change (slice 3 4 (b0 :: b1 :: b2 :: b3 :: rest)) with [b3]. reflexivity.
  - destruct (pystr_eqb family (py "ipv6")); [|reflexivity].
    cbn [bind]. unfold ip_address. rewrite length_app, Hlen. reflexivity.
Qed.

(** [key_to_multicast] on a Python string raises in two cases only, and the
    key is looked at first: a key holding a lone surrogate raises
    [UnicodeEncodeError] whatever the family is; a key that is Unicode text
    with a family other than 'ipv4' and 'ipv6' raises
    [ValueError('unknown family')]. *)
Theorem key_to_multicast_errors (key family : pystr) (e : exn) :
  is_str key ->
  key_to_multicast key family = Raise e <->
  (~ is_text key /\ e = UnicodeEncodeError) \/
  (is_text key /\ family <> py "ipv4" /\ family <> py "ipv6" /\
   e = ValueError "unknown family").
Proof.
  intros Hstr.
  destruct (utf8_encode_str key Hstr) as [[Ht [bs Hbs]]|[Ht Hbs]].
  - assert (Hkb : str_encode key = Ok (map byte_of_Z bs)).
    { unfold str_encode. rewrite Hbs. reflexivity. }
    rewrite (key_to_multicast_encoded key family _ Hkb). unfold pystr_eqb.
    destruct (bool_decide_reflect (family = py "ipv4")) as [E4|E4].
    { split; [discriminate|]. intros [[Hn _]|(_ & Hn & _)]; contradiction. }
    destruct (bool_decide_reflect (family = py "ipv6")) as [E6|E6].
    { split; [discriminate|]. intros [[Hn _]|(_ & _ & Hn & _)]; contradiction. }
    split.
    + intros [= <-]. right. auto.
    + intros [[Hn _]|(_ & _ & _ & ->)]; [contradiction|reflexivity].
  - unfold key_to_multicast, str_encode. rewrite Hbs. cbn [bind]. split.
    + intros [= <-]. left. auto.
    + intros [[_ ->]|(Hn & _)]; [reflexivity|contradiction].
Qed.

Lemma key_to_multicast_errors_witness :
  key_to_multicast (py "rover") (py "udp") = Raise (ValueError "unknown family") /\
  key_to_multicast [114; 0xD800] (py "udp") = Raise UnicodeEncodeError.
Proof.
  split.
  - apply (key_to_multicast_errors (py "rover") (py "udp")).
    + cbv [py]. repeat (apply List.Forall_cons; [vm_compute; split; discriminate|]).
      apply List.Forall_nil.
    + right. split; [solve_text|]. repeat split; discriminate.
  - apply (key_to_multicast_errors [114; 0xD800] (py "udp")).
    + repeat (apply List.Forall_cons; [vm_compute; split; discriminate|]).
      apply List.Forall_nil.
    + left. split; [|reflexivity]. intros Hn.
      apply Forall_cons_1 in Hn. destruct Hn as [_ Hn].
      apply Forall_cons_1 in Hn. destruct Hn as [[_ Hn] _]. discriminate Hn.
Defined.

(** A group has one port: whatever families two calls with the same key
    name, the ports they return are equal. *)
Theorem key_to_multicast_port_of_key (key f1 f2 a1 a2 : pystr) (p1 p2 : Z) :
  key_to_multicast key f1 = Ok (a1, p1) ->
  key_to_multicast key f2 = Ok (a2, p2) ->
  p1 = p2.
Proof.
  intros H1 H2.
  destruct (str_encode key) as [kb|e] eqn:Hkb.
  - rewrite (key_to_multicast_encoded key f1 kb Hkb) in H1.
    rewrite (key_to_multicast_encoded key f2 kb Hkb) in H2.
    destruct (pystr_eqb f1 (py "ipv4")); [|destruct (pystr_eqb f1 (py "ipv6"))];
      destruct (pystr_eqb f2 (py "ipv4")); try destruct (pystr_eqb f2 (py "ipv6"));
      congruence.
  - unfold key_to_multicast in H1. rewrite Hkb in H1. discriminate H1.
Qed.

Lemma key_to_multicast_port_of_key_witness :
  exists p,
    key_to_multicast (py "rover") (py "ipv4") = Ok (py "224.0.0.23", p) /\
    key_to_multicast (py "rover") (py "ipv6")
    = Ok (py "ff13:0:17a5:a9c8:af7e:19cf:b341:d9fa", p).
Proof.
  assert (H1 : key_to_multicast (py "rover") (py "ipv4") = Ok (py "224.0.0.23", 50608))
    by (vm_compute; reflexivity).
  assert (H2 : key_to_multicast (py "rover") (py "ipv6")
               = Ok (py "ff13:0:17a5:a9c8:af7e:19cf:b341:d9fa", 50608))
    by (vm_compute; reflexivity).
  exists 50608.
  destruct (key_to_multicast_port_of_key _ _ _ _ _ _ _ H1 H2).
  split; assumption.
Defined.

Lemma scan_hextet_after_head st ih :
  run_after_head st -> 1 <= fst ih -> run_after_head (scan_hextet st ih).
Proof.
  intros [Hb Hr] Hi. destruct ih as [index hextet]. cbn [fst] in Hi.
  unfold scan_hextet. destruct (pystr_eqb hextet [48]).
  - assert (Hs : 1 <= (if run_start st =? -1 then index else run_start st)).
    { destruct (Z.eqb_spec (run_start st) (-1)); lia. }
    destruct (best_len st <? run_len st + 1); split; cbn; auto.
  - split; cbn; auto.
Qed.

Lemma foldl_scan_after_head l st :
  run_after_head st -> Forall (fun ih => 1 <= fst ih) l ->
  run_after_head (foldl scan_hextet st l).
Proof.
  revert st. induction l as [|ih l IH]; intros st Hst Hl; [exact Hst|].
  apply Forall_cons_1 in Hl. destruct Hl as [Hi Hl].
  cbn [foldl]. apply IH; [apply scan_hextet_after_head; assumption|exact Hl].
Qed.

Lemma zip_indices_from {A} (l : list A) (k : nat) :
  Forall (fun ih : Z * A => Z.of_nat k <= fst ih) (zip (map Z.of_nat (seq k (length l))) l).
Proof.
  revert k. induction l as [|x l IH]; intros k; [apply List.Forall_nil|].
  cbn [length seq map zip zip_with]. apply List.Forall_cons; [cbn; lia|].
  eapply Forall_impl; [apply (IH (S k))|]. intros [i y]. cbn. lia.
Qed.

Lemma join_head sep p q ps : join sep (p :: q :: ps) = p ++ sep ++ join sep (q :: ps).
Proof. reflexivity. Qed.

Lemma scan_enumerate_after_head (h0 : pystr) (l : list pystr) :
  h0 <> [48] ->
  run_after_head (foldl scan_hextet (ZeroRun (-1) 0 (-1) 0) (enumerate (h0 :: l))).
Proof.
  intros Hh. unfold enumerate. cbn [length seq map zip zip_with foldl].
  assert (E : scan_hextet (ZeroRun (-1) 0 (-1) 0) (0, h0) = ZeroRun (-1) 0 (-1) 0).
  { unfold scan_hextet, pystr_eqb. rewrite bool_decide_eq_false_2 by exact Hh.
    reflexivity. }
  change (Z.of_nat 0) with 0. rewrite E.
  apply foldl_scan_after_head.
  - split; cbn; [left; split; reflexivity|left; reflexivity].
  - apply (zip_indices_from l 1).
Qed.

Lemma compress_hextets_head (h0 h1 : pystr) (t : list pystr) :
  h0 <> [48] ->
  exists rest, join [58] (compress_hextets (h0 :: h1 :: t)) = h0 ++ 58 :: rest.
Proof.
  intros Hh. unfold compress_hextets.
  pose proof (scan_enumerate_after_head h0 (h1 :: t) Hh) as Hst.
  set (st := foldl scan_hextet _ _) in *.
  destruct (Z.ltb_spec 1 (best_len st)) as [Hlen|Hlen].
  - destruct Hst as [[[_ Hz]|Hb] _]; [lia|].
    destruct (Z.eqb_spec (best_start st) 0) as [E0|_]; [lia|].
    set (h1s := if _ =? _ then _ else _).
    assert (Hh1 : exists t', h1s = h0 :: t').
    { unfold h1s. destruct (_ =? _); eexists; reflexivity. }
    destruct Hh1 as [t' ->].
    destruct (Z.to_nat (best_start st)) as [|n] eqn:En; [lia|].
    cbn [take app].
    destruct (take n t' ++ [] :: drop (Z.to_nat (best_start st + best_len st)) (h0 :: t'))
      as [|q qs] eqn:Eq.
    { destruct (take n t'); discriminate Eq. }
    rewrite join_head. eexists. reflexivity.
  - rewrite join_head. eexists. reflexivity.
Qed.

(** For the ipv6 family the address text begins with ff13 and a colon: the
    zero hextet that follows the prefix is never folded into the start of
    the text. *)
Theorem key_to_multicast_ipv6_text (key : pystr) :
  is_text key ->
  exists rest port, key_to_multicast key (py "ipv6") = Ok (py "ff13:" ++ rest, port).
Proof.
  intros Htext. destruct (str_encode_text key Htext) as [kb Hkb].
  rewrite (key_to_multicast_encoded key _ kb Hkb).
  change (pystr_eqb (py "ipv6") (py "ipv4")) with false.
  change (pystr_eqb (py "ipv6") (py "ipv6")) with true. cbv iota.
  destruct (sha256_head kb) as (b0 & b1 & b2 & b3 & tl & Hd & Hrest).
  assert (Hlen : length (slice 3 15 (SHA256.sha256 kb)) = 12%nat).
  { rewrite Hd. unfold slice. cbn [drop]. rewrite length_take. cbn [length].
    rewrite Hrest. reflexivity. }
  destruct (ipv6_packed_value _ Hlen) as (t & Ht & ->).
  cbn [ip_str]. unfold hextets_of. cbn [seq rev app map].
  assert (E7 : Z.shiftr (0xFF130000 * 2 ^ 96 + t) (16 * Z.of_nat 7) mod 65536 = 0xFF13).
  { rewrite Z.shiftr_div_pow2 by lia. cbn [Z.of_nat Pos.of_succ_nat Pos.succ Z.mul Pos.mul Pos.add].
    Z.to_euclidean_division_equations; lia. }
  rewrite E7.
  destruct (compress_hextets_head (hextet_str 0xFF13)
              (hextet_str (Z.shiftr (0xFF130000 * 2 ^ 96 + t) (16 * Z.of_nat 6) mod 65536))
              (map (fun i => hextet_str (Z.shiftr (0xFF130000 * 2 ^ 96 + t)
                                           (16 * Z.of_nat i) mod 65536)) [5; 4; 3; 2; 1; 0]%nat))
    as [rest Hrest']; [vm_compute; discriminate|].
  cbn [map] in Hrest'. rewrite Hrest'.
  exists rest, (Z.lor (int_from_bytes_little (slice 0 2 (SHA256.sha256 kb))) 0xC000).
  reflexivity.
Qed.

Lemma key_to_multicast_ipv6_text_witness :
  exists rest port, key_to_multicast (py "rover") (py "ipv6") = Ok (py "ff13:" ++ rest, port).
Proof.
  apply (key_to_multicast_ipv6_text (py "rover")). solve_text.
Defined.

(** * Further properties of the router *)

Lemma heartbeat_fields_error msg e :
  heartbeat_fields msg = Raise e -> e = KeyError \/ e = TypeError.
Proof.
  unfold heartbeat_fields, getitem.
  destruct (data msg) as [ | b | n | lit | str | items | d]; cbn [bind];
    try (intros [= <-]; auto).
  destruct (dict_get (py "source") d) as [sv|]; cbn [bind]; [|intros [= <-]; auto].
  destruct (dict_get (py "listen") d) as [lv|]; cbn [bind]; [|intros [= <-]; auto].
  destruct sv; cbn; intros H; try discriminate H; injection H as <-; auto.
Qed.

Lemma futures_step s ev :
  Forall (fun f => f = mkFuture false 0 \/ f = mkFuture true 1) (futures s) ->
  Forall (fun f => f = mkFuture false 0 \/ f = mkFuture true 1) (futures (step s ev)).
Proof.
  intros Hs. destruct ev as [other msg|dt|k0|k0 fid]; cbn [step].
  - destruct (heartbeat_fields msg) as [[k1 l]|e] eqn:Hf.
    + rewrite (heartbeat_callback_state other msg s k1 l Hf). cbn.
      unfold futures_after_resolve.
      destruct (_pending_connections s !! k1) as [f1|]; [|exact Hs].
      destruct (futures s !! f1) as [f|] eqn:Ef; [|exact Hs].
      destruct (f_done f) eqn:Ed; [exact Hs|].
      apply Forall_insert; [exact Hs|].
      pose proof (Forall_lookup_1 _ _ _ _ Hs Ef) as [->| ->]; [auto|discriminate Ed].
    + rewrite (heartbeat_callback_error other msg s e Hf). exact Hs.
  - destruct (advance_fields dt s) as (_ & _ & _ & _ & -> & _). exact Hs.
  - unfold connect. destruct (_peers s !! k0) eqn:Ep.
    + destruct (connect_open_fields k0 s) as (_ & _ & _ & _ & ->). exact Hs.
    + cbn. apply Forall_app. split; [exact Hs|]. apply List.Forall_cons; auto.
  - destruct (futures s !! fid) as [[[|] n]|]; cbn [f_done]; try exact Hs.
    destruct (connect_resume_fields k0 s) as (_ & _ & _ & ->). exact Hs.
Qed.

(** In every state the router reaches, a future of a pending connection
    has had [set_result] called on it once if it is done and never
    otherwise: no future is resolved twice.  Every entry of
    [_pending_connections] names a future that exists. *)
Theorem futures_resolved_once (nm u : pystr) (evs : list event) :
  let s := run evs (Router nm u) in
  Forall (fun f => f = mkFuture false 0 \/ f = mkFuture true 1) (futures s) /\
  (forall k fid, _pending_connections s !! k = Some fid -> is_Some (futures s !! fid)).
Proof.
  cbv zeta. split.
  - induction evs as [|ev evs IH] using rev_ind; [apply List.Forall_nil|].
    rewrite run_snoc. apply futures_step, IH.
  - intros k fid H. apply lookup_lt_is_Some_2. exact (pending_wf_run nm u evs k fid H).
Qed.

(** In every state the router reaches, [connect(name)] does not raise at
    its call: when [name] has a record, the connection to the endpoint the
    record holds is opened at once, and nothing is registered in
    [_pending_connections]; when it has none, the call waits on a new
    future. *)
Theorem connect_reachable (nm u : pystr) (evs : list event) (name : hkey) :
  let s := run evs (Router nm u) in
  match _peers s !! name with
  | Some p =>
      exists h pt,
        listen p = Some (h, pt) /\
        connect name s = (Ok (AwaitConnection h pt), log (OpenConnection h pt) s)
  | None =>
      fst (connect name s) = Ok (AwaitFuture (length (futures s))) /\
      effects (snd (connect name s)) = effects s
  end.
Proof.
  cbv zeta. destruct (peer_inv_run nm u evs) as (_ & Hrec & _).
  destruct (_peers (run evs (Router nm u)) !! name) as [p|] eqn:Ep.
  - destruct (Hrec name p Ep) as (tid & d & [h pt] & -> & _).
    exists h, pt. split; [reflexivity|].
    unfold connect, connect_open. rewrite Ep. reflexivity.
  - unfold connect. rewrite Ep. split; reflexivity.
Qed.

(** When [Connection.from_addr] has returned, [connect] stores the
    connection under [name] before it reads the peer table again for its
    message: if the record of [name] has expired in between, [connect]
    raises [KeyError] and the connection stays in [_connections]. *)
Theorem connect_finish_after_expiry (nm u : pystr) (evs : list event) (name : hkey)
    (ep : pystr * json) :
  let s := run evs (Router nm u) in
  let r := connect_finish name ep (Ok tt) s in
  _connections (snd r) !! name = Some ep /\
  (fst r = Raise KeyError <-> _peers s !! name = None) /\
  (fst r = Ok tt <-> is_Some (_peers s !! name)).
Proof.
  cbv zeta. destruct (peer_inv_run nm u evs) as (_ & Hrec & _).
  unfold connect_finish. cbn [_peers set_connections].
  destruct (_peers (run evs (Router nm u)) !! name) as [p|] eqn:Ep.
  - destruct (Hrec name p Ep) as (tid & d & lst & -> & _). cbn.
    rewrite lookup_insert_eq. split; [reflexivity|]. split; split; eauto; discriminate.
  - cbn. rewrite lookup_insert_eq. split; [reflexivity|].
    split; split; auto; try discriminate. intros [? ?]. discriminate.
Qed.

(** A heartbeat callback is all or nothing: it raises [KeyError] (a key
    missing from the data) or [TypeError] (data that is no dict, or a
    source that cannot be a key) before it has changed anything, or it
    returns with the record of its source in the peer table. *)
Theorem heartbeat_callback_atomic (other : endpoint) (msg : Message) (s : router) :
  (exists e, (e = KeyError \/ e = TypeError) /\
             _heartbeat_callback other msg s = (Raise e, s)) \/
  (exists k l tid,
     heartbeat_fields msg = Ok (k, l) /\
     fst (_heartbeat_callback other msg s) = Ok tt /\
     _peers (snd (_heartbeat_callback other msg s)) !! k
     = Some (mkPeer (Some (host other, l)) (Some tid))).
Proof.
  destruct (heartbeat_fields msg) as [[k l]|e] eqn:Hf.
  - right. exists k, l, (length (tasks s)). split; [reflexivity|].
    rewrite (heartbeat_callback_state other msg s k l Hf). cbn.
    rewrite lookup_insert_eq. split; reflexivity.
  - left. exists e. split; [exact (heartbeat_fields_error msg e Hf)|].
    apply heartbeat_callback_error, Hf.
Qed.

(** * From one router to another *)

Lemma encode_from_bytes m :
  representable_message m ->
  encode m = Ok (map byte_of_Z (to_json m)) /\
  from_bytes (map byte_of_Z (to_json m)) = Ok m.
Proof.
  intros Hm.
  assert (Ha : ascii_text (to_json m)).
  { apply dumps_ascii, message_object_representable, Hm. }
  destruct (decode_encode_ascii (to_json m) Ha) as [He Hd].
  split; [exact He|].
  unfold from_bytes. rewrite Hd. cbn [bind].
  rewrite from_string_to_json by exact Hm. reflexivity.
Qed.

Lemma caster_heartbeat s : _callbacks (_caster s) !! py "heartbeat" = Some HEARTBEAT_CALLBACK.
Proof.
  unfold _caster, on_cast. cbn [_callbacks].
  rewrite lookup_insert_ne by (vm_compute; discriminate).
  apply lookup_insert_eq.
Qed.

Lemma caster_publish s : _callbacks (_caster s) !! py "publish" = Some PUBLISH_CALLBACK.
Proof. unfold _caster, on_cast. cbn [_callbacks]. apply lookup_insert_eq. Qed.

Lemma recv_daemon_body_datagram c bs other msg ty :
  from_bytes bs = Ok msg -> type msg = JString ty ->
  recv_daemon_body c (Datagram bs other)
  = match _callbacks c !! ty with
    | None => Ok None
    | Some h => if is_own c msg then Ok None else Ok (Some (mkTask h other msg))
    end.
Proof.
  intros Hb Ht. unfold recv_daemon_body, _recv. rewrite Hb. cbn [bind fst snd].
  unfold callbacks_get. rewrite Ht. cbn [to_key bind]. reflexivity.
Qed.

Lemma is_own_uuid s src ty d : is_own (_caster s) (mkMessage (JString src) ty d) = bool_decide (src = uuid s).
Proof. reflexivity. Qed.

Lemma recvfrom_whole payload other :
  (length payload <= BUFFER_SIZE)%nat ->
  recvfrom BUFFER_SIZE payload other = Datagram payload other.
Proof. intros H. unfold recvfrom. rewrite take_ge by exact H. reflexivity. Qed.

(** What one router casts, another takes in, and the sender does not:
    the heartbeat a router sends is a datagram that the receive loop of the
    sender drops (the source is its own identity) and that the receive loop
    of a router with another identity hands to the heartbeat callback,
    which records the sender's name with the datagram's host and the
    advertised port. *)
Theorem heartbeat_end_to_end (a b : router) (pt : Z) (other : endpoint) :
  let msg := mkMessage (JString (uuid a)) (JString (py "heartbeat"))
               (JObject [(py "source", JString (name a)); (py "listen", JInt pt)]) in
  is_text (name a) -> is_text (uuid a) -> uuid a <> uuid b ->
  (length (to_json msg) <= BUFFER_SIZE)%nat ->
  exists payload,
    _heartbeat_daemon pt a = (Ok tt, log (SendTo payload) a) /\
    recv_daemon_body (_caster a) (recvfrom BUFFER_SIZE payload other) = Ok None /\
    recv_daemon_body (_caster b) (recvfrom BUFFER_SIZE payload other)
    = Ok (Some (mkTask HEARTBEAT_CALLBACK other msg)) /\
    fst (_heartbeat_callback other msg b) = Ok tt /\
    _peers (snd (_heartbeat_callback other msg b)) !! HStr (name a)
    = Some (mkPeer (Some (host other, JInt pt)) (Some (length (tasks b)))).
Proof.
  intros msg Hn Hu Hne Hlen.
  assert (Hm : representable_message msg).
  { split; [exact Hu|]. split; [solve_text|].
    cbn [data msg representable]. split.
    - apply (bool_decide_unpack _). vm_compute. exact I.
    - cbn [fold_right fst snd representable]. repeat split; try solve_text. exact Hn. }
  destruct (encode_from_bytes msg Hm) as [He Hd].
  exists (map byte_of_Z (to_json msg)).
  assert (Hl : (length (map byte_of_Z (to_json msg)) <= BUFFER_SIZE)%nat).
  { rewrite length_map. exact Hlen. }
  split; [|split; [|split]].
  - unfold _heartbeat_daemon, cast. fold msg. rewrite He. reflexivity.
  - rewrite (recvfrom_whole _ _ Hl).
    rewrite (recv_daemon_body_datagram _ _ _ msg (py "heartbeat") Hd eq_refl).
    rewrite caster_heartbeat. unfold msg. rewrite is_own_uuid.
    rewrite bool_decide_eq_true_2 by reflexivity. reflexivity.
  - rewrite (recvfrom_whole _ _ Hl).
    rewrite (recv_daemon_body_datagram _ _ _ msg (py "heartbeat") Hd eq_refl).
    rewrite caster_heartbeat. unfold msg. rewrite is_own_uuid.
    rewrite bool_decide_eq_false_2 by exact Hne. reflexivity.
  - assert (Hf : heartbeat_fields msg = Ok (HStr (name a), JInt pt)) by reflexivity.
    rewrite (heartbeat_callback_state other msg b _ _ Hf). cbn.
    rewrite lookup_insert_eq. split; reflexivity.
Qed.

Lemma heartbeat_end_to_end_witness :
  exists payload,
    _heartbeat_daemon 40123 (Router (py "rover") (py "9f1c")) 
    = (Ok tt, log (SendTo payload) (Router (py "rover") (py "9f1c"))) /\
    recv_daemon_body (_caster (Router (py "base") (py "07aa")))
      (recvfrom BUFFER_SIZE payload (mkEndpoint (py "10.0.0.7") 50608))
    = Ok (Some (mkTask HEARTBEAT_CALLBACK (mkEndpoint (py "10.0.0.7") 50608)
                  (mkMessage (JString (py "9f1c")) (JString (py "heartbeat"))
                     (JObject [(py "source", JString (py "rover"));
                               (py "listen", JInt 40123)])))).
Proof.
  destruct (heartbeat_end_to_end (Router (py "rover") (py "9f1c"))
              (Router (py "base") (py "07aa")) 40123 (mkEndpoint (py "10.0.0.7") 50608))
    as (payload & Hc & _ & Hr & _).
  - solve_text.
  - solve_text.
  - vm_compute. discriminate.
  - apply Nat.leb_le. vm_compute. reflexivity.
  - exists payload. split; [exact Hc|exact Hr].
Defined.

Lemma is_text_topic nm topic : is_text nm -> is_text topic -> is_text (nm ++ [47] ++ topic).
Proof.
  intros Hn Ht. apply Forall_app. split; [exact Hn|].
  apply List.Forall_cons; [split; [lia|reflexivity]|exact Ht].
Qed.

Lemma topic_message_representable src ty t d :
  is_text src -> is_text ty -> is_text t -> representable d ->
  representable_message
    (mkMessage (JString src) (JString ty) (JObject [(py "topic", JString t); (py "data", d)])).
Proof.
  intros Hs Hty Ht Hd. split; [exact Hs|]. split; [exact Hty|].
  cbn [data representable]. split.
  - apply (bool_decide_unpack _). vm_compute. exact I.
  - cbn [fold_right fst snd representable]. repeat split; try solve_text; assumption.
Qed.

(** A publication reaches the subscribers of the other routers and not the
    publisher's own: the datagram [publish] sends is dropped by the
    publisher's receive loop, and in a router with another identity it
    starts the publish callback, which creates one task for each
    subscription whose pattern matches the publisher's name, a slash and
    the topic, and then awaits the general callbacks. *)
Theorem publish_end_to_end (format_other : json -> pystr) (a b : router)
    (topic : pystr) (d : json) (other : endpoint) :
  let t := name a ++ [47] ++ topic in
  let msg := mkMessage (JString (uuid a)) (JString (py "publish"))
               (JObject [(py "topic", JString t); (py "data", d)]) in
  is_text (name a) -> is_text (uuid a) -> is_text topic -> representable d ->
  uuid a <> uuid b ->
  (length (to_json msg) <= BUFFER_SIZE)%nat ->
  exists payload,
    publish format_other (JString topic) d a = (Ok tt, log (SendTo payload) a) /\
    recv_daemon_body (_caster a) (recvfrom BUFFER_SIZE payload other) = Ok None /\
    recv_daemon_body (_caster b) (recvfrom BUFFER_SIZE payload other)
    = Ok (Some (mkTask PUBLISH_CALLBACK other msg)) /\
    exists k r,
      _publish_callback other msg b
      = (r, log_list (spawns t d (_subscriptions b)
                      ++ awaits msg (take k (message_callbacks b))) b) /\
      (Forall (fun cb => exists u, cb_run cb msg = Ok u) (message_callbacks b) ->
       r = Ok tt /\ k = length (message_callbacks b)).
Proof.
  intros t msg Hn Hu Htopic Hd Hne Hlen.
  assert (Hm : representable_message msg).
  { apply topic_message_representable; try assumption; [solve_text|].
    apply is_text_topic; assumption. }
  destruct (encode_from_bytes msg Hm) as [He Hdec].
  exists (map byte_of_Z (to_json msg)).
  assert (Hl : (length (map byte_of_Z (to_json msg)) <= BUFFER_SIZE)%nat).
  { rewrite length_map. exact Hlen. }
  split; [|split; [|split]].
  - unfold publish, cast. cbn [format_value]. fold t. fold msg. rewrite He. reflexivity.
  - rewrite (recvfrom_whole _ _ Hl).
    rewrite (recv_daemon_body_datagram _ _ _ msg (py "publish") Hdec eq_refl).
    rewrite caster_publish. unfold msg. rewrite is_own_uuid.
    rewrite bool_decide_eq_true_2 by reflexivity. reflexivity.
  - rewrite (recvfrom_whole _ _ Hl).
    rewrite (recv_daemon_body_datagram _ _ _ msg (py "publish") Hdec eq_refl).
    rewrite caster_publish. unfold msg. rewrite is_own_uuid.
    rewrite bool_decide_eq_false_2 by exact Hne. reflexivity.
  - destruct (publish_callback_spec other msg b t d eq_refl eq_refl) as (k & r & H1 & _ & H3).
    exists k, r. split; assumption.
Qed.

Lemma publish_end_to_end_witness :
  exists payload k r,
    publish (fun _ => []) (JString (py "blarg")) (JInt 27) (Router (py "rover") (py "9f1c"))
    = (Ok tt, log (SendTo payload) (Router (py "rover") (py "9f1c"))) /\
    let b := subscribe (py "rover/*") 7%nat (Router (py "base") (py "07aa")) in
    let msg := mkMessage (JString (py "9f1c")) (JString (py "publish"))
                 (JObject [(py "topic", JString (py "rover/blarg")); (py "data", JInt 27)]) in
    _publish_callback (mkEndpoint (py "10.0.0.7") 50608) msg b
    = (r, log_list ([CreateTask 7%nat (JString (py "rover/blarg")) (JInt 27)]
                    ++ awaits msg (take k [])) b).
Proof.
  destruct (publish_end_to_end (fun _ => []) (Router (py "rover") (py "9f1c"))
              (subscribe (py "rover/*") 7%nat (Router (py "base") (py "07aa")))
              (py "blarg") (JInt 27) (mkEndpoint (py "10.0.0.7") 50608))
    as (payload & Hc & _ & _ & k & r & Hp & _).
  - solve_text.
  - solve_text.
  - solve_text.
  - exact I.
  - vm_compute. discriminate.
  - apply Nat.leb_le. vm_compute. reflexivity.
  - exists payload, k, r. split; [exact Hc|exact Hp].
Defined.

(** * Connections *)

Lemma handle_connection_ok cbs evs ts :
  Forall (handled_read cbs) evs ->
  _handle_connection cbs evs ts = mkHandled (ts ++ omap (spawned_by cbs) evs) None false.
Proof.
  revert ts. induction evs as [|ev evs IH]; intros ts Hok.
  - cbn. rewrite app_nil_r. reflexivity.
  - apply Forall_cons_1 in Hok. destruct Hok as [[o Ho] Hok].
    cbn [_handle_connection omap list_omap]. unfold spawned_by at 1. rewrite Ho.
    destruct o as [t|].
    + rewrite (IH _ Hok), <- app_assoc. reflexivity.
    + apply IH, Hok.
Qed.

(** The loop of a connection ends at the first read it cannot handle: the
    reads before it have made their tasks, the exception is printed, the
    connection is closed and nothing that follows is read.  While every
    read is handled, the connection stays open. *)
Theorem handle_connection_first_failure (cbs : gmap pystr handler)
    (ts : list listener_task) :
  (forall evs, Forall (handled_read cbs) evs ->
     _handle_connection cbs evs ts = mkHandled (ts ++ omap (spawned_by cbs) evs) None false) /\
  (forall evs1 ev evs2 e,
     Forall (handled_read cbs) evs1 -> handle_connection_body cbs ev = Raise e ->
     _handle_connection cbs (evs1 ++ ev :: evs2) ts
     = mkHandled (ts ++ omap (spawned_by cbs) evs1) (Some e) true).
Proof.
  split; [intros evs; apply handle_connection_ok|].
  intros evs1 ev evs2 e. revert ts.
  induction evs1 as [|ev1 evs1 IH]; intros ts Hok He.
  - cbn. rewrite He, app_nil_r. reflexivity.
  - apply Forall_cons_1 in Hok. destruct Hok as [[o Ho] Hok].
    cbn [app _handle_connection omap list_omap]. unfold spawned_by at 1. rewrite Ho.
    destruct o as [t|].
    + rewrite (IH _ Hok He), <- app_assoc. reflexivity.
    + apply IH; assumption.
Qed.

Lemma loads_extra_data v c rest :
  representable v -> ends_number (c :: rest) -> is_ws c = false ->
  loads (dumps v ++ c :: rest) = Raise (JSONDecodeError "Extra data").
Proof.
  intros Hv He Hc. unfold loads.
  destruct (dumps_head v Hv) as (c0 & t & Ec & Hc0).
  assert (Hb : strip_prefix [65279] (dumps v ++ c :: rest) = None).
  { rewrite Ec. cbn [app]. apply strip_prefix_head. destruct Hc0 as (_ & _ & _ & Hc0).
    intros E. apply Hc0. symmetry. exact E. }
  rewrite Hb, (skip_ws_dumps v _ Hv).
  destruct (scan_once_dumps v Hv (c :: rest) He) as [f0 Hf0].
  rewrite (scan_once_fuel_indep f0 _ _ v (c :: rest) (Hf0 f0 (le_n _))).
  - cbn [bind fst snd skip_ws]. rewrite Hc. reflexivity.
  - pose proof (proj1 (scan_fuel_enough (2 * length (dumps v ++ c :: rest) + 2))
                  (dumps v ++ c :: rest) ltac:(lia)) as H.
    intros E. rewrite E in H. destruct H as [m Hm]. discriminate Hm.
Qed.

(** What ends a connection: an error of the socket; bytes that are no
    Message, the empty read at the end of the stream among them; a Message
    whose type cannot be a dictionary key; and two Messages that arrive in
    one read, for nothing marks where one ends. *)
Theorem handle_connection_failures (cbs : gmap pystr handler) :
  (forall ev e, handle_connection_body cbs ev = Raise e <->
                read ev = Raise e \/
                exists msg, read ev = Ok msg /\ to_key (type msg) = Raise e) /\
  handle_connection_body cbs (Chunk []) = Raise (ValueError "Invalid JSON.") /\
  (forall m1 m2, representable_message m1 -> representable_message m2 ->
     exists b1 b2, encode m1 = Ok b1 /\ encode m2 = Ok b2 /\
       handle_connection_body cbs (Chunk (b1 ++ b2)) = Raise (ValueError "Invalid JSON.")).
Proof.
  split; [|split].
  - intros ev e. unfold handle_connection_body.
    destruct (read ev) as [msg|e0]; cbn [bind].
    + unfold listener_get. destruct (to_key (type msg)) as [k|e1] eqn:Ek; cbn [bind].
      * split.
        -- destruct k; try destruct (cbs !! s); discriminate.
        -- intros [H|(m & Hm & H)]; [discriminate H|].
           injection Hm as <-. congruence.
      * split.
        -- intros [= <-]. right. exists msg. auto.
        -- intros [H|(m & Hm & H)]; [discriminate H|].
           injection Hm as <-. congruence.
    + split.
      * intros [= <-]. left. reflexivity.
      * intros [[= <-]|(m & H & _)]; [reflexivity|discriminate H].
  - reflexivity.
  - intros m1 m2 H1 H2.
    pose proof (message_object_representable m1 H1) as R1.
    pose proof (message_object_representable m2 H2) as R2.
    pose proof (dumps_ascii _ R1) as A1. pose proof (dumps_ascii _ R2) as A2.
    fold (to_json m1) in A1. fold (to_json m2) in A2.
    destruct (decode_encode_ascii _ A1) as [E1 _].
    destruct (decode_encode_ascii _ A2) as [E2 _].
    destruct (decode_encode_ascii _ (ascii_text_app _ _ A1 A2)) as [_ D12].
    exists (map byte_of_Z (to_json m1)), (map byte_of_Z (to_json m2)).
    split; [exact E1|]. split; [exact E2|].
    unfold handle_connection_body, read.
    rewrite <- map_app, (from_bytes_decoded _ _ D12).
    assert (Hl : loads (to_json m1 ++ to_json m2) = Raise (JSONDecodeError "Extra data")).
    { assert (Eh : exists t2, to_json m2 = 123 :: t2) by (eexists; reflexivity).
      destruct Eh as [t2 ->].
      apply loads_extra_data; [exact R1| |reflexivity].
      cbn. repeat split; discriminate. }
    unfold from_string. rewrite Hl. reflexivity.
Qed.

Lemma listener_send : _listener !! py "send" = Some SEND_CALLBACK.
Proof. unfold _listener. apply lookup_singleton_eq. Qed.

(** A direct message reaches the subscribers of the router it is sent to:
    with a connection to [dest] at hand, [send] writes the encoding of a
    Message whose source is the sender's name and whose topic is that name,
    a slash and the topic; the listener that reads these bytes in one read
    starts the send callback with the sender's name, and the callback
    creates one task for each subscription whose pattern matches the topic
    and awaits the general callbacks. *)
Theorem send_end_to_end (format_other : json -> pystr) (a b : router) (dest : hkey)
    (conn : pystr * json) (topic : pystr) (d : json) (other : endpoint) :
  let t := name a ++ [47] ++ topic in
  let msg := mkMessage (JString (name a)) (JString (py "send"))
               (JObject [(py "topic", JString t); (py "data", d)]) in
  is_text (name a) -> is_text topic -> representable d ->
  _connections a !! dest = Some conn ->
  (length (to_json msg) <= BUFFER_SIZE)%nat ->
  exists payload,
    send format_other dest (JString topic) d a = (Ok (SendWrite conn payload), a) /\
    handle_connection_body _listener (recv BUFFER_SIZE payload)
    = Ok (Some (mkListenerTask SEND_CALLBACK (JString (name a)) msg)) /\
    exists k r,
      _send_callback other msg b
      = (r, log_list (spawns t d (_subscriptions b)
                      ++ awaits msg (take k (message_callbacks b))) b) /\
      (Forall (fun cb => exists u, cb_run cb msg = Ok u) (message_callbacks b) ->
       r = Ok tt /\ k = length (message_callbacks b)).
Proof.
  intros t msg Hn Htopic Hd Hconn Hlen.
  assert (Hm : representable_message msg).
  { apply topic_message_representable; try assumption; [solve_text|].
    apply is_text_topic; assumption. }
  destruct (encode_from_bytes msg Hm) as [He Hdec].
  exists (map byte_of_Z (to_json msg)).
  split; [|split].
  - unfold send, send_write. rewrite Hconn. cbn [format_value]. fold t. fold msg.
    rewrite He. reflexivity.
  - unfold recv. rewrite take_ge by (rewrite length_map; exact Hlen).
    unfold handle_connection_body, read. rewrite Hdec. cbn [bind].
    unfold listener_get. cbn [msg type to_key bind]. rewrite listener_send. reflexivity.
  - change (_send_callback other msg b) with (_publish_callback other msg b).
    destruct (publish_callback_spec other msg b t d eq_refl eq_refl) as (k & r & H1 & _ & H3).
    exists k, r. split; assumption.
Qed.

Lemma send_end_to_end_witness :
  exists payload,
    send (fun _ => []) (HStr (py "base")) (JString (py "blarg")) (JInt 27)
      (set_connections (<[HStr (py "base") := (py "10.0.0.7", JInt 40123)]> ∅)
         (Router (py "rover") (py "9f1c")))
    = (Ok (SendWrite (py "10.0.0.7", JInt 40123) payload),
       set_connections (<[HStr (py "base") := (py "10.0.0.7", JInt 40123)]> ∅)
         (Router (py "rover") (py "9f1c"))) /\
    handle_connection_body _listener (recv BUFFER_SIZE payload)
    = Ok (Some (mkListenerTask SEND_CALLBACK (JString (py "rover"))
                  (mkMessage (JString (py "rover")) (JString (py "send"))
                     (JObject [(py "topic", JString (py "rover/blarg"));
                               (py "data", JInt 27)])))).
Proof.
  destruct (send_end_to_end (fun _ => [])
              (set_connections (<[HStr (py "base") := (py "10.0.0.7", JInt 40123)]> ∅)
                 (Router (py "rover") (py "9f1c")))
              (Router (py "base") (py "07aa")) (HStr (py "base"))
              (py "10.0.0.7", JInt 40123) (py "blarg") (JInt 27)
              (mkEndpoint (py "10.0.0.7") 50608))
    as (payload & Hs & Hh & _).
  - solve_text.
  - solve_text.
  - exact I.
  - apply lookup_insert_eq.
  - apply Nat.leb_le. vm_compute. reflexivity.
  - exists payload. split; [exact Hs|exact Hh].
Defined.

(** * Wrapped socket calls *)

Lemma ready_retries {V} (func : nat -> os_outcome V) k w :
  watched w = true -> fut w = Pending ->
  (forall i, (i < k)%nat -> blocks (func (ncalls w + i)%nat) = true) ->
  Nat.iter k (ready func) w = mkWrapped (match k with O => watched w | _ => true end)
                                Pending (ncalls w + k).
Proof.
  revert w. induction k as [|k IH]; intros w Hw Hf Hb.
  - cbn. rewrite Nat.add_0_r. destruct w; cbn in *. subst. reflexivity.
  - rewrite Nat.iter_succ_r.
    assert (H0 : blocks (func (ncalls w)) = true).
    { specialize (Hb 0%nat ltac:(lia)). rewrite Nat.add_0_r in Hb. exact Hb. }
    assert (E : ready func w = mkWrapped true Pending (S (ncalls w))).
    { unfold ready, wrapper. rewrite Hw, Hf. destruct (func (ncalls w)); try discriminate H0;
        reflexivity. }
    rewrite E, IH; cbn [watched fut ncalls]; try reflexivity.
    + f_equal; [destruct k; reflexivity|lia].
    + intros i Hi. specialize (Hb (S i) ltac:(lia)).
      replace (S (ncalls w) + i)%nat with (ncalls w + S i)%nat by lia. exact Hb.
Qed.

Lemma ready_idle {V} (func : nat -> os_outcome V) n w :
  watched w = false -> Nat.iter n (ready func) w = w.
Proof.
  intros Hw. induction n as [|n IH]; [reflexivity|].
  rewrite Nat.iter_succ, IH. unfold ready. rewrite Hw. reflexivity.
Qed.

(** A wrapped call is tried again each time the loop finds the socket
    ready, until the socket method does something else than block: when its
    first [k] calls raise [BlockingIOError] or [InterruptedError] and the
    next one returns or fails, then after the call of the wrapper and [k]
    wake-ups the future holds that result or exception, the method has been
    called [k + 1] times, and the socket is no longer watched, so that later
    wake-ups change nothing. *)
Theorem wrap_io_retries {V : Type} (func : nat -> os_outcome V) (k : nat) :
  (forall i, (i < k)%nat -> blocks (func i) = true) ->
  blocks (func k) = false ->
  fst (wrapper func _wrap_io) = ReturnsFuture /\
  forall n,
    Nat.iter (k + n) (ready func) (snd (wrapper func _wrap_io))
    = mkWrapped false (settled (func k)) (S k).
Proof.
  intros Hb Hk. split.
  - unfold wrapper, _wrap_io. cbn. destruct (func 0%nat); reflexivity.
  - intros n. rewrite Nat.add_comm, Nat.iter_add.
    destruct k as [|k].
    + change (Nat.iter 0 (ready func) (snd (wrapper func _wrap_io)))
        with (snd (wrapper func _wrap_io)). rewrite ready_idle.
      * unfold wrapper, _wrap_io. cbn. destruct (func 0%nat); try discriminate Hk; reflexivity.
      * unfold wrapper, _wrap_io. cbn. destruct (func 0%nat); try discriminate Hk; reflexivity.
    + assert (E0 : snd (wrapper func _wrap_io) = mkWrapped true Pending 1).
      { specialize (Hb 0%nat ltac:(lia)). unfold wrapper, _wrap_io. cbn.
        destruct (func 0%nat); try discriminate Hb; reflexivity. }
      rewrite E0. rewrite Nat.iter_succ.
      rewrite (ready_retries func k (mkWrapped true Pending 1)); cbn [watched fut ncalls];
        try reflexivity.
      * assert (E : ready func (mkWrapped (match k with O => true | _ => true end) Pending (1 + k))
                    = mkWrapped false (settled (func (S k))) (S (S k))).
        { unfold ready, wrapper. cbn [watched fut ncalls].
          replace (match k with O => true | _ => true end) with true by (destruct k; reflexivity).
          change (1 + k)%nat with (S k).
          destruct (func (S k)); try discriminate Hk; reflexivity. }
        rewrite E. apply ready_idle. reflexivity.
      * intros i Hi. apply Hb. lia.
Qed.

Lemma wrap_io_retries_witness :
  Nat.iter 2 (ready (fun i => match i with
                              | 0%nat => WouldBlock
                              | 1%nat => Interrupted
                              | _ => Returns 7%nat
                              end))
    (snd (wrapper (fun i => match i with
                            | 0%nat => WouldBlock
                            | 1%nat => Interrupted
                            | _ => Returns 7%nat
                            end) _wrap_io))
  = mkWrapped false (FutResult 7%nat) 3.
Proof.
  apply (proj2 (wrap_io_retries (fun i => match i with
                                          | 0%nat => WouldBlock
                                          | 1%nat => Interrupted
                                          | _ => Returns 7%nat
                                          end) 2
                  ltac:(intros [|[|i]] Hi; [reflexivity|reflexivity|lia])
                  eq_refl) 0%nat).
Defined.

(** A cancelled future stops the retries: at the next wake-up the wrapper
    takes the socket off the loop and returns without calling the socket
    method, and no later wake-up calls it. *)
Theorem wrap_io_cancelled {V : Type} (func : nat -> os_outcome V) (w : wrapped V) (n : nat) :
  fut w = Pending ->
  Nat.iter (S n) (ready func) (cancel_future w)
  = mkWrapped false FutCancelled (ncalls w) \/
  (watched w = false /\ Nat.iter (S n) (ready func) (cancel_future w) = cancel_future w).
Proof.
  intros Hf. unfold cancel_future. rewrite Hf.
  destruct (watched w) eqn:Hw.
  - left. rewrite Nat.iter_succ_r.
    assert (E : ready func (mkWrapped true FutCancelled (ncalls w))
                = mkWrapped false FutCancelled (ncalls w)) by reflexivity.
    rewrite E. apply ready_idle. reflexivity.
  - right. split; [reflexivity|]. apply ready_idle. reflexivity.
Qed.

Lemma wrap_io_cancelled_witness :
  Nat.iter 3 (ready (fun _ => Returns 7%nat)) (cancel_future (mkWrapped true Pending 1))
  = mkWrapped false FutCancelled 1.
Proof.
  destruct (wrap_io_cancelled (fun _ => Returns 7%nat) (mkWrapped true Pending 1) 2 eq_refl)
    as [H|[H _]]; [exact H|discriminate H].
Defined.

(** * The serial link *)

Lemma strip_prefix_app k b : strip_prefix k (k ++ b) = Some b.
Proof.
  induction k as [|c k IH]; [destruct b; reflexivity|].
  cbn. rewrite Z.eqb_refl. exact IH.
Qed.

Lemma is_substring_app a k b : is_substring k (a ++ k ++ b) = true.
Proof.
  induction a as [|c a IH].
  - destruct (k ++ b) as [|c t] eqn:E.
    + destruct k; [reflexivity|discriminate E].
    + cbn [app]. rewrite <- E. cbn [is_substring].
      unfold is_substring. rewrite E. rewrite <- E, strip_prefix_app.
      destruct k; reflexivity.
  - cbn [app is_substring]. destruct (strip_prefix k (c :: a ++ k ++ b)); [reflexivity|exact IH].
Qed.

Lemma ascii_is_text s : ascii_text s -> is_text s.
Proof.
  intros H. eapply Forall_impl; [exact H|]. intros c Hc. cbv beta in Hc |- *.
  split; [lia|]. unfold is_surrogate. destruct (Z.leb_spec 0xD800 c); [lia|reflexivity].
Qed.

Lemma to_json_shape m :
  to_json m
  = [123; 34] ++ py "source" ++ [34; 58; 32] ++ dumps (source m)
    ++ [44; 32; 34] ++ py "type" ++ [34; 58; 32] ++ dumps (type m)
    ++ [44; 32; 34] ++ py "data" ++ [34; 58; 32] ++ dumps (data m) ++ [125].
Proof.
  unfold to_json. cbn [dumps map join fst snd]. unfold encode_basestring_ascii.
  change (flat_map escape_char (py "source")) with (py "source").
  change (flat_map escape_char (py "type")) with (py "type").
  change (flat_map escape_char (py "data")) with (py "data").
  repeat rewrite <- app_assoc. reflexivity.
Qed.

Lemma to_json_mentions_keys m :
  is_substring (py "source") (to_json m) = true /\
  is_substring (py "type") (to_json m) = true /\
  is_substring (py "data") (to_json m) = true.
Proof.
  rewrite to_json_shape. split; [|split].
  - apply (is_substring_app [123; 34]).
  - rewrite (app_assoc [123; 34]), (app_assoc _ [34; 58; 32]), (app_assoc _ (dumps (source m))),
      (app_assoc _ [44; 32; 34]). apply is_substring_app.
  - rewrite (app_assoc [123; 34]), (app_assoc _ [34; 58; 32]), (app_assoc _ (dumps (source m))),
      (app_assoc _ [44; 32; 34]), (app_assoc _ (py "type")), (app_assoc _ [34; 58; 32]),
      (app_assoc _ (dumps (type m))), (app_assoc _ [44; 32; 34]).
    apply is_substring_app.
Qed.

(** With the encoding 'json', which is [SerialDevice]'s default, a
    forwarded Message goes over the wire encoded twice: the bytes written
    are the JSON string whose content is the Message's JSON text, so that
    they decode to a string and [Message.from_bytes] refuses them with
    [TypeError].  With the encoding 'utf8' the bytes are those of
    [Message.encode] and decode to the Message. *)
Theorem forward_packet_encoding (write_other : json -> serial_exn + list byte)
    (pyvesc_encode : packet -> serial_exn + list byte) (m : Message) :
  representable_message m ->
  (exists bs,
     _send_task write_other pyvesc_encode (py "json") (forward_packet m) = inr bs /\
     bytes_decode bs = Ok (dumps (JString (to_json m))) /\
     loads (dumps (JString (to_json m))) = Ok (JString (to_json m)) /\
     from_bytes bs = Raise TypeError) /\
  (exists bs,
     _send_task write_other pyvesc_encode (py "utf8") (forward_packet m) = inr bs /\
     encode m = Ok bs /\ from_bytes bs = Ok m).
Proof.
  intros Hm. split.
  - assert (Ha : ascii_text (to_json m)).
    { apply dumps_ascii, message_object_representable, Hm. }
    assert (Hr : representable (JString (to_json m))) by (apply ascii_is_text, Ha).
    destruct (decode_encode_ascii _ (dumps_ascii _ Hr)) as [He Hd].
    exists (map byte_of_Z (dumps (JString (to_json m)))).
    split; [|split; [exact Hd|split; [apply loads_dumps, Hr|]]].
    + unfold _send_task, forward_packet.
      change (pystr_eqb (py "json") (py "raw")) with false.
      change (pystr_eqb (py "json") (py "utf8")) with false.
      change (pystr_eqb (py "json") (py "json")) with true. cbv iota.
      rewrite He. reflexivity.
    + rewrite (from_bytes_decoded _ _ Hd). unfold from_string.
      rewrite (loads_dumps _ Hr).
      destruct (to_json_mentions_keys m) as (Hs & Ht & Hx).
      cbn [any_missing contains bind]. rewrite Hs, Ht, Hx. reflexivity.
  - destruct (encode_from_bytes m Hm) as [He Hd].
    exists (map byte_of_Z (to_json m)). split; [|split; assumption].
    unfold _send_task, forward_packet.
    change (pystr_eqb (py "utf8") (py "raw")) with false.
    change (pystr_eqb (py "utf8") (py "utf8")) with true. cbv iota.
    unfold encode in He. rewrite He. reflexivity.
Qed.

Lemma forward_packet_encoding_witness :
  exists bs,
    _send_task (fun _ => inl AttributeError) (fun _ => inl AttributeError) (py "json")
      (forward_packet (mkMessage (JString (py "rover")) (JString (py "publish")) (JInt 27)))
    = inr bs /\
    from_bytes bs = Raise TypeError.
Proof.
  destruct (forward_packet_encoding (fun _ => inl AttributeError) (fun _ => inl AttributeError)
              (mkMessage (JString (py "rover")) (JString (py "publish")) (JInt 27)))
    as [(bs & Hs & _ & _ & Hf) _].
  - split; [|split]; cbn [source type data representable]; try solve_text. exact I.
  - exists bs. split; [exact Hs|exact Hf].
Defined.

(** The VESC branch takes a packet only when its header byte is 2: the
    test that the comment gives as 'must be 2 or 3' skips the header 3 as
    well, and the empty read at the end of the stream. *)
Theorem vesc_header_two_only :
  (forall b, header_skipped [b] = false <-> b = x02) /\
  header_skipped [x03] = true /\
  header_skipped [] = true.
Proof.
  split; [|split; reflexivity].
  intros b. split.
  - destruct b; vm_compute; intros H; try discriminate H; reflexivity.
  - intros ->. reflexivity.
Qed.

(** ** The framing of JSON packets *)

Lemma pystr_eqb_char c k : pystr_eqb [c] [k] = (c =? k).
Proof.
  unfold pystr_eqb. destruct (Z.eqb_spec c k) as [->|Hne].
  - apply bool_decide_eq_true_2. reflexivity.
  - apply bool_decide_eq_false_2. congruence.
Qed.

Lemma count_bracket_char st c :
  count_bracket st [c]
  = if c =? 123 then (fst st + 1, snd st)
    else if c =? 125 then (fst st - 1, snd st)
    else if c =? 91 then (fst st, snd st + 1)
    else if c =? 93 then (fst st, snd st - 1)
    else st.
Proof. unfold count_bracket. rewrite !pystr_eqb_char. reflexivity. Qed.

Lemma count_bracket_free st c :
  c <> 123 /\ c <> 125 /\ c <> 91 /\ c <> 93 -> count_bracket st [c] = st.
Proof.
  intros (H1 & H2 & H3 & H4). rewrite count_bracket_char.
  apply Z.eqb_neq in H1, H2, H3, H4. rewrite H1, H2, H3, H4. reflexivity.
Qed.

Lemma walk_app st a b : walk st (a ++ b) = walk (walk st a) b.
Proof. unfold walk. apply foldl_app. Qed.

Lemma never_below_nil : never_below [].
Proof.
  intros st. split; [reflexivity|]. intros p q H.
  symmetry in H. apply app_eq_nil in H as [-> _]. cbn. lia.
Qed.

Lemma never_below_app a b : never_below a -> never_below b -> never_below (a ++ b).
Proof.
  intros Ha Hb st. destruct (Ha st) as [Ea Pa]. split.
  - rewrite walk_app, Ea. apply (Hb st).
  - intros p q H. apply app_eq_app in H as [k [[-> ->]|[-> ->]]].
    + apply (Pa p k). reflexivity.
    + rewrite walk_app, Ea. apply (proj2 (Hb st) k q). reflexivity.
Qed.

Lemma never_below_char c :
  c <> 123 /\ c <> 125 /\ c <> 91 /\ c <> 93 -> never_below [c].
Proof.
  intros Hc st.
  assert (E : walk st [c] = st) by (unfold walk; cbn; apply count_bracket_free, Hc).
  split; [exact E|]. intros [|x p] q H.
  - cbn. lia.
  - injection H as <- H. symmetry in H. apply app_eq_nil in H as [-> _].
    rewrite E. lia.
Qed.

Lemma never_below_free t : bracket_free t -> never_below t.
Proof.
  induction 1 as [|c t Hc _ IH]; [apply never_below_nil|].
  apply (never_below_app [c] t); [apply never_below_char, Hc|exact IH].
Qed.

Lemma never_below_join sep parts :
  never_below sep -> Forall never_below parts -> never_below (join sep parts).
Proof.
  intros Hsep Hparts. induction Hparts as [|p parts Hp Hparts IH]; [apply never_below_nil|].
  destruct parts as [|q parts]; [exact Hp|].
  change (join sep (p :: q :: parts)) with (p ++ sep ++ join sep (q :: parts)).
  apply never_below_app; [exact Hp|]. apply never_below_app; [exact Hsep|exact IH].
Qed.

(** Inside a pair of brackets the counters are above where they started. *)
Lemma wrapped_interior (o c : Z) (t : pystr) :
  (o = 123 /\ c = 125) \/ (o = 91 /\ c = 93) ->
  never_below t ->
  never_below ([o] ++ t ++ [c]) /\
  forall st p q, [o] ++ t ++ [c] = p ++ q -> p <> [] -> q <> [] ->
    fst st <= fst (walk st p) /\ snd st <= snd (walk st p) /\
    (fst st < fst (walk st p) \/ snd st < snd (walk st p)).
Proof.
  intros Hoc Ht.
  assert (Hin : forall st p q, [o] ++ t ++ [c] = p ++ q -> p <> [] -> q <> [] ->
    fst st <= fst (walk st p) /\ snd st <= snd (walk st p) /\
    (fst st < fst (walk st p) \/ snd st < snd (walk st p))).
  { intros st [|x p] q H Hp Hq; [contradiction|].
    cbn [app] in H. injection H as <- H.
    assert (Hpre : exists k, t = p ++ k).
    { apply app_eq_app in H as [k [[-> H]|[-> H]]]; [eauto|].
      destruct k as [|y k].
      - exists []. rewrite !app_nil_r. reflexivity.
      - injection H as _ H. symmetry in H. apply app_eq_nil in H as [_ ->]. contradiction. }
    destruct Hpre as [k Hk].
    change (walk st (o :: p)) with (walk (count_bracket st [o]) p).
    pose proof (proj2 (Ht (count_bracket st [o])) p k Hk) as [H1 H2].
    rewrite count_bracket_char in *.
    destruct Hoc as [[-> _]|[-> _]]; cbn in H1, H2 |- *; lia. }
  split; [|exact Hin].
  intros st. split.
  - rewrite !walk_app, (proj1 (Ht _)). unfold walk. cbn. rewrite !count_bracket_char.
    destruct Hoc as [[-> ->]|[-> ->]]; cbn; destruct st; cbn; f_equal; lia.
  - intros p q H. destruct p as [|x p]; [cbn; lia|].
    destruct q as [|y q].
    + rewrite app_nil_r in H. rewrite <- H.
      rewrite !walk_app, (proj1 (Ht _)). unfold walk. cbn. rewrite !count_bracket_char.
      destruct Hoc as [[-> ->]|[-> ->]]; cbn; lia.
    + destruct (Hin st (x :: p) (y :: q) H) as (H1 & H2 & _); try discriminate. lia.
Qed.

Lemma bracket_free_app a b : bracket_free a -> bracket_free b -> bracket_free (a ++ b).
Proof. unfold bracket_free. intros. apply Forall_app; auto. Qed.

Lemma bracket_free_cons c s :
  c <> 123 /\ c <> 125 /\ c <> 91 /\ c <> 93 -> bracket_free s -> bracket_free (c :: s).
Proof. unfold bracket_free. intros. apply List.Forall_cons; auto. Qed.

Lemma bracket_free_nil : bracket_free [].
Proof. apply List.Forall_nil. Qed.

Ltac no_bracket := repeat split; lia.

Lemma digits_bracket_free ds : digits ds -> bracket_free ds.
Proof.
  unfold digits, bracket_free. intros H. eapply Forall_impl; [exact H|].
  intros c Hc. apply digit_range in Hc. no_bracket.
Qed.

Lemma str_of_int_bracket_free n : bracket_free (str_of_int n).
Proof.
  unfold str_of_int. destruct (n <? 0).
  - apply bracket_free_cons; [no_bracket|]. apply digits_bracket_free, uint_codes_digits.
  - apply digits_bracket_free, uint_codes_digits.
Qed.

Lemma float_literal_bracket_free lit : float_literal lit -> bracket_free lit.
Proof.
  intros (sign & int & frac & exp & -> & [Hs Hi] & Hf & He & _).
  repeat apply bracket_free_app.
  - destruct Hs as [->| ->]; [apply bracket_free_nil|].
    apply bracket_free_cons; [no_bracket|apply bracket_free_nil].
  - destruct Hi as [->|(c & ds & -> & Hc & _ & Hd)].
    + apply bracket_free_cons; [no_bracket|apply bracket_free_nil].
    + apply digit_range in Hc.
      apply bracket_free_cons; [no_bracket|apply digits_bracket_free, Hd].
  - destruct Hf as [->|(d & ds & -> & Hd & Hds)]; [apply bracket_free_nil|].
    apply digit_range in Hd.
    apply bracket_free_cons; [no_bracket|].
    apply bracket_free_cons; [no_bracket|apply digits_bracket_free, Hds].
  - destruct He as [->|(e & sgn & d & ds & -> & He & Hs' & Hd & Hds)]; [apply bracket_free_nil|].
    apply digit_range in Hd.
    apply bracket_free_cons; [destruct He as [->| ->]; no_bracket|].
    apply bracket_free_app.
    + destruct Hs' as [->|[->| ->]]; [apply bracket_free_nil| |];
        (apply bracket_free_cons; [no_bracket|apply bracket_free_nil]).
    + apply bracket_free_cons; [no_bracket|apply digits_bracket_free, Hds].
Qed.

Lemma hex_digit_no_bracket d :
  0 <= d < 16 ->
  hex_digit d <> 123 /\ hex_digit d <> 125 /\ hex_digit d <> 91 /\ hex_digit d <> 93.
Proof.
  intros Hd. unfold hex_digit. destruct (Z.ltb_spec d 10); no_bracket.
Qed.

Lemma u_escape_bracket_free n : bracket_free (u_escape n).
Proof.
  unfold u_escape, hex4. cbn [map app].
  repeat (apply bracket_free_cons;
          [first [no_bracket | apply hex_digit_no_bracket, Z.mod_pos_bound; lia]|]).
  apply bracket_free_nil.
Qed.

Lemma escape_char_bracket_free c :
  c <> 123 /\ c <> 125 /\ c <> 91 /\ c <> 93 -> bracket_free (escape_char c).
Proof.
  intros Hc. unfold escape_char.
  repeat match goal with
  | |- context [if ?b then _ else _] => destruct b eqn:?
  end;
  try (apply bracket_free_cons; [exact Hc|apply bracket_free_nil]);
  try (repeat (apply bracket_free_cons; [no_bracket|]); apply bracket_free_nil);
  try apply u_escape_bracket_free;
  try (apply bracket_free_app; apply u_escape_bracket_free).
Qed.

Lemma encode_basestring_bracket_free s :
  bracket_free s -> bracket_free (encode_basestring_ascii s).
Proof.
  intros Hs. unfold encode_basestring_ascii.
  apply bracket_free_cons; [no_bracket|]. apply bracket_free_app.
  - induction Hs as [|c s Hc _ IH]; [apply bracket_free_nil|].
    cbn [flat_map]. apply bracket_free_app; [apply escape_char_bracket_free, Hc|exact IH].
  - apply bracket_free_cons; [no_bracket|apply bracket_free_nil].
Qed.

Lemma plain_array items :
  plain (JArray items) <-> Forall plain items.
Proof.
  cbn [plain]. induction items as [|x items IH]; cbn [fold_right].
  - split; [intros _; apply List.Forall_nil|auto].
  - rewrite IH. split.
    + intros [H1 H2]. apply List.Forall_cons; assumption.
    + intros H. apply Forall_cons_1 in H. exact H.
Qed.

Lemma plain_object pairs :
  plain (JObject pairs) <-> Forall (fun kv => bracket_free (fst kv) /\ plain (snd kv)) pairs.
Proof.
  cbn [plain]. induction pairs as [|kv pairs IH]; cbn [fold_right].
  - split; [intros _; apply List.Forall_nil|auto].
  - rewrite IH. split.
    + intros [H1 H2]. apply List.Forall_cons; assumption.
    + intros H. apply Forall_cons_1 in H. exact H.
Qed.

Lemma separator_never_below : never_below [44; 32].
Proof.
  apply never_below_free.
  repeat (apply bracket_free_cons; [no_bracket|]). apply bracket_free_nil.
Qed.

Lemma dumps_never_below v : representable v -> plain v -> never_below (dumps v).
Proof.
  induction v as [ | b | n | lit | s | items IH | pairs IH] using json_induction;
    intros Hr Hp.
  - apply never_below_free. cbn.
    repeat (apply bracket_free_cons; [no_bracket|]). apply bracket_free_nil.
  - apply never_below_free. destruct b; cbn;
      repeat (apply bracket_free_cons; [no_bracket|]); apply bracket_free_nil.
  - apply never_below_free, str_of_int_bracket_free.
  - apply never_below_free, float_literal_bracket_free, Hr.
  - apply never_below_free, encode_basestring_bracket_free, Hp.
  - cbn [dumps].
    apply (wrapped_interior 91 93); [right; split; reflexivity|].
    apply never_below_join; [apply separator_never_below|].
    apply representable_array in Hr. apply plain_array in Hp.
    apply Forall_map.
    induction IH as [|x items Hx _ IHi]; [apply List.Forall_nil|].
    apply Forall_cons_1 in Hr. apply Forall_cons_1 in Hp.
    apply List.Forall_cons; [apply Hx; tauto|apply IHi; tauto].
  - cbn [dumps].
    apply (wrapped_interior 123 125); [left; split; reflexivity|].
    apply never_below_join; [apply separator_never_below|].
    apply representable_object in Hr. destruct Hr as [_ Hr]. apply plain_object in Hp.
    apply Forall_map.
    induction IH as [|kv pairs Hkv _ IHi]; [apply List.Forall_nil|].
    apply Forall_cons_1 in Hr. apply Forall_cons_1 in Hp.
    apply List.Forall_cons; [|apply IHi; tauto].
    cbv beta. apply never_below_app.
    + apply never_below_free, encode_basestring_bracket_free. tauto.
    + apply never_below_app; [|apply Hkv; tauto].
      apply never_below_free.
      repeat (apply bracket_free_cons; [no_bracket|]). apply bracket_free_nil.
Qed.

Lemma bytes_decode_single b :
  byte_val b < 128 -> bytes_decode [b] = Ok [byte_val b].
Proof.
  intros Hb. pose proof (byte_val_range b) as Hr.
  unfold bytes_decode. cbn [map]. apply (utf8_decode_ascii [byte_val b]).
  apply ascii_text_cons; [lia|apply ascii_text_nil].
Qed.

Lemma bytes_decode_high b :
  128 <= byte_val b -> bytes_decode [b] = Raise UnicodeDecodeError.
Proof.
  intros Hb. destruct b; try reflexivity; exfalso; vm_compute in Hb; apply Hb; reflexivity.
Qed.

Lemma zero_test st : (fst st =? 0) && (snd st =? 0) = bool_decide (st = (0, 0)).
Proof.
  destruct st as [c s]. cbn [fst snd].
  destruct (Z.eqb_spec c 0) as [->|Hc]; destruct (Z.eqb_spec s 0) as [->|Hs]; cbn;
    symmetry; first [apply bool_decide_eq_true_2; reflexivity
                    |apply bool_decide_eq_false_2; congruence].
Qed.

Lemma read_packet_run t : forall pkt st rest,
  ascii_text t -> t <> [] ->
  (forall p q, t = p ++ q -> p <> [] -> q <> [] -> walk st p <> (0, 0)) ->
  walk st t = (0, 0) ->
  read_packet (map byte_of_Z t ++ rest) pkt st = Some (Ok (pkt ++ t, rest)).
Proof.
  induction t as [|c t IH]; intros pkt st rest Ha Hne Hin Hend; [contradiction|].
  apply Forall_cons_1 in Ha. destruct Ha as [Hc Ha].
  assert (Hv : byte_val (byte_of_Z c) = c).
  { rewrite byte_val_of_Z. apply Z.mod_small. lia. }
  cbn [map app read_packet].
  rewrite bytes_decode_single by (rewrite Hv; lia). rewrite Hv.
  rewrite zero_test.
  destruct t as [|d t].
  - change (walk st [c]) with (count_bracket st [c]) in Hend.
    rewrite bool_decide_eq_true_2 by exact Hend. reflexivity.
  - rewrite bool_decide_eq_false_2
      by (apply (Hin [c] (d :: t)); [reflexivity|discriminate|discriminate]).
    rewrite (IH (pkt ++ [c]) (count_bracket st [c]) rest Ha); try discriminate.
    + rewrite <- app_assoc. reflexivity.
    + intros p q E Hp Hq. apply (Hin (c :: p) q); [rewrite E; reflexivity|discriminate|exact Hq].
    + exact Hend.
Qed.

(** The framing finds the end of a packet by counting brackets: for a list
    or an object that JSON can carry and none of whose strings and keys
    holds a bracket, the bytes of its text followed by anything are read up
    to the end of the text and no further, and the text read parses back to
    the value. *)
Theorem read_packet_frames (v : json) (rest : list byte) :
  representable v -> plain v ->
  (exists items, v = JArray items) \/ (exists pairs, v = JObject pairs) ->
  exists bs,
    str_encode (dumps v) = Ok bs /\
    read_packet (bs ++ rest) [] (0, 0) = Some (Ok (dumps v, rest)) /\
    loads (dumps v) = Ok v.
Proof.
  intros Hr Hp Hc.
  assert (Hw : exists o c t,
             dumps v = [o] ++ t ++ [c] /\
             ((o = 123 /\ c = 125) \/ (o = 91 /\ c = 93)) /\ never_below t).
  { destruct Hc as [[items ->]|[pairs ->]].
    - exists 91, 93, (join [44; 32] (map dumps items)).
      split; [reflexivity|]. split; [right; split; reflexivity|].
      apply never_below_join; [apply separator_never_below|].
      apply representable_array in Hr. apply plain_array in Hp. apply Forall_map.
      induction items as [|x items IH]; [apply List.Forall_nil|].
      apply Forall_cons_1 in Hr. apply Forall_cons_1 in Hp.
      apply List.Forall_cons; [apply dumps_never_below; tauto|apply IH; tauto].
    - exists 123, 125, (join [44; 32] (map (fun kv => encode_basestring_ascii (fst kv)
                                                     ++ [58; 32] ++ dumps (snd kv)) pairs)).
      split; [reflexivity|]. split; [left; split; reflexivity|].
      apply never_below_join; [apply separator_never_below|].
      apply representable_object in Hr. destruct Hr as [_ Hr]. apply plain_object in Hp.
      apply Forall_map.
      induction pairs as [|kv pairs IH]; [apply List.Forall_nil|].
      apply Forall_cons_1 in Hr. apply Forall_cons_1 in Hp.
      apply List.Forall_cons; [|apply IH; tauto].
      cbv beta. apply never_below_app.
      + apply never_below_free, encode_basestring_bracket_free. tauto.
      + apply never_below_app; [|apply dumps_never_below; tauto].
        apply never_below_free.
        repeat (apply bracket_free_cons; [no_bracket|]). apply bracket_free_nil. }
  destruct Hw as (o & c & t & Ed & Hoc & Ht).
  destruct (wrapped_interior o c t Hoc Ht) as [Hnb Hin].
  destruct (decode_encode_ascii _ (dumps_ascii _ Hr)) as [He _].
  exists (map byte_of_Z (dumps v)). split; [exact He|]. split; [|apply loads_dumps, Hr].
  apply (read_packet_run (dumps v) [] (0, 0) rest).
  - apply dumps_ascii, Hr.
  - rewrite Ed. discriminate.
  - intros p q E Hpne Hqne. rewrite Ed in E.
    destruct (Hin (0, 0) p q E Hpne Hqne) as (H1 & H2 & H3).
    intros Hz. rewrite Hz in H3. cbn in H3. lia.
  - rewrite Ed. apply (proj1 (Hnb (0, 0))).
Qed.

Lemma read_packet_frames_witness :
  exists bs,
    str_encode (dumps (JObject [(py "type", JString (py "publish"));
                                (py "data", JArray [JInt 1; JObject []])])) = Ok bs /\
    read_packet (bs ++ [x0a; x7b]) [] (0, 0)
    = Some (Ok (dumps (JObject [(py "type", JString (py "publish"));
                                (py "data", JArray [JInt 1; JObject []])]), [x0a; x7b])).
Proof.
  destruct (read_packet_frames
              (JObject [(py "type", JString (py "publish"));
                        (py "data", JArray [JInt 1; JObject []])]) [x0a; x7b])
    as (bs & He & Hf & _).
  - cbn [representable]. split.
    + apply (bool_decide_unpack _). vm_compute. exact I.
    + cbn [fold_right fst snd representable map]. repeat split; try solve_text.
      apply NoDup_nil_2.
  - cbn [plain fold_right fst snd]. unfold bracket_free. cbv [py].
    repeat split;
      repeat (apply List.Forall_cons; [vm_compute; repeat split; discriminate|]);
      apply List.Forall_nil.
  - right. eexists. reflexivity.
  - exists bs. split; [exact He|exact Hf].
Defined.

(** What the framing does with a byte outside a packet: a byte that is no
    bracket, a line feed between two packets for one, is a packet by
    itself; a byte of a character outside ASCII cannot be decoded alone and
    the read raises [UnicodeDecodeError], wherever it stands. *)
Theorem read_packet_outside (b : byte) (input : list byte) :
  (byte_val b < 128 ->
   byte_val b <> 123 /\ byte_val b <> 125 /\ byte_val b <> 91 /\ byte_val b <> 93 ->
   read_packet (b :: input) [] (0, 0) = Some (Ok ([byte_val b], input))) /\
  (128 <= byte_val b ->
   forall pkt st, read_packet (b :: input) pkt st = Some (Raise UnicodeDecodeError)).
Proof.
  split.
  - intros Hb Hn. cbn [read_packet]. rewrite bytes_decode_single by exact Hb.
    rewrite count_bracket_free by exact Hn. reflexivity.
  - intros Hb pkt st. cbn [read_packet]. rewrite bytes_decode_high by exact Hb. reflexivity.
Qed.

(** * Patterns of subscriptions *)

Lemma translate_literal p : forall n s,
  literal p -> translate (length p + n) (p ++ s) = map Lit p ++ translate n s.
Proof.
  induction p as [|c p IH]; intros n s Hp; [reflexivity|].
  apply Forall_cons_1 in Hp. destruct Hp as [(H1 & H2 & H3) Hp].
  cbn [length Nat.add app translate map].
  apply Z.eqb_neq in H1, H2, H3. rewrite H1, H2, H3.
  rewrite (IH n s Hp). reflexivity.
Qed.

Lemma glob_match_star_end name : glob_match [Star] name = true.
Proof.
  induction name as [|x name IH]; [reflexivity|].
  cbn [glob_match] in IH |- *. exact IH.
Qed.

Lemma glob_match_literal p toks name :
  glob_match (map Lit p ++ toks) name = true <->
  exists rest, name = p ++ rest /\ glob_match toks rest = true.
Proof.
  revert name. induction p as [|c p IH]; intros name.
  - cbn [map app]. split; [intros H; exists name; auto|intros (rest & -> & H); exact H].
  - cbn [map app glob_match]. destruct name as [|x name].
    + split; [discriminate|intros (rest & H & _); discriminate H].
    + rewrite andb_true_iff, Z.eqb_eq, IH. split.
      * intros [-> (rest & -> & H)]. exists rest. auto.
      * intros (rest & H & Hm). injection H as -> ->. split; [reflexivity|eauto].
Qed.

(** A pattern without wildcards matches its own text only, and followed by
    a star it matches the texts that begin with it: the subscription
    'rover/*' takes in what starts with 'rover/' and nothing else. *)
Theorem fnmatchcase_prefix (p t : pystr) :
  literal p ->
  (fnmatchcase t p = true <-> t = p) /\
  (fnmatchcase t (p ++ [42]) = true <-> exists rest, t = p ++ rest).
Proof.
  intros Hp. unfold fnmatchcase. split.
  - pose proof (translate_literal p 0 [] Hp) as E.
    rewrite Nat.add_0_r, app_nil_r in E. rewrite E. cbn [translate].
    rewrite glob_match_literal. split.
    + intros (rest & -> & H). destruct rest; [rewrite app_nil_r; reflexivity|discriminate H].
    + intros ->. exists []. rewrite app_nil_r. split; reflexivity.
  - rewrite length_app. cbn [length].
    rewrite (translate_literal p 1 [42] Hp). cbn [translate]. change (42 =? 42) with true.
    cbv iota. rewrite glob_match_literal. split.
    + intros (rest & -> & _). eauto.
    + intros (rest & ->). exists rest. split; [reflexivity|apply glob_match_star_end].
Qed.

Lemma fnmatchcase_prefix_witness :
  fnmatchcase (py "rover/arm/angle") (py "rover/" ++ [42]) = true.
Proof.
  apply (proj2 (fnmatchcase_prefix (py "rover/") (py "rover/arm/angle")
                  ltac:(unfold literal; cbv [py];
                        repeat (apply List.Forall_cons; [vm_compute; repeat split; discriminate|]);
                        apply List.Forall_nil))).
  exists (py "arm/angle"). reflexivity.
Defined.

(** * Two calls of connect for one name *)

Lemma orphaned_step fid s ev : orphaned fid s -> orphaned fid (step s ev).
Proof.
  intros [Hf Hp].
  assert (Hlt : (fid < length (futures s))%nat) by (eapply lookup_lt_Some; exact Hf).
  destruct ev as [other msg|dt|k0|k0 f0]; cbn [step].
  - destruct (heartbeat_fields msg) as [[k1 l]|e] eqn:E.
    + rewrite (heartbeat_callback_state other msg s k1 l E). split; cbn; [|exact Hp].
      unfold futures_after_resolve.
      destruct (_pending_connections s !! k1) as [f1|] eqn:E1; [|exact Hf].
      destruct (futures s !! f1) as [f|]; [|exact Hf].
      destruct (f_done f); [exact Hf|].
      rewrite list_lookup_insert_ne; [exact Hf|].
      intros ->. apply (Hp k1). exact E1.
    + rewrite (heartbeat_callback_error other msg s e E). split; assumption.
  - destruct (advance_fields dt s) as (_ & _ & _ & Ep & Ef & _).
    split; [rewrite Ef; exact Hf|rewrite Ep; exact Hp].
  - unfold connect. destruct (_peers s !! k0) eqn:Ek.
    + destruct (connect_open_fields k0 s) as (_ & _ & _ & Ep & Ef).
      split; [rewrite Ef; exact Hf|rewrite Ep; exact Hp].
    + split; cbn.
      * rewrite lookup_app_l by exact Hlt. exact Hf.
      * intros k. destruct (decide (k0 = k)) as [->|Hne].
        -- rewrite lookup_insert_eq. intros [= E]. lia.
        -- rewrite lookup_insert_ne by exact Hne. apply Hp.
  - destruct (futures s !! f0) as [[[|] n]|]; cbn [f_done]; try (split; assumption).
    unfold connect_resume. destruct (_pending_connections s !! k0) eqn:Ek; [|split; assumption].
    destruct (connect_open_fields k0 (set_pending (delete k0 (_pending_connections s)) s))
      as (_ & _ & _ & Ep & Ef).
    split; [rewrite Ef; exact Hf|]. rewrite Ep. cbn. intros k.
    destruct (decide (k0 = k)) as [->|Hne].
    + rewrite lookup_delete_eq. discriminate.
    + rewrite lookup_delete_ne by exact Hne. apply Hp.
Qed.

Lemma orphaned_run fid evs s : orphaned fid s -> orphaned fid (run evs s).
Proof.
  revert s. induction evs as [|ev evs IH]; intros s Hs; [exact Hs|].
  cbn [run foldl]. apply IH, orphaned_step, Hs.
Qed.

(** A second [connect(name)] made while a first one waits takes its place
    in [_pending_connections]: the future of the first call is resolved by
    no heartbeat and no other event afterwards, so that the first caller
    never resumes. *)
Theorem connect_twice_orphans (nm u : pystr) (evs0 evs : list event) (name : hkey) :
  let s := run evs0 (Router nm u) in
  let fid := length (futures s) in
  let s2 := snd (connect name (snd (connect name s))) in
  _peers s !! name = None ->
  _pending_connections s2 !! name = Some (S fid) /\
  futures (run evs s2) !! fid = Some (mkFuture false 0) /\
  step (run evs s2) (EvResume name fid) = run evs s2.
Proof.
  intros s fid s2 Hn.
  assert (E2 : s2 = set_pending (<[name := S fid]> (<[name := fid]> (_pending_connections s)))
                      (set_futures ((futures s ++ [mkFuture false 0]) ++ [mkFuture false 0]) s)).
  { unfold s2, connect. rewrite Hn. cbn [snd _peers set_pending set_futures]. rewrite Hn.
    cbn. rewrite length_app. cbn. replace (length (futures s) + 1)%nat with (S fid) by (unfold fid; lia).
    reflexivity. }
  assert (Ho : orphaned fid s2).
  { rewrite E2. split; cbn.
    - rewrite lookup_app_l by (rewrite length_app; cbn; unfold fid; lia).
      rewrite lookup_app_r by (unfold fid; lia).
      replace (fid - length (futures s))%nat with 0%nat by (unfold fid; lia). reflexivity.
    - intros k. destruct (decide (name = k)) as [->|Hne].
      + rewrite lookup_insert_eq. intros [= E]. lia.
      + rewrite !lookup_insert_ne by exact Hne. intros E.
        pose proof (pending_wf_run nm u evs0 k fid E) as Hlt. unfold fid in Hlt.
        fold s in Hlt. lia. }
  split; [rewrite E2; cbn; apply lookup_insert_eq|].
  destruct (orphaned_run fid evs s2 Ho) as [Hf _].
  split; [exact Hf|]. cbn [step]. rewrite Hf. reflexivity.
Qed.

Lemma connect_twice_orphans_witness :
  futures (run [EvHeartbeat (mkEndpoint (py "10.0.0.7") 50608)
                  (mkMessage (JString (py "9f1c")) (JString (py "heartbeat"))
                     (JObject [(py "source", JString (py "rover"));
                               (py "listen", JInt 40123)]))]
             (snd (connect (HStr (py "rover"))
                     (snd (connect (HStr (py "rover")) (run [] (Router (py "base") (py "07aa"))))))))
    !! length (futures (run [] (Router (py "base") (py "07aa"))))
  = Some (mkFuture false 0).
Proof.
  apply (connect_twice_orphans (py "base") (py "07aa") []
           [EvHeartbeat (mkEndpoint (py "10.0.0.7") 50608)
              (mkMessage (JString (py "9f1c")) (JString (py "heartbeat"))
                 (JObject [(py "source", JString (py "rover")); (py "listen", JInt 40123)]))]
           (HStr (py "rover"))).
  reflexivity.
Defined.
